(** * bpfcov command line tool (cli/cli.c): tracer, pin registry, profraw writer

    A shallow embedding of the parts of [cli.c] that pin the coverage maps
    of a traced eBPF loader ([run]) and serialise them into a profraw file
    ([gen]), together with the properties of its specification.

    Conventions.
    - C integers are [Z] with the wrap-around of their type written out.
    - Memory is little-endian and registers are the x86-64 ones, as the use
      of [struct user_regs_struct] ([orig_rax], [rdi], [rax]) fixes.
    - A C string is a [string] (its characters before the terminating NUL);
      a [char *] that may be NULL is an [option string].
    - Effects are threaded through a [world]; a computation ends with a
      value, with a call to [exit], or in undefined behaviour. *)

From Stdlib Require Import ZArith Lia.
From Stdlib.Strings Require Import Ascii String Byte.
From stdpp Require Import base option list gmap strings pretty fin_maps.

Local Open Scope string_scope.
Local Open Scope list_scope.
Local Open Scope Z_scope.

(** ** Machine integers and byte sequences *)

Module Bytes.

Definition to_u32 (z : Z) : Z := z mod 2 ^ 32.
Definition to_u64 (z : Z) : Z := z mod 2 ^ 64.

(** Conversion to a signed type of [w] bits (two's complement). *)
Definition to_signed (w : Z) (z : Z) : Z :=
  let m := z mod 2 ^ w in
  if m <? 2 ^ (w - 1) then m else m - 2 ^ w.

Definition to_int (z : Z) : Z := to_signed 32 z.
Definition to_long (z : Z) : Z := to_signed 64 z.

Definition byte_of_Z (z : Z) : byte :=
  match Byte.of_N (Z.to_N (z mod 256)) with
  | Some b => b
  | None => x00
  end.

Definition Z_of_byte (b : byte) : Z := Z.of_N (Byte.to_N b).

(** The [n] bytes of the object representation of an integer, least
    significant byte first. *)
Fixpoint le_encode (n : nat) (z : Z) : list byte :=
  match n with
  | O => []
  | S n' => byte_of_Z z :: le_encode n' (z / 256)
  end.

(** The unsigned integer whose object representation is [bs]. *)
Fixpoint le_decode (bs : list byte) : Z :=
  match bs with
  | [] => 0
  | b :: bs' => Z_of_byte b + 256 * le_decode bs'
  end.

End Bytes.

#[global] Instance byte_eq_dec : EqDecision byte.
Proof.
  intros a b. destruct (decide (Byte.to_N a = Byte.to_N b)) as [H|H].
  - left. apply (f_equal Byte.of_N) in H. rewrite !Byte.of_to_N in H. congruence.
  - right. congruence.
Defined.

(** ** C strings: [strlen], [strncmp], [strtok] *)

Module CStr.

Definition NUL : ascii := "000"%char.

(** The string of a line feed. *)
Definition NL : string := String "010"%char EmptyString.

Definition code (c : ascii) : Z := Z.of_nat (nat_of_ascii c).

Fixpoint strlen (s : string) : Z :=
  match s with
  | EmptyString => 0
  | String _ s' => 1 + strlen s'
  end.

(** [strncmp s1 s2 n]: compares at most [n] characters, as unsigned
    chars, and stops after a NUL. The end of a [string] is its NUL. *)
Fixpoint strncmp (s1 s2 : string) (n : nat) {struct n} : Z :=
  match n with
  | O => 0
  | S n' =>
      match s1, s2 with
      | EmptyString, EmptyString => 0
      | EmptyString, String c2 _ => 0 - code c2
      | String c1 _, EmptyString => code c1
      | String c1 t1, String c2 t2 =>
          if Ascii.eqb c1 c2
          then (if Ascii.eqb c1 NUL then 0 else strncmp t1 t2 n')
          else code c1 - code c2
      end
  end.

Fixpoint is_delim (c : ascii) (delim : string) : bool :=
  match delim with
  | EmptyString => false
  | String d delim' => Ascii.eqb c d || is_delim c delim'
  end.

(** [s + strspn(s, delim)] *)
Fixpoint skip_delims (delim s : string) : string :=
  match s with
  | EmptyString => EmptyString
  | String c s' => if is_delim c delim then skip_delims delim s' else s
  end.

(** The token at the head of [s] and what follows the delimiter that
    ends it (the position [strtok] saves). *)
Fixpoint take_token (delim s : string) : string * string :=
  match s with
  | EmptyString => (EmptyString, EmptyString)
  | String c s' =>
      if is_delim c delim then (EmptyString, s')
      else let '(tok, rest) := take_token delim s' in (String c tok, rest)
  end.

(** One call of [strtok] on the string [s] (the first argument, or the
    saved position when the first argument is NULL): the token, NULL when
    there is none, and the new saved position. *)
Definition strtok (s delim : string) : option string * string :=
  match skip_delims delim s with
  | EmptyString => (None, EmptyString)
  | s1 => let '(tok, rest) := take_token delim s1 in (Some tok, rest)
  end.

End CStr.

(** ** Command line state *)

Definition NUM_PINNED_MAPS : nat := 4.

(** The value of [args->command]: a pointer to [run], to [gen], or NULL. *)
Inductive callback_t := cmd_run | cmd_gen.

#[global] Instance callback_t_eq_dec : EqDecision callback_t.
Proof. solve_decision. Defined.

Record root_args := {
  output : string;
  bpffs : string;
  cov_root : string;
  prog_root : string;
  pin : list string;
  verbosity : Z;
  command : option callback_t;
  program : list string
}.

(** [args->pin[p]] *)
Definition pin_at (args : root_args) (p : nat) : string :=
  default "" (pin args !! p).

(** ** Pin registry *)

(** [get_pin_path(args, suffix, &pin_path)]: the returned int and the
    value of [*pin_path] afterwards. [None] is the undefined behaviour of
    [strncmp] on a NULL [suffix]. *)
Definition get_pin_path (args : root_args) (suffix : option string)
    (pin_path : string) : option (Z * string) :=
  match suffix with
  | None => None
  | Some suffix =>
      if CStr.strncmp suffix "profc" 5 =? 0 then Some (1, pin_at args 0)
      else if CStr.strncmp suffix "profd" 5 =? 0 then Some (1, pin_at args 1)
      else if CStr.strncmp suffix "profn" 5 =? 0 then Some (1, pin_at args 2)
      else if CStr.strncmp suffix "covmap" 6 =? 0 then Some (1, pin_at args 3)
      else Some (0, pin_path)
  end.

(** The suffix that [run] extracts from a map name:
    [strtok(map_info.name, sep); suffix = strtok(NULL, sep);] *)
Definition name_suffix (name : string) : option string :=
  let sep := "." in
  let '(_, saved) := CStr.strtok name sep in
  let '(suffix, _) := CStr.strtok saved sep in
  suffix.

(** ** Kernel objects *)

(** The leading fields of [struct bpf_map_info] (linux/bpf.h), in the
    order of their declaration; each of the six integers is a [__u32] and
    [name] is a [char[BPF_OBJ_NAME_LEN]]. *)
Record bpf_map_info := {
  map_type : Z;
  map_id : Z;
  key_size : Z;
  value_size : Z;
  max_entries : Z;
  map_flags : Z;
  name : string
}.

(** [struct bpf_map_info info = {};] *)
Definition bpf_map_info_zero : bpf_map_info :=
  {| map_type := 0; map_id := 0; key_size := 0; value_size := 0;
     max_entries := 0; map_flags := 0; name := "" |}.

Definition BPF_OBJ_NAME_LEN : nat := 16.

Definition bytes_of_string (s : string) : list byte :=
  map byte_of_ascii (list_ascii_of_string s).

(** The object representation of the leading fields of a
    [struct bpf_map_info]: [value_size] lies at byte offset 12 and is
    followed at once by [max_entries]. *)
Definition bpf_map_info_bytes (info : bpf_map_info) : list byte :=
  Bytes.le_encode 4 (map_type info) ++ Bytes.le_encode 4 (map_id info) ++
  Bytes.le_encode 4 (key_size info) ++ Bytes.le_encode 4 (value_size info) ++
  Bytes.le_encode 4 (max_entries info) ++ Bytes.le_encode 4 (map_flags info) ++
  take BPF_OBJ_NAME_LEN (bytes_of_string (name info) ++ replicate BPF_OBJ_NAME_LEN x00).

Definition offsetof_value_size : nat := 12.

(** A kernel map: its metadata and its entries, first key first. An entry
    is a key and the value a lookup of that key yields; the value is absent
    when the kernel lists the key but refuses the lookup (ENOENT). *)
Record kmap := {
  km_info : bpf_map_info;
  km_entries : list (list byte * option (list byte))
}.

(** What a file descriptor refers to. *)
Inductive kobj :=
| KMap (m : kmap)
| KFile (path : string)
| KPidfd (pid : Z)
| KOther.

(** The calls of the tracer that the properties of [run] speak about. *)
Inductive call :=
| call_pidfd_open (pid : Z)
| call_pidfd_getfd (pidfd targetfd : Z)
| call_bpf_obj_pin (fd : Z) (path : string).

(** A pointer returned by [malloc]: NULL or the address of a block. *)
Definition ptr := option nat.
Definition NULL : ptr := None.

(** ** The world of the tool's process *)

Record world := {
  w_pins : gmap string kmap;          (* the objects pinned in the bpffs, by path *)
  w_writable : string -> bool;        (* may an entry be created or removed at this path *)
  w_fds : list (option kobj);         (* the descriptor table, indexed by descriptor *)
  w_heap : list (option (list byte)); (* the blocks given out by malloc; None once freed *)
  w_malloc : list bool;               (* whether the coming calls of malloc succeed *)
  w_junk : byte;                      (* what a fresh block happens to hold *)
  w_files : gmap string (list byte);  (* regular files, by path *)
  w_stdout : list string;
  w_stderr : list string;
  w_trace : list call
}.

Definition set_pins (f : gmap string kmap -> gmap string kmap) (w : world) : world :=
  {| w_pins := f (w_pins w); w_writable := w_writable w; w_fds := w_fds w;
     w_heap := w_heap w; w_malloc := w_malloc w; w_junk := w_junk w;
     w_files := w_files w; w_stdout := w_stdout w; w_stderr := w_stderr w;
     w_trace := w_trace w |}.

Definition set_fds (f : list (option kobj) -> list (option kobj)) (w : world) : world :=
  {| w_pins := w_pins w; w_writable := w_writable w; w_fds := f (w_fds w);
     w_heap := w_heap w; w_malloc := w_malloc w; w_junk := w_junk w;
     w_files := w_files w; w_stdout := w_stdout w; w_stderr := w_stderr w;
     w_trace := w_trace w |}.

Definition set_heap (f : list (option (list byte)) -> list (option (list byte)))
    (w : world) : world :=
  {| w_pins := w_pins w; w_writable := w_writable w; w_fds := w_fds w;
     w_heap := f (w_heap w); w_malloc := w_malloc w; w_junk := w_junk w;
     w_files := w_files w; w_stdout := w_stdout w; w_stderr := w_stderr w;
     w_trace := w_trace w |}.

Definition set_malloc (f : list bool -> list bool) (w : world) : world :=
  {| w_pins := w_pins w; w_writable := w_writable w; w_fds := w_fds w;
     w_heap := w_heap w; w_malloc := f (w_malloc w); w_junk := w_junk w;
     w_files := w_files w; w_stdout := w_stdout w; w_stderr := w_stderr w;
     w_trace := w_trace w |}.

Definition set_files (f : gmap string (list byte) -> gmap string (list byte))
    (w : world) : world :=
  {| w_pins := w_pins w; w_writable := w_writable w; w_fds := w_fds w;
     w_heap := w_heap w; w_malloc := w_malloc w; w_junk := w_junk w;
     w_files := f (w_files w); w_stdout := w_stdout w; w_stderr := w_stderr w;
     w_trace := w_trace w |}.

Definition set_stdout (f : list string -> list string) (w : world) : world :=
  {| w_pins := w_pins w; w_writable := w_writable w; w_fds := w_fds w;
     w_heap := w_heap w; w_malloc := w_malloc w; w_junk := w_junk w;
     w_files := w_files w; w_stdout := f (w_stdout w); w_stderr := w_stderr w;
     w_trace := w_trace w |}.

Definition set_stderr (f : list string -> list string) (w : world) : world :=
  {| w_pins := w_pins w; w_writable := w_writable w; w_fds := w_fds w;
     w_heap := w_heap w; w_malloc := w_malloc w; w_junk := w_junk w;
     w_files := w_files w; w_stdout := w_stdout w; w_stderr := f (w_stderr w);
     w_trace := w_trace w |}.

Definition set_trace (f : list call -> list call) (w : world) : world :=
  {| w_pins := w_pins w; w_writable := w_writable w; w_fds := w_fds w;
     w_heap := w_heap w; w_malloc := w_malloc w; w_junk := w_junk w;
     w_files := w_files w; w_stdout := w_stdout w; w_stderr := w_stderr w;
     w_trace := f (w_trace w) |}.

(** ** Computations *)

(** How a computation ends: with a value, in [exit(status)], or in
    undefined behaviour. *)
Inductive result (A : Type) : Type :=
| Ok (a : A) (w : world)
| Exited (status : Z) (w : world)
| Undef.
Arguments Ok {A} a w.
Arguments Exited {A} status w.
Arguments Undef {A}.

Definition M (A : Type) : Type := world -> result A.

Definition ret {A} (a : A) : M A := fun w => Ok a w.

Definition bind {A B} (m : M A) (k : A -> M B) : M B :=
  fun w =>
    match m w with
    | Ok a w' => k a w'
    | Exited s w' => Exited s w'
    | Undef => Undef
    end.

Notation "'let*' x ':=' m 'in' k" := (bind m (fun x => k))
  (at level 10, x name, m at level 100, k at level 200).

Definition undefined {A} : M A := fun _ => Undef.

(** [exit(status)]: the streams are flushed, the process ends. *)
Definition exit {A} (status : Z) : M A := fun w => Exited status w.

Definition EXIT_FAILURE : Z := 1.

(** The world a computation leaves behind, when it leaves one. *)
Definition world_of {A} (r : result A) : option world :=
  match r with
  | Ok _ w => Some w
  | Exited _ w => Some w
  | Undef => None
  end.

(** ** The C library and the system calls the tool uses *)

(** *** The heap *)

(** [malloc(n)]: NULL when the allocator refuses, else a fresh block of
    [n] bytes of indeterminate content. *)
Definition malloc (n : Z) : M ptr := fun w =>
  let ok := hd true (w_malloc w) in
  let w1 := set_malloc (fun o => tl o) w in
  if ok
  then Ok (Some (length (w_heap w1)))
          (set_heap (fun h => h ++ [Some (replicate (Z.to_nat n) (w_junk w1))]) w1)
  else Ok NULL w1.

(** The content of the live block at [p]. *)
Definition block (w : world) (p : ptr) : option (list byte) :=
  match p with
  | None => None
  | Some b => mjoin (w_heap w !! b)
  end.

(** [free(p)]: nothing for NULL; undefined for what is not a live block. *)
Definition free (p : ptr) : M unit := fun w =>
  match p with
  | None => Ok tt w
  | Some b =>
      match block w p with
      | Some _ => Ok tt (set_heap (fun h => <[b := None]> h) w)
      | None => Undef
      end
  end.

(** Reading [n] bytes at offset [off] of the block at [p]; undefined
    outside of a live block. *)
Definition load (p : ptr) (off n : nat) : M (list byte) := fun w =>
  match block w p with
  | Some bs =>
      if bool_decide (off + n <= length bs)%nat
      then Ok (take n (drop off bs)) w
      else Undef
  | None => Undef
  end.

(** Writing [bs] at offset [off] of the block at [p]. *)
Definition store (p : ptr) (off : nat) (bs : list byte) : M unit := fun w =>
  match p, block w p with
  | Some b, Some old =>
      if bool_decide (off + length bs <= length old)%nat
      then Ok tt (set_heap (fun h =>
                    <[b := Some (take off old ++ bs ++ drop (off + length bs) old)]> h) w)
      else Undef
  | _, _ => Undef
  end.

(** [memcpy(dst, src, n)] between blocks. *)
Definition memcpy (dst src : ptr) (n : Z) : M unit :=
  let* bs := load src 0 (Z.to_nat n) in
  store dst 0 bs.

(** The heap once [free(p)] has returned. *)
Definition freed (p : ptr) (h : list (option (list byte))) : list (option (list byte)) :=
  match p with
  | None => h
  | Some b => <[b := None]> h
  end.

(** *** Descriptors *)

(** The lowest descriptor that is free. *)
Fixpoint first_free (tbl : list (option kobj)) : nat :=
  match tbl with
  | [] => 0
  | None :: _ => 0
  | Some _ :: tbl' => S (first_free tbl')
  end.

Fixpoint fd_install (o : kobj) (tbl : list (option kobj)) : list (option kobj) :=
  match tbl with
  | [] => [Some o]
  | None :: tbl' => Some o :: tbl'
  | Some x :: tbl' => Some x :: fd_install o tbl'
  end.

(** A new descriptor for [o]: the lowest free one. *)
Definition new_fd (o : kobj) : M Z := fun w =>
  Ok (Z.of_nat (first_free (w_fds w))) (set_fds (fd_install o) w).

(** The object an int refers to as a descriptor, if it is an open one. *)
Definition fd_obj (w : world) (fd : Z) : option kobj :=
  if fd <? 0 then None else mjoin (w_fds w !! Z.to_nat fd).

Definition close (fd : Z) : M Z := fun w =>
  match fd_obj w fd with
  | Some _ => Ok 0 (set_fds (fun t => <[Z.to_nat fd := None]> t) w)
  | None => Ok (-1) w
  end.

(** *** The bpf library *)

(** [bpf_obj_get(path)]: a descriptor for the object pinned at [path],
    or -1. *)
Definition bpf_obj_get (path : string) : M Z := fun w =>
  match w_pins w !! path with
  | Some m => new_fd (KMap m) w
  | None => Ok (-1) w
  end.

(** [bpf_obj_get_info_by_fd(fd, &info, &len)] on a zeroed [info]: the
    returned int and [info] afterwards. *)
Definition bpf_obj_get_info_by_fd (fd : Z) : M (Z * bpf_map_info) := fun w =>
  match fd_obj w fd with
  | Some (KMap m) => Ok (0, km_info m) w
  | _ => Ok (-1, bpf_map_info_zero) w
  end.

(** [bpf_map_get_next_key(fd, NULL, k)]: the first key of the map is
    written to the block at [k]. *)
Definition bpf_map_get_next_key (fd : Z) (k : ptr) : M Z := fun w =>
  match fd_obj w fd with
  | Some (KMap m) =>
      match km_entries m with
      | [] => Ok (-1) w
      | (key, _) :: _ => (let* _ := store k 0 key in ret 0) w
      end
  | _ => Ok (-1) w
  end.

Fixpoint find_entry (key : list byte) (es : list (list byte * option (list byte)))
    : option (list byte) :=
  match es with
  | [] => None
  | (k, v) :: es' => if bool_decide (k = key) then v else find_entry key es'
  end.

(** [bpf_map_lookup_elem(fd, k, v)]: the value stored under the key held
    by the block at [k] is written to the block at [v]. *)
Definition bpf_map_lookup_elem (fd : Z) (k v : ptr) : M Z := fun w =>
  match fd_obj w fd with
  | Some (KMap m) =>
      (let* key := load k 0 (Z.to_nat (key_size (km_info m))) in
       match find_entry key (km_entries m) with
       | Some val => let* _ := store v 0 val in ret 0
       | None => ret (-1)
       end) w
  | _ => Ok (-1) w
  end.

(** [bpf_obj_pin(fd, path)]: the map behind [fd] gets the name [path] in
    the bpffs, unless the name is taken or may not be created. *)
Definition bpf_obj_pin (fd : Z) (path : string) : M Z := fun w =>
  let w := set_trace (fun t => t ++ [call_bpf_obj_pin fd path]) w in
  match fd_obj w fd, w_pins w !! path with
  | Some (KMap m), None =>
      if w_writable w path
      then Ok 0 (set_pins (fun ps => <[path := m]> ps) w)
      else Ok (-1) w
  | _, _ => Ok (-1) w
  end.

(** *** Paths of the bpffs *)

(** [access(path, F_OK)] *)
Definition access (path : string) : M Z := fun w =>
  match w_pins w !! path with
  | Some _ => Ok 0 w
  | None => Ok (-1) w
  end.

Definition unlink (path : string) : M Z := fun w =>
  match w_pins w !! path with
  | Some _ =>
      if w_writable w path
      then Ok 0 (set_pins (fun ps => delete path ps) w)
      else Ok (-1) w
  | None => Ok (-1) w
  end.

(** *** Streams *)

Record FILE := { f_fd : Z; f_path : string }.

(** [fopen(path, "wb")]: NULL, or a stream on the truncated file. *)
Definition fopen_wb (path : string) : M (option FILE) := fun w =>
  if w_writable w path
  then (let* fd := new_fd (KFile path) in
        ret (Some {| f_fd := fd; f_path := path |}))
         (set_files (fun fs => <[path := []]> fs) w)
  else Ok None w.

(** The bytes that reach the file of a stream are appended to it. *)
Definition fwrite (bs : list byte) (fp : FILE) : M unit := fun w =>
  Ok tt (set_files (fun fs => <[f_path fp := default [] (fs !! f_path fp) ++ bs]> fs) w).

(** [fwrite(p, size, 1, fp)] of a block. *)
Definition fwrite_block (p : ptr) (size : Z) (fp : FILE) : M unit :=
  if size =? 0 then ret tt
  else let* bs := load p 0 (Z.to_nat size) in fwrite bs fp.

Definition fclose (fp : FILE) : M Z := close (f_fd fp).

Definition fprintf_stderr (text : string) : M unit := fun w =>
  Ok tt (set_stderr (fun l => l ++ [text]) w).

Definition fprintf_stdout (text : string) : M unit := fun w =>
  Ok tt (set_stdout (fun l => l ++ [text]) w).

(** [argp_error(state, ...)]: the message goes to stderr and the process
    ends with [argp_err_exit_status]. *)
Definition argp_err_exit_status : Z := 1.

Definition argp_error {A} (text : string) : M A :=
  let* _ := fprintf_stderr text in
  exit argp_err_exit_status.

(** ** The traced process, as the tracer observes it *)

(** The registers of [struct user_regs_struct] that [run] reads; each is
    an unsigned 64-bit integer. *)
Record user_regs_struct := {
  orig_rax : Z;
  rdi : Z;
  rsi : Z;
  rdx : Z;
  r10 : Z;
  r8 : Z;
  r9 : Z;
  rax : Z
}.

(** Constants of the kernel interface (x86-64). *)
Definition SYS_bpf : Z := 321.
Definition BPF_MAP_CREATE : Z := 0.
Definition ESRCH : Z := 3.

(** What one turn of the tracer's loop meets. A call that can fail is
    given by its [errno], 0 when it succeeds. *)
Record iteration := {
  it_resume_entry : Z;                      (* ptrace(PTRACE_SYSCALL), towards the entry stop *)
  it_wait_entry : Z;                        (* waitpid *)
  it_regs_entry : user_regs_struct + Z;     (* ptrace(PTRACE_GETREGS) at the entry stop *)
  it_resume_exit : Z;                       (* ptrace(PTRACE_SYSCALL), towards the exit stop *)
  it_wait_exit : Z;                         (* waitpid *)
  it_regs_exit : user_regs_struct + Z;      (* ptrace(PTRACE_GETREGS) at the exit stop *)
  it_pidfd_open : bool;                     (* can the traced process be opened by pid *)
  it_fdtable : gmap Z kobj                  (* the descriptors of the traced process *)
}.

(** The traced program: what [fork] returns to the tool (the pid of the
    child, or -1 with [tr_errno]) and the turns of the loop it causes. *)
Record tracee := {
  tr_fork : Z;
  tr_errno : Z;
  tr_events : list iteration
}.

(** [syscall(SYS_pidfd_open, pid, 0)] *)
Definition pidfd_open (pid : Z) (it : iteration) : M Z := fun w =>
  let w := set_trace (fun t => t ++ [call_pidfd_open pid]) w in
  if it_pidfd_open it then new_fd (KPidfd pid) w else Ok (-1) w.

(** [syscall(SYS_pidfd_getfd, pidfd, targetfd, 0)]: a duplicate, in the
    tool, of the descriptor [targetfd] of the traced process. *)
Definition pidfd_getfd (pidfd targetfd : Z) (it : iteration) : M Z := fun w =>
  let w := set_trace (fun t => t ++ [call_pidfd_getfd pidfd targetfd]) w in
  match fd_obj w pidfd, it_fdtable it !! Bytes.to_int targetfd with
  | Some (KPidfd _), Some o => new_fd o w
  | _, _ => Ok (-1) w
  end.

(** The exit status that the parent of a process reads after [exit(status)]. *)
Definition WEXITSTATUS (status : Z) : Z := Z.land status 255.

Definition PATH_MAX : Z := 4096.

(** ** The tool *)

Section Tool.

(** The macro [DEBUG]: 0 when the tool is built with [NDEBUG], else 1. *)
Variable DEBUG : bool.

(** [strerror] of the C library. *)
Variable strerror : Z -> string.

(** *** Logging *)

Definition qual (level : Z) : string :=
  if level =? 0 then "erro"
  else if level =? 1 then "warn"
  else if level =? 2 then "info"
  else if level =? 3 then "debu"
  else "unkn".

(** [print_log(level, prefix, args, fmt, ...)], with [text] the expansion
    of [fmt] and its arguments. *)
Definition print_log (level : Z) (prefix : option string) (args : root_args)
    (text : string) : M unit :=
  if verbosity args <? level then ret tt
  else
    let f := if level =? 0 then fprintf_stderr else fprintf_stdout in
    match prefix with
    | None | Some EmptyString => f text
    | Some _ =>
        let* _ := f ("bpfcov: " +:+ qual level +:+ ": ") in
        f text
    end.

Definition TOOL_PREFIX : option string := Some "bpfcov: %s: ".

Definition log_erro (args : root_args) (text : string) : M unit :=
  if DEBUG then print_log 0 TOOL_PREFIX args text else ret tt.

Definition log_warn (args : root_args) (text : string) : M unit :=
  if DEBUG then print_log 1 TOOL_PREFIX args text else ret tt.

Definition log_info (args : root_args) (text : string) : M unit :=
  if DEBUG then print_log 2 TOOL_PREFIX args text else ret tt.

Definition log_debu (args : root_args) (text : string) : M unit :=
  if DEBUG then print_log 3 TOOL_PREFIX args text else ret tt.

(** [log_fata]: [log_erro] and then [exit(EXIT_FAILURE)]. *)
Definition log_fata {A} (args : root_args) (text : string) : M A :=
  let* _ := log_erro args text in
  exit EXIT_FAILURE.

(** [if (c) { m }] *)
Definition when (c : bool) (m : M unit) : M unit :=
  if c then m else ret tt.

(** [args->program[0]] as [printf] shows it. *)
Definition program0 (args : root_args) : string :=
  default "(null)" (program args !! 0%nat).

(** *** Reading a pinned map *)

Definition get_map_info (fd : Z) : M (Z * bpf_map_info) :=
  bpf_obj_get_info_by_fd fd.

(** The statements of [get_global_data] between the two allocations and
    the label [error_out]; the value is that of [err] when the label is
    reached, by a [goto] or by falling through. [info] is the structure
    that the callers pass by address. *)
Definition get_global_data_body (fd : Z) (info : bpf_map_info) (data k v : ptr) : M Z :=
  if bool_decide (k = NULL) || bool_decide (v = NULL) then ret (-1)
  else if 1 <? max_entries info then ret (-1)
  else
    let* err := bpf_map_get_next_key fd k in
    if negb (err =? 0) then ret err
    else
      let* err := bpf_map_lookup_elem fd k v in
      if negb (err =? 0) then ret err
      else
        let* _ := memcpy data v (value_size info) in
        ret err.

(** [get_global_data(fd, info, data)] *)
Definition get_global_data (fd : Z) (info : bpf_map_info) (data : ptr) : M Z :=
  let* k := malloc (key_size info) in
  let* v := malloc (value_size info) in
  let* err := get_global_data_body fd info data k v in
  (* error_out: *)
  let* _ := free k in
  let* _ := free v in
  let* _ := close fd in
  ret err.

(** *** [gen]: writing the profraw file *)

Definition magic : list byte := [x81; x72; x66; x6f; x72; x70; x6c; xff].

Definition gen (args : root_args) : M Z :=
  let* _ := log_info args ("generating '" +:+ output args +:+ "' for program '"
                           +:+ program0 args +:+ "'" +:+ CStr.NL) in
  (* Get maps info *)
  let* fd := bpf_obj_get (pin_at args 0) in
  let* r := get_map_info fd in
  let '(err, profc_info) := r in
  let* _ := when (negb (err =? 0))
    (log_fata args ("could not get info about pinned map '" +:+ pin_at args 0 +:+ "'" +:+ CStr.NL)) in
  let* fd := bpf_obj_get (pin_at args 1) in
  let* r := get_map_info fd in
  let '(err, profd_info) := r in
  let* _ := when (negb (err =? 0))
    (log_fata args ("could not get info about pinned map '" +:+ pin_at args 1 +:+ "'" +:+ CStr.NL)) in
  let* fd := bpf_obj_get (pin_at args 2) in
  let* r := get_map_info fd in
  let '(err, profn_info) := r in
  let* _ := when (negb (err =? 0))
    (log_fata args ("could not get info about pinned map '" +:+ pin_at args 2 +:+ "'" +:+ CStr.NL)) in
  let* fd := bpf_obj_get (pin_at args 3) in
  let* r := get_map_info fd in
  let '(err, covmap_info) := r in
  let* _ := when (negb (err =? 0))
    (log_fata args ("could not get info about pinned map '" +:+ pin_at args 3 +:+ "'" +:+ CStr.NL)) in
  (* Time to write binary data to the output file *)
  let* outfp := fopen_wb (output args) in
  match outfp with
  | None => log_fata args ("could not open the output file '" +:+ output args +:+ "'" +:+ CStr.NL)
  | Some outfp =>
      (* Write the header *)
      let* _ := log_info args ("about to write the profraw header..." +:+ CStr.NL) in
      (* Magic number *)
      let* _ := fwrite magic outfp in
      (* Version *)
      let* covmap_data := malloc (value_size covmap_info) in
      let* fd := bpf_obj_get (pin_at args 3) in
      let* err := get_global_data fd covmap_info covmap_data in
      let* _ := when (negb (err =? 0))
        (log_fata args ("could not get global data from map '" +:+ pin_at args 3 +:+ "'" +:+ CStr.NL)) in
      let* bs := load covmap_data 12 4 in
      let version := Bytes.le_decode bs in
      let version := Bytes.to_signed 64 (version + 1) in
      let* _ := fwrite (Bytes.le_encode 8 version) outfp in
      let* _ := free covmap_data in
      (* Data size *)
      let func_num := value_size profd_info / 48 in
      let* _ := fwrite (Bytes.le_encode 8 func_num) outfp in
      (* Padding before counters *)
      let pad_bef := 0 in
      let* _ := fwrite (Bytes.le_encode 8 pad_bef) outfp in
      (* Counters size *)
      let counters_num := value_size profc_info / 8 in
      let* _ := fwrite (Bytes.le_encode 8 counters_num) outfp in
      (* Padding after counters *)
      let pad_aft := 0 in
      let* _ := fwrite (Bytes.le_encode 8 pad_aft) outfp in
      (* Names size: sizeof(value_size) * 2 bytes from &profn_info.value_size *)
      let* _ := fwrite (take (4 * 2) (drop offsetof_value_size
                                        (bpf_map_info_bytes profn_info))) outfp in
      (* Counters delta (nulled) *)
      let counters_delta := 0 in
      let* _ := fwrite (Bytes.le_encode 8 counters_delta) outfp in
      (* Names delta (nulled) *)
      let names_delta := 0 in
      let* _ := fwrite (Bytes.le_encode 8 names_delta) outfp in
      (* IPVK last *)
      let ipvk_last := 1 in
      let* _ := fwrite (Bytes.le_encode 8 ipvk_last) outfp in
      (* Write the data part *)
      let* _ := log_info args ("about to write the data in the profraw..." +:+ CStr.NL) in
      let* profd_data := malloc (value_size profd_info) in
      let* fd := bpf_obj_get (pin_at args 1) in
      let* err := get_global_data fd profd_info profd_data in
      let* _ := when (negb (err =? 0))
        (log_fata args ("could not get global data from map '" +:+ pin_at args 1 +:+ "'" +:+ CStr.NL)) in
      let* _ := fwrite_block profd_data (value_size profd_info) outfp in
      (* Write the counters part *)
      let* _ := log_info args ("about to write the counters in the profraw.." +:+ CStr.NL) in
      let* profc_data := malloc (value_size profc_info) in
      let* fd := bpf_obj_get (pin_at args 0) in
      let* err := get_global_data fd profc_info profc_data in
      let* _ := when (negb (err =? 0))
        (log_fata args ("could not get global data from map '" +:+ pin_at args 0 +:+ "'" +:+ CStr.NL)) in
      let* _ := fwrite_block profc_data (value_size profc_info) outfp in
      (* Write the names part: nothing *)
      (* cleanup: *)
      let* _ := fclose outfp in
      ret 0
  end.

(** *** [root_parse], the case [ARGP_KEY_FINI], from the creation of the
    pinning paths on: [args->prog_root] is already set. *)

Definition set_pin (ps : list string) (args : root_args) : root_args :=
  {| output := output args; bpffs := bpffs args; cov_root := cov_root args;
     prog_root := prog_root args; pin := ps; verbosity := verbosity args;
     command := command args; program := program args |}.

(** The loop over the pinning paths, [p] ranging over [ps]. *)
Fixpoint check_pins (args : root_args) (is_run is_gen : bool) (ps : list nat)
    : M unit :=
  match ps with
  | [] => ret tt
  | p :: ps' =>
      let* r := access (pin_at args p) in
      let* _ :=
        if r =? 0 then
          (* Unpin them in case they do exist and the current subcommand is run *)
          when is_run
            (let* _ := log_warn args ("unpinning existing map '" +:+ pin_at args p
                                      +:+ "'" +:+ CStr.NL) in
             let* u := unlink (pin_at args p) in
             when (negb (u =? 0))
               (argp_error ("could not unpin map '" +:+ pin_at args p +:+ "'")))
        else
          (* Error out in case the do not exist and the current subcommand is gen *)
          when is_gen
            (argp_error ("could not access map '" +:+ pin_at args p +:+ "'"))
      in
      check_pins args is_run is_gen ps'
  end.

Definition root_parse_fini (args : root_args) : M root_args :=
  let is_gen := bool_decide (command args = Some cmd_gen) in
  let is_run := bool_decide (command args = Some cmd_run) in
  let prog_root_sane := prog_root args in
  (* Create pinning path for the counters map *)
  let pin_profc := prog_root_sane +:+ "/" +:+ "profc" in
  let* _ := when (PATH_MAX <=? CStr.strlen pin_profc)
              (argp_error "counters pinning path too long") in
  (* Create pinning path for the data map *)
  let pin_profd := prog_root_sane +:+ "/" +:+ "profd" in
  let* _ := when (PATH_MAX <=? CStr.strlen pin_profd)
              (argp_error "data pinning path too long") in
  (* Create pinning path for the names map *)
  let pin_profn := prog_root_sane +:+ "/" +:+ "profn" in
  let* _ := when (PATH_MAX <=? CStr.strlen pin_profn)
              (argp_error "names pinning path too long") in
  (* Create pinning path for the coverage mapping header *)
  let pin_covmap := prog_root_sane +:+ "/" +:+ "covmap" in
  let* _ := when (PATH_MAX <=? CStr.strlen pin_covmap)
              (argp_error "coverage mapping header path too long") in
  let args := set_pin [pin_profc; pin_profd; pin_profn; pin_covmap] args in
  (* Check whether the map pinning paths already exist *)
  let* _ := check_pins args is_run is_gen (seq 0 NUM_PINNED_MAPS) in
  ret args.

(** *** [run]: tracing the program and pinning its maps *)

(** The statements of [run] on the duplicated descriptor [curfd], from
    [bpf_obj_get_info_by_fd] to the end of the block that pins the
    maps. *)
Definition pin_by_name (args : root_args) (curfd : Z) : M unit :=
  let* r := bpf_obj_get_info_by_fd curfd in
  let '(err, map_info) := r in
  if (err =? 0) && (0 <? CStr.strlen (name map_info)) then
    let* _ := log_info args ("run: got info about map '"
                             +:+ name map_info +:+ "'" +:+ CStr.NL) in
    let map_name := name map_info in
    let suffix := name_suffix (name map_info) in
    let pin_path := "" in
    match get_pin_path args suffix pin_path with
    | None => undefined
    | Some (matched, pin_path) =>
        let* err :=
          if negb (matched =? 0) then
            let* _ := log_warn args ("run: pinning map '" +:+ map_name
                                     +:+ "' to '" +:+ pin_path +:+ "'"
                                     +:+ CStr.NL) in
            bpf_obj_pin curfd pin_path
          else ret err
        in
        when (negb (err =? 0))
          (log_fata args ("run: could not pin map" +:+ CStr.NL))
    end
  else ret tt.

(** The block of [run] under [if (is_map && result)]: the descriptor
    [result] of the traced process is duplicated into the tool and the map
    behind it is pinned by its name. A [continue] ends the block. *)
Definition pin_bpfcov_maps (args : root_args) (pid result : Z) (it : iteration)
    : M unit :=
  let* pidfd := pidfd_open pid it in
  if pidfd <? 0 then ret tt (* continue *)
  else
    let* curfd := pidfd_getfd pidfd result it in
    if curfd <? 0 then ret tt (* continue *)
    else pin_by_name args curfd.

(** One turn of the loop [for (;;)], entered with the value [is_map] of
    the variable of that name; the value returned is the one the variable
    has when the turn ends (also through [continue]). *)
Definition run_iteration (args : root_args) (pid : Z) (is_map : Z)
    (it : iteration) : M Z :=
  (* Enter next system call *)
  let* _ := when (negb (it_resume_entry it =? 0))
              (log_fata args ("run: " +:+ strerror (it_resume_entry it) +:+ CStr.NL)) in
  let* _ := when (negb (it_wait_entry it =? 0))
              (log_fata args ("run: " +:+ strerror (it_wait_entry it) +:+ CStr.NL)) in
  (* Gather system call arguments *)
  match it_regs_entry it with
  | inr e => log_fata args ("run: " +:+ strerror e +:+ CStr.NL)
  | inl regs =>
      (* Mark bpf(BPF_MAP_CREATE, ...) *)
      let sysc := Bytes.to_u32 (orig_rax regs) in
      let comm := Bytes.to_u32 (rdi regs) in
      let is_map := if (sysc =? SYS_bpf) && (comm =? BPF_MAP_CREATE) then 1 else is_map in
      (* Print a representation of the system call *)
      let* _ := log_debu args
        ("run: " +:+ pretty (Bytes.to_int sysc) +:+ "(" +:+ pretty (Bytes.to_int comm)
         +:+ ", " +:+ pretty (Bytes.to_long (rsi regs))
         +:+ ", " +:+ pretty (Bytes.to_long (rdx regs))
         +:+ ", " +:+ pretty (Bytes.to_long (r10 regs))
         +:+ ", " +:+ pretty (Bytes.to_long (r8 regs))
         +:+ ", " +:+ pretty (Bytes.to_long (r9 regs)) +:+ ")") in
      (* Run system call and stop on exit *)
      let* _ := when (negb (it_resume_exit it =? 0))
                  (log_fata args ("run: " +:+ strerror (it_resume_exit it) +:+ CStr.NL)) in
      let* _ := when (negb (it_wait_exit it =? 0))
                  (log_fata args ("run: " +:+ strerror (it_wait_exit it) +:+ CStr.NL)) in
      (* Get system call result *)
      match it_regs_exit it with
      | inr errno =>
          (* the probe failed: regs still holds the entry snapshot *)
          let* _ := print_log 3 None args (" = ?" +:+ CStr.NL) in
          if errno =? ESRCH
          then exit (Bytes.to_int (rdi regs)) (* _exit(2) or similar *)
          else log_fata args ("run: " +:+ strerror errno +:+ CStr.NL)
      | inl regs =>
          (* Print system call result *)
          let result := Bytes.to_long (rax regs) in
          let* _ := print_log 3 None args (" = " +:+ pretty result +:+ CStr.NL) in
          (* Pin the bpfcov maps *)
          if negb (is_map =? 0) && negb (result =? 0) then
            let* _ := pin_bpfcov_maps args pid result it in
            ret is_map
          else ret is_map
      end
  end.

(** The loop, over the turns that the traced program causes; when they
    are used up the tracer is still in its loop, with [is_map] as
    returned. *)
Fixpoint run_loop (args : root_args) (pid : Z) (is_map : Z)
    (evs : list iteration) : M Z :=
  match evs with
  | [] => ret is_map
  | it :: evs' =>
      let* is_map := run_iteration args pid is_map it in
      run_loop args pid is_map evs'
  end.

(** [run], in the parent of the [fork]. *)
Definition run (args : root_args) (tr : tracee) : M Z :=
  let* _ := log_info args ("run: executing program '" +:+ program0 args
                           +:+ "'" +:+ CStr.NL) in
  let pid := tr_fork tr in
  if pid =? -1 then log_fata args ("run: " +:+ strerror (tr_errno tr) +:+ CStr.NL)
  else
    (* Parent: waitpid and ptrace(PTRACE_SETOPTIONS), results unused *)
    let is_map := 0 in
    run_loop args pid is_map (tr_events tr).

(** *** [root]: the end of the parsing, then the command *)

Definition root (args : root_args) (tr : tracee) : M Z :=
  let* args := root_parse_fini args in
  match command args with
  | Some cmd_run => run args tr
  | Some cmd_gen => gen args
  | None => let* _ := fprintf_stderr ("TBD" +:+ CStr.NL) in ret 0
  end.

End Tool.

(** ** The command line: helpers and parsers *)

(** *** Helpers on strings *)

(** [str[i]], for [i] up to the length of [str]: a character, or the
    terminating NUL. *)
Definition char_at (str : string) (i : nat) : ascii :=
  default CStr.NUL (String.get i str).

(** The loop of [strip_trailing_char], entered with the value [last] of
    the variable of that name:
    [while (last > 0 && str[last] == c) str[last--] = '\0';]
    The NUL written at [last] cuts the string there. *)
Fixpoint strip_trailing_loop (str : string) (c : ascii) (last : nat) : string :=
  match last with
  | O => str
  | S last' =>
      if Ascii.eqb (char_at str last) c
      then strip_trailing_loop (String.substring 0 last str) c last'
      else str
  end.

(** [strip_trailing_char(str, c)]: the string in the buffer afterwards.
    [int last = strlen(str) - 1;] *)
Definition strip_trailing_char (str : string) (c : ascii) : string :=
  let last := Bytes.to_int (CStr.strlen str - 1) in
  strip_trailing_loop str c (Z.to_nat last).

(** [replace_with(str, what, with)]: the characters of the buffer, up to
    its terminator, afterwards. *)
Fixpoint replace_with (str : string) (what with_ : ascii) : string :=
  match str with
  | EmptyString => EmptyString
  | String ch str' =>
      String (if Ascii.eqb ch what then with_ else ch) (replace_with str' what with_)
  end.

(** [basename] of string.h under [_GNU_SOURCE]: what follows the last
    slash, the whole path when there is none. *)
Fixpoint basename_from (base path : string) : string :=
  match path with
  | EmptyString => base
  | String c path' =>
      if Ascii.eqb c "/" then basename_from path' path' else basename_from base path'
  end.

Definition basename (path : string) : string := basename_from path path.

(** *** [strtol(nptr, &end, 10)] *)

Definition LONG_MAX : Z := 2 ^ 63 - 1.
Definition LONG_MIN : Z := - 2 ^ 63.
Definition INT_MAX : Z := 2 ^ 31 - 1.

(** [isspace] in the C locale. *)
Definition isspace (c : ascii) : bool :=
  let n := CStr.code c in (n =? 32) || ((9 <=? n) && (n <=? 13)).

Definition digit_of (c : ascii) : option Z :=
  let n := CStr.code c in
  if (48 <=? n) && (n <=? 57) then Some (n - 48) else None.

Fixpoint skip_spaces (s : string) : nat * string :=
  match s with
  | EmptyString => (O, s)
  | String c s' =>
      if isspace c then let '(n, r) := skip_spaces s' in (S n, r) else (O, s)
  end.

(** The digits at the head of [s]: their value on top of [acc], and their
    number. *)
Fixpoint read_digits (s : string) (acc : Z) : Z * nat :=
  match s with
  | EmptyString => (acc, O)
  | String c s' =>
      match digit_of c with
      | Some d => let '(v, n) := read_digits s' (10 * acc + d) in (v, S n)
      | None => (acc, O)
      end
  end.

(** The converted value, clamped to the range of [long], and the offset
    of [end] from [nptr]: 0 when no digits are found. *)
Definition strtol (nptr : string) : Z * nat :=
  let '(blanks, s) := skip_spaces nptr in
  let '(negative, sign, s) :=
    match s with
    | String "-" s' => (true, 1%nat, s')
    | String "+" s' => (false, 1%nat, s')
    | _ => (false, O, s)
    end in
  let '(v, digits) := read_digits s 0 in
  match digits with
  | O => (0, O)
  | _ =>
      let v := if negative then - v else v in
      (Z.max LONG_MIN (Z.min LONG_MAX v), (blanks + sign + digits)%nat)
  end.

(** *** The keys of argp (argp.h) and of the options *)

Definition ARGP_KEY_ARG : Z := 0.
Definition ARGP_KEY_ARGS : Z := 0x1000006.
Definition ARGP_KEY_END : Z := 0x1000001.
Definition ARGP_KEY_NO_ARGS : Z := 0x1000002.
Definition ARGP_KEY_INIT : Z := 0x1000003.
Definition ARGP_KEY_FINI : Z := 0x1000007.
Definition ARGP_KEY_SUCCESS : Z := 0x1000004.
Definition ARGP_KEY_ERROR : Z := 0x1000005.

(** [ARGP_ERR_UNKNOWN] is [E2BIG]. *)
Definition ARGP_ERR_UNKNOWN : Z := 7.

(** [const char ROOT_BPFFS_OPT_KEY = 0x80;] with the signed [char] of
    x86-64. *)
Definition ROOT_BPFFS_OPT_KEY : Z := Bytes.to_signed 8 0x80.
Definition ROOT_BPFFS_OPT_LONG : string := "bpffs".
Definition ROOT_BPFFS_OPT_ARG : string := "path".
Definition ROOT_VERBOSITY_OPT_KEY : Z := CStr.code "v".
Definition ROOT_VERBOSITY_OPT_LONG : string := "verbose".
Definition ROOT_VERBOSITY_OPT_ARG : string := "level".
Definition GEN_OUTPUT_OPT_KEY : Z := CStr.code "o".
Definition GEN_OUTPUT_OPT_LONG : string := "output".
Definition GEN_OUTPUT_OPT_ARG : string := "path".

(** [argp_key(key, str)]: the name of a key of argp, else the string that
    it builds in [str], of the character [key] is converted to. *)
Definition argp_key (key : Z) : string :=
  let str :=
    let c := ascii_of_nat (Z.to_nat (key mod 256)) in
    if Ascii.eqb c CStr.NUL then EmptyString else String c EmptyString in
  if key =? ARGP_KEY_ARG then "ARGP_KEY_ARG"
  else if key =? ARGP_KEY_ARGS then "ARGP_KEY_ARGS"
  else if key =? ARGP_KEY_END then "ARGP_KEY_END"
  else if key =? ARGP_KEY_NO_ARGS then "ARGP_KEY_NO_ARGS"
  else if key =? ARGP_KEY_INIT then "ARGP_KEY_INIT"
  else if key =? ARGP_KEY_SUCCESS then "ARGP_KEY_SUCCESS"
  else if key =? ARGP_KEY_ERROR then "ARGP_KEY_ERROR"
  else if key =? ARGP_KEY_FINI then "ARGP_KEY_FINI"
  else str.

(** *** The file systems, as the parser meets them *)

Definition BPF_FS_MAGIC : Z := 0xcafe4a11.
Definition EEXIST : Z := 17.

(** What [statfs] and [mkdir] answer for a path: the type of the file
    system ([None] when [statfs] fails), and the [errno] of
    [mkdir(path, 0700)], 0 when the directory is created. *)
Record mounts := {
  statfs_type : string -> option Z;
  mkdir_errno : string -> Z
}.

(** [is_bpffs(bpffs_path)] *)
Definition is_bpffs (fs : mounts) (bpffs_path : string) : bool :=
  match statfs_type fs bpffs_path with
  | None => false
  | Some f_type => f_type =? BPF_FS_MAGIC
  end.

(** [access(path, F_OK)] on a path that may be that of a regular file. *)
Definition access_any (path : string) : M Z := fun w =>
  match w_files w !! path with
  | Some _ => Ok 0 w
  | None => access path w
  end.

(** *** The arguments while they are parsed *)

(** [struct root_args] before [ARGP_KEY_FINI] has filled it: a [char *]
    may be NULL, and [program] is NULL or the array that [calloc] has
    zeroed. *)
Record argp_input := {
  in_output : option string;
  in_bpffs : option string;
  in_cov_root : option string;
  in_prog_root : option string;
  in_pin : list (option string);
  in_verbosity : Z;
  in_command : option callback_t;
  in_program : option (list (option string))
}.

(** [struct root_args this = { .verbosity = 0 };] *)
Definition root_args_init : argp_input :=
  {| in_output := None; in_bpffs := None; in_cov_root := None; in_prog_root := None;
     in_pin := replicate NUM_PINNED_MAPS None; in_verbosity := 0;
     in_command := None; in_program := None |}.

Definition with_output (o : option string) (a : argp_input) : argp_input :=
  {| in_output := o; in_bpffs := in_bpffs a; in_cov_root := in_cov_root a;
     in_prog_root := in_prog_root a; in_pin := in_pin a;
     in_verbosity := in_verbosity a; in_command := in_command a;
     in_program := in_program a |}.

Definition with_bpffs (b : option string) (a : argp_input) : argp_input :=
  {| in_output := in_output a; in_bpffs := b; in_cov_root := in_cov_root a;
     in_prog_root := in_prog_root a; in_pin := in_pin a;
     in_verbosity := in_verbosity a; in_command := in_command a;
     in_program := in_program a |}.

Definition with_paths (cov prog : option string) (pins : list (option string))
    (a : argp_input) : argp_input :=
  {| in_output := in_output a; in_bpffs := in_bpffs a; in_cov_root := cov;
     in_prog_root := prog; in_pin := pins;
     in_verbosity := in_verbosity a; in_command := in_command a;
     in_program := in_program a |}.

Definition with_verbosity (v : Z) (a : argp_input) : argp_input :=
  {| in_output := in_output a; in_bpffs := in_bpffs a; in_cov_root := in_cov_root a;
     in_prog_root := in_prog_root a; in_pin := in_pin a;
     in_verbosity := v; in_command := in_command a;
     in_program := in_program a |}.

Definition with_command (c : option callback_t) (a : argp_input) : argp_input :=
  {| in_output := in_output a; in_bpffs := in_bpffs a; in_cov_root := in_cov_root a;
     in_prog_root := in_prog_root a; in_pin := in_pin a;
     in_verbosity := in_verbosity a; in_command := c;
     in_program := in_program a |}.

Definition with_program (p : option (list (option string))) (a : argp_input)
    : argp_input :=
  {| in_output := in_output a; in_bpffs := in_bpffs a; in_cov_root := in_cov_root a;
     in_prog_root := in_prog_root a; in_pin := in_pin a;
     in_verbosity := in_verbosity a; in_command := in_command a;
     in_program := p |}.

(** The strings of an array of pointers up to its first NULL. *)
Fixpoint until_null (arr : list (option string)) : list string :=
  match arr with
  | Some s :: arr' => s :: until_null arr'
  | _ => []
  end.

(** The arguments as the functions of the tool read them: a string for
    each [char *], the empty one for NULL. *)
Definition root_args_of (a : argp_input) : root_args :=
  {| output := default "" (in_output a); bpffs := default "" (in_bpffs a);
     cov_root := default "" (in_cov_root a); prog_root := default "" (in_prog_root a);
     pin := map (default "") (in_pin a);
     verbosity := in_verbosity a; command := in_command a;
     program := until_null (default [] (in_program a)) |}.

(** [args->program[i]], [i] an [unsigned]: undefined through a NULL
    [program] and outside of the array. *)
Definition program_at (a : argp_input) (i : Z) : M (option string) :=
  match in_program a with
  | None => undefined
  | Some arr =>
      match arr !! Z.to_nat i with
      | Some p => ret p
      | None => undefined
      end
  end.

(** [args->program[i] = arg;] *)
Definition set_program_at (a : argp_input) (i : Z) (arg : option string)
    : M argp_input :=
  match in_program a with
  | None => undefined
  | Some arr =>
      if bool_decide (Z.to_nat i < length arr)%nat
      then ret (with_program (Some (<[Z.to_nat i := arg]> arr)) a)
      else undefined
  end.

(** [calloc(n, sizeof(char * ))]: NULL when the allocator refuses, else an
    array of [n] NULL pointers. *)
Definition calloc_pointers (n : Z) : M (option (list (option string))) := fun w =>
  let ok := hd true (w_malloc w) in
  Ok (if ok then Some (replicate (Z.to_nat n) None) else None)
     (set_malloc (fun o => tl o) w).

(** [strdup(s)]: NULL, or a block that holds the string and its NUL. *)
Definition strdup (s : string) : M ptr :=
  let* p := malloc (CStr.strlen s + 1) in
  match p with
  | None => ret NULL
  | Some _ => let* _ := store p 0 (bytes_of_string s ++ [x00]) in ret p
  end.

Definition string_of_bytes (bs : list byte) : string :=
  string_of_list_ascii (map ascii_of_byte bs).

(** The bytes before the first NUL, if there is a NUL. *)
Fixpoint before_nul (bs : list byte) : option (list byte) :=
  match bs with
  | [] => None
  | b :: bs' =>
      if bool_decide (b = x00) then Some []
      else option_map (cons b) (before_nul bs')
  end.

(** The string that starts at the block [p]; reading it is undefined for
    NULL and when the block holds no NUL. *)
Definition string_at (p : ptr) : M string := fun w =>
  match block w p with
  | Some bs =>
      match before_nul bs with
      | Some s => Ok (string_of_bytes s) w
      | None => Undef
      end
  | None => Undef
  end.

(** [replace_with] on the string of a block. *)
Definition replace_with_at (p : ptr) (what with_ : ascii) : M unit :=
  let* str := string_at p in
  store p 0 (bytes_of_string (replace_with str what with_)).

(** [struct argp_state]: the fields that the parsers use. *)
Record argp_state := {
  input : argp_input;
  arg_num : Z
}.

Definition with_input (a : argp_input) (state : argp_state) : argp_state :=
  {| input := a; arg_num := arg_num state |}.

Section Parser.

Variable DEBUG : bool.

(** What [argp_state_help] prints for [ARGP_HELP_STD_HELP]. *)
Variable std_help : string.

(** [run_cmd] and [gen_cmd] hand the rest of the command line to
    [argp_parse], with the parsers [run_parse] and [gen_parse]. *)
Variable run_cmd gen_cmd : argp_state -> M argp_state.

Variable fs : mounts.

(** [argp_state_help(state, state->err_stream, ARGP_HELP_STD_HELP)]: the
    help, and [exit(0)]. *)
Definition argp_state_help {A} : M A :=
  let* _ := fprintf_stderr std_help in
  exit 0.

(** [arg ? arg : "(null)"] *)
Definition shown (arg : option string) : string := default "(null)" arg.

(** **** [root_parse], case by case *)

Definition root_parse_init (args : argp_input) : M argp_input :=
  let args := with_bpffs (Some "/sys/fs/bpf") args in
  let args := with_command None args in
  let* program := calloc_pointers PATH_MAX in
  ret (with_program program args).

Definition root_parse_bpffs (arg : option string) (args : argp_input)
    : M argp_input :=
  match arg with
  | None => undefined (* strlen(NULL) *)
  | Some arg =>
      if 0 <? CStr.strlen arg then
        let arg := strip_trailing_char arg "/" in
        ret (with_bpffs (Some arg) args)
      else
        argp_error ("option '--" +:+ ROOT_BPFFS_OPT_LONG +:+ "' requires a "
                    +:+ ROOT_BPFFS_OPT_ARG)
  end.

Definition root_parse_verbosity (arg : option string) (args : argp_input)
    : M argp_input :=
  match arg with
  | Some arg =>
      let '(num, end_) := strtol arg in
      let* _ := when (bool_decide (end_ = O))
                  (argp_error ("option '--" +:+ ROOT_VERBOSITY_OPT_LONG
                               +:+ "' requires a numeric " +:+ ROOT_VERBOSITY_OPT_ARG)) in
      let* _ := when ((num <? 0) || (3 <? num))
                  (argp_error ("option '--" +:+ ROOT_VERBOSITY_OPT_LONG
                               +:+ "' requires a " +:+ ROOT_VERBOSITY_OPT_ARG
                               +:+ " value in [0,3]")) in
      ret (with_verbosity (Bytes.to_int num) args)
  | None =>
      (* args->verbosity++ *)
      if in_verbosity args =? INT_MAX then undefined
      else ret (with_verbosity (in_verbosity args + 1) args)
  end.

(** The argument is never NULL for [ARGP_KEY_ARG]: [assert(arg)]. *)
Definition root_parse_arg (arg : string) (state : argp_state) : M argp_state :=
  let args := input state in
  if CStr.strncmp arg "run" 3 =? 0 then
    run_cmd (with_input (with_command (Some cmd_run) args) state)
  else if CStr.strncmp arg "gen" 3 =? 0 then
    gen_cmd (with_input (with_command (Some cmd_gen) args) state)
  else
    let* args := set_program_at args (arg_num state) (Some arg) in
    ret (with_input args state).

Definition root_parse_end (state : argp_state) : M unit :=
  let args := input state in
  let* _ := when (arg_num state =? 0) argp_state_help in
  let* program0 := program_at args 0 in
  when (bool_decide (program0 = None))
    (* This should never happen *)
    (argp_error "unexpected missing <program>").

(** The case [ARGP_KEY_FINI] up to the creation of the pinning paths:
    the coverage directory and the directory of the program. *)
Definition root_parse_fini_roots (args : argp_input) : M argp_input :=
  let is_run := bool_decide (in_command args = Some cmd_run) in
  match in_bpffs args with
  | None => undefined (* statfs(NULL) *)
  | Some bpffs =>
      (* Check the BPF filesystem *)
      let* _ := when (negb (is_bpffs fs bpffs))
                  (argp_error ("the BPF filesystem is not mounted at " +:+ bpffs)) in
      (* Create the coverage directory in the BPF filesystem *)
      let cov_root := bpffs +:+ "/" +:+ "cov" in
      let* _ := when (PATH_MAX <=? CStr.strlen cov_root)
                  (argp_error "coverage root path too long") in
      let* _ := when (is_run && negb (mkdir_errno fs cov_root =? 0)
                      && negb (mkdir_errno fs cov_root =? EEXIST))
                  (argp_error ("could not create '" +:+ cov_root +:+ "'")) in
      (* Obtain the program name and create a directory in the BPF filesystem for it *)
      let* program0 := program_at args 0 in
      match program0 with
      | None => undefined (* basename(NULL) *)
      | Some program0 =>
          let prog_name := basename program0 in
          let prog_root := cov_root +:+ "/" +:+ prog_name in
          let* _ := when (PATH_MAX <=? CStr.strlen prog_root)
                      (argp_error "program root path too long") in
          let* prog_root_sane := strdup prog_root in
          (* Sanitize because BPF FS doesn't accept dots *)
          let* _ := replace_with_at prog_root_sane "." "_" in
          let* sane := string_at prog_root_sane in
          let* _ := when (is_run && negb (mkdir_errno fs sane =? 0)
                          && negb (mkdir_errno fs sane =? EEXIST))
                      (argp_error ("could not create '" +:+ sane +:+ "'")) in
          let* _ := log_info DEBUG (root_args_of args)
                      ("root directory for map pins at '" +:+ sane +:+ "'" +:+ CStr.NL) in
          ret (with_paths (Some cov_root) (Some sane) (in_pin args) args)
      end
  end.

(** The whole case [ARGP_KEY_FINI]: the arguments as [run] and [gen] get
    them. *)
Definition root_parse_fini_case (args : argp_input) : M root_args :=
  let* args := root_parse_fini_roots args in
  root_parse_fini DEBUG (root_args_of args).

(** [root_parse(key, arg, state)]: the returned [error_t] and the state
    afterwards. *)
Definition root_parse (key : Z) (arg : option string) (state : argp_state)
    : M (Z * argp_state) :=
  let args := input state in
  let* _ := log_debu DEBUG (root_args_of args)
              ("parsing <root> " +:+ argp_key key +:+ " = '" +:+ shown arg
               +:+ "'" +:+ CStr.NL) in
  if key =? ARGP_KEY_INIT then
    let* args := root_parse_init args in ret (0, with_input args state)
  else if key =? ROOT_BPFFS_OPT_KEY then
    let* args := root_parse_bpffs arg args in ret (0, with_input args state)
  else if key =? ROOT_VERBOSITY_OPT_KEY then
    let* args := root_parse_verbosity arg args in ret (0, with_input args state)
  else if key =? ARGP_KEY_ARG then
    match arg with
    | None => undefined (* assert(arg) *)
    | Some arg => let* state := root_parse_arg arg state in ret (0, state)
    end
  else if key =? ARGP_KEY_END then
    let* _ := root_parse_end state in ret (0, state)
  else if key =? ARGP_KEY_FINI then
    let* roots := root_parse_fini_roots args in
    let* done := root_parse_fini DEBUG (root_args_of roots) in
    ret (0, with_input (with_paths (in_cov_root roots) (in_prog_root roots)
                          (map Some (pin done)) roots) state)
  else
    let* _ := log_debu DEBUG (root_args_of args)
                ("parsing <root> UNKNOWN = '" +:+ shown arg +:+ "'" +:+ CStr.NL) in
    ret (ARGP_ERR_UNKNOWN, state).

(** **** [run_parse] and [gen_parse]; [args] is [args->parent] *)

(** The end of the arguments of a command: the program is named and
    exists. *)
Definition parse_end_program (args : argp_input) : M string :=
  let* program0 := program_at args 0 in
  match program0 with
  | None => argp_error "missing program argument"
  | Some program0 =>
      let* r := access_any program0 in
      let* _ := when (negb (r =? 0))
                  (argp_error ("program '" +:+ program0 +:+ "' does not actually exist")) in
      ret program0
  end.

Definition run_parse (key : Z) (arg : option string) (state : argp_state)
    : M (Z * argp_state) :=
  let args := input state in
  let* _ := log_debu DEBUG (root_args_of args)
              ("parsing <run> " +:+ argp_key key +:+ " = '" +:+ shown arg
               +:+ "'" +:+ CStr.NL) in
  if key =? ARGP_KEY_ARG then
    let* args := set_program_at args (arg_num state) arg in
    ret (0, with_input args state)
  else if key =? ARGP_KEY_END then
    let* _ := parse_end_program args in
    ret (0, state)
  else
    let* _ := log_debu DEBUG (root_args_of args)
                ("parsing <run> UNKNOWN = '" +:+ shown arg +:+ "'" +:+ CStr.NL) in
    ret (ARGP_ERR_UNKNOWN, state).

Definition gen_parse (key : Z) (arg : option string) (state : argp_state)
    : M (Z * argp_state) :=
  let args := input state in
  let* _ := log_debu DEBUG (root_args_of args)
              ("parsing <gen> " +:+ argp_key key +:+ " = '" +:+ shown arg
               +:+ "'" +:+ CStr.NL) in
  if key =? GEN_OUTPUT_OPT_KEY then
    match arg with
    | None => undefined (* strlen(NULL) *)
    | Some arg =>
        if 0 <? CStr.strlen arg then
          ret (0, with_input (with_output (Some arg) args) state)
        else
          argp_error ("option '--" +:+ GEN_OUTPUT_OPT_LONG +:+ "' requires a "
                      +:+ GEN_OUTPUT_OPT_ARG)
    end
  else if key =? ARGP_KEY_ARG then
    let* args := set_program_at args (arg_num state) arg in
    ret (0, with_input args state)
  else if key =? ARGP_KEY_END then
    let* program0 := parse_end_program args in
    match in_output args with
    | Some _ => ret (0, state)
    | None =>
        let output_path := program0 +:+ "." +:+ "profraw" in
        let* _ := when (PATH_MAX <=? CStr.strlen output_path)
                    (argp_error "output path too long") in
        ret (0, with_input (with_output (Some output_path) args) state)
    end
  else
    let* _ := log_debu DEBUG (root_args_of args)
                ("parsing <gen> UNKNOWN = '" +:+ shown arg +:+ "'" +:+ CStr.NL) in
    ret (ARGP_ERR_UNKNOWN, state).

End Parser.

(** ** Vocabulary of the properties *)

(** What the logging macro of level [level] prints, in a build with the
    given [DEBUG], for the verbosity of [args]. *)
Definition log_lines (DEBUG : bool) (level : Z) (args : root_args) (text : string)
    : list string :=
  if DEBUG && negb (verbosity args <? level)
  then ["bpfcov: " +:+ qual level +:+ ": "; text]
  else [].

(** The content of the regular file at [path]. *)
Definition file_content (w : world) (path : string) : list byte :=
  default [] (w_files w !! path).

(** The map [m] holds one entry, of key [key] and value [val], it is
    declared for one entry, and the sizes of its metadata are those of the
    entry. *)
Definition holds_sole_value (m : kmap) (key val : list byte) : Prop :=
  km_entries m = [(key, Some val)] /\
  max_entries (km_info m) = 1 /\
  length key = Z.to_nat (key_size (km_info m)) /\
  length val = Z.to_nat (value_size (km_info m)).

(** Every coming call of [malloc] succeeds. *)
Definition malloc_succeeds (w : world) : Prop :=
  Forall (fun ok => ok = true) (w_malloc w).

(** The layout of a profraw file, with the eight bytes of its field for
    the size of the names as a parameter. *)
Definition profraw (version func_num counters_num : Z)
    (names_size data counters : list byte) : list byte :=
  magic ++ Bytes.le_encode 8 version ++
  Bytes.le_encode 8 func_num ++ Bytes.le_encode 8 0 ++
  Bytes.le_encode 8 counters_num ++ Bytes.le_encode 8 0 ++
  names_size ++
  Bytes.le_encode 8 0 ++ Bytes.le_encode 8 0 ++ Bytes.le_encode 8 1 ++
  data ++ counters.

(** The 4-byte integer at the bytes 12 to 15 of a value. *)
Definition stored_version (val : list byte) : Z :=
  Bytes.le_decode (take 4 (drop 12 val)).

(** A computation that, whenever it leaves a world, has only appended to
    the file at [path]. *)
Definition appends_only {A} (path : string) (m : M A) : Prop :=
  forall w w', world_of (m w) = Some w' ->
               exists s, file_content w' path = file_content w path ++ s.

(** A computation that never calls [exit]. *)
Definition never_exits {A} (m : M A) : Prop :=
  forall w st w1, m w <> Exited st w1.


(** The four pinning paths under a program root, as [root_parse] builds
    them. *)
Definition pin_paths (root : string) : list string :=
  [root +:+ "/" +:+ "profc"; root +:+ "/" +:+ "profd";
   root +:+ "/" +:+ "profn"; root +:+ "/" +:+ "covmap"].

(** The arguments once [root_parse] has set the four paths. *)
Definition with_pins (args : root_args) : root_args :=
  set_pin (pin_paths (prog_root args)) args.

(** The pins that are left when those at the indices [ps] are removed. *)
Definition unpinned (args : root_args) (ps : list nat) (pins : gmap string kmap)
    : gmap string kmap :=
  foldl (fun m p => delete (pin_at args p) m) pins ps.

(** The warnings of the loop over the pinning paths, in a [run]. *)
Fixpoint unpin_warnings (DEBUG : bool) (args : root_args) (pins : gmap string kmap)
    (ps : list nat) : list string :=
  match ps with
  | [] => []
  | p :: ps' =>
      (if pins !! pin_at args p is Some _
       then log_lines DEBUG 1 args
              ("unpinning existing map '" +:+ pin_at args p +:+ "'" +:+ CStr.NL)
       else []) ++
      unpin_warnings DEBUG args (delete (pin_at args p) pins) ps'
  end.

(** The signature of the creation of a map: the system call is [bpf] and
    its first argument is [BPF_MAP_CREATE]. *)
Definition is_map_create (regs : user_regs_struct) : bool :=
  (Bytes.to_u32 (orig_rax regs) =? SYS_bpf) && (Bytes.to_u32 (rdi regs) =? BPF_MAP_CREATE).

(** The calls of a turn succeed up to the probe at the exit stop, and the
    probe at the entry stop yields [regs]. *)
Definition reaches_exit_probe (it : iteration) (regs : user_regs_struct) : Prop :=
  it_resume_entry it = 0 /\ it_wait_entry it = 0 /\ it_regs_entry it = inl regs /\
  it_resume_exit it = 0 /\ it_wait_exit it = 0.

(** The line that [run] prints at level 3 for the system call entered. *)
Definition syscall_line (regs : user_regs_struct) : string :=
  "run: " +:+ pretty (Bytes.to_int (Bytes.to_u32 (orig_rax regs)))
  +:+ "(" +:+ pretty (Bytes.to_int (Bytes.to_u32 (rdi regs)))
  +:+ ", " +:+ pretty (Bytes.to_long (rsi regs))
  +:+ ", " +:+ pretty (Bytes.to_long (rdx regs))
  +:+ ", " +:+ pretty (Bytes.to_long (r10 regs))
  +:+ ", " +:+ pretty (Bytes.to_long (r8 regs))
  +:+ ", " +:+ pretty (Bytes.to_long (r9 regs)) +:+ ")".

(** What a turn that reaches the probe at the exit stop has printed on
    stdout by then, [res] being the text of the result. *)
Definition syscall_lines (DEBUG : bool) (args : root_args) (regs : user_regs_struct)
    (res : string) : list string :=
  log_lines DEBUG 3 args (syscall_line regs) ++
  (if verbosity args <? 3 then [] else [" = " +:+ res +:+ CStr.NL]).


(** The system calls by which a process ends itself, and the exit status
    that the traced program asks for when it enters one of them. *)
Definition SYS_exit : Z := 60.
Definition SYS_exit_group : Z := 231.

Definition requested_exit_status (regs : user_regs_struct) : option Z :=
  if (Bytes.to_u32 (orig_rax regs) =? SYS_exit) ||
     (Bytes.to_u32 (orig_rax regs) =? SYS_exit_group)
  then Some (WEXITSTATUS (Bytes.to_int (rdi regs)))
  else None.

(** The [errno] of the first call of a turn that fails before the probe
    at the exit stop, if one does. *)
Definition early_failure (it : iteration) : option Z :=
  if negb (it_resume_entry it =? 0) then Some (it_resume_entry it)
  else if negb (it_wait_entry it =? 0) then Some (it_wait_entry it)
  else match it_regs_entry it with
       | inr e => Some e
       | inl _ =>
           if negb (it_resume_exit it =? 0) then Some (it_resume_exit it)
           else if negb (it_wait_exit it =? 0) then Some (it_wait_exit it)
           else None
       end.

(** The value a computation returns, the status it exits with, and what
    it leaves in the bpffs and in the files. *)
Definition value_of {A} (r : result A) : option A :=
  match r with
  | Ok a _ => Some a
  | _ => None
  end.

Definition status_of {A} (r : result A) : option Z :=
  match r with
  | Exited st _ => Some st
  | _ => None
  end.

Definition pin_after {A} (r : result A) (path : string) : option kmap :=
  match world_of r with
  | Some w => w_pins w !! path
  | None => None
  end.


(** ** Sample inputs *)

(** A map of one entry, as the loader creates them for the sections of
    global data: an array of one element under the key 0. *)
Definition sample_map (nm : string) (val : list byte) : kmap :=
  {| km_info := {| map_type := 2; map_id := 1; key_size := 4;
                   value_size := Z.of_nat (length val); max_entries := 1;
                   map_flags := 0; name := nm |};
     km_entries := [(Bytes.le_encode 4 0, Some val)] |}.

(** A table of two elements. *)
Definition sample_table (nm : string) (val : list byte) : kmap :=
  {| km_info := {| map_type := 2; map_id := 2; key_size := 4;
                   value_size := Z.of_nat (length val); max_entries := 2;
                   map_flags := 0; name := nm |};
     km_entries := [(Bytes.le_encode 4 0, Some val); (Bytes.le_encode 4 1, Some val)] |}.

Definition sample_args (cmd : option callback_t) : root_args :=
  with_pins {| output := "prog.profraw"; bpffs := "/sys/fs/bpf";
               cov_root := "/sys/fs/bpf/cov"; prog_root := "/sys/fs/bpf/cov/prog";
               pin := []; verbosity := 0; command := cmd; program := ["./prog"] |}.

Definition sample_world (pins : list (string * kmap)) : world :=
  {| w_pins := list_to_map pins;
     w_writable := fun _ => true;
     w_fds := [Some KOther; Some KOther; Some KOther];
     w_heap := [];
     w_malloc := [];
     w_junk := xaa;
     w_files := ∅;
     w_stdout := [];
     w_stderr := [];
     w_trace := [] |}.

Definition sample_counters : list byte := replicate 8 x01.
Definition sample_data : list byte := replicate 48 x02.
Definition sample_names : list byte := replicate 5 x03.
Definition sample_header : list byte := replicate 12 x00 ++ [x03; x00; x00; x00].

(** The four maps of a program, pinned. *)
Definition sample_pins : list (string * kmap) :=
  [("/sys/fs/bpf/cov/prog/profc", sample_map "prog.profc" sample_counters);
   ("/sys/fs/bpf/cov/prog/profd", sample_map "prog.profd" sample_data);
   ("/sys/fs/bpf/cov/prog/profn", sample_map "prog.profn" sample_names);
   ("/sys/fs/bpf/cov/prog/covmap", sample_map "prog.covmap" sample_header)].

Definition sample_regs (nr arg0 ret : Z) : user_regs_struct :=
  {| orig_rax := nr; rdi := arg0; rsi := 0; rdx := 0; r10 := 0; r8 := 0; r9 := 0;
     rax := ret |}.

(** A system call [nr(arg0, ...)] that returns [ret], the traced process
    having the descriptors [fds] when it returns. At the entry stop [rax]
    holds [-ENOSYS]. *)
Definition sample_syscall (nr arg0 ret : Z) (fds : list (Z * kobj)) : iteration :=
  {| it_resume_entry := 0; it_wait_entry := 0;
     it_regs_entry := inl (sample_regs nr arg0 (2 ^ 64 - 38));
     it_resume_exit := 0; it_wait_exit := 0;
     it_regs_exit := inl (sample_regs nr arg0 ret);
     it_pidfd_open := true;
     it_fdtable := list_to_map fds |}.

(** [exit_group(status)]: the process is gone at the exit stop. *)
Definition sample_exit_group (status : Z) : iteration :=
  {| it_resume_entry := 0; it_wait_entry := 0;
     it_regs_entry := inl (sample_regs SYS_exit_group status (2 ^ 64 - 38));
     it_resume_exit := 0; it_wait_exit := 0;
     it_regs_exit := inr ESRCH;
     it_pidfd_open := false;
     it_fdtable := ∅ |}.

Definition BPF_OBJ_GET : Z := 7.

Definition sample_strerror (e : Z) : string := "errno " +:+ pretty e.

(** The four suffix tokens, in the order of the roles: counters, data,
    names, coverage header. *)
Definition role_tokens : list string := ["profc"; "profd"; "profn"; "covmap"].

(** The world in which [gen] leaves the sample. *)
Definition sample_generated : world :=
  default (sample_world [])
    (world_of (gen true (sample_args (Some cmd_gen)) (sample_world sample_pins))).


(** The creation of the counters map of the program, returning the
    descriptor 3, and then a [bpf(BPF_OBJ_GET)] that opens a map pinned by
    another program, returning the descriptor 4. *)
Definition sample_create_profc : iteration :=
  sample_syscall SYS_bpf BPF_MAP_CREATE 3
    [(3, KMap (sample_map "prog.profc" sample_counters))].

Definition sample_open_other : iteration :=
  sample_syscall SYS_bpf BPF_OBJ_GET 4
    [(3, KMap (sample_map "prog.profc" sample_counters));
     (4, KMap (sample_map "other.profd" sample_data))].

(** ** Vocabulary of the properties of the helpers and of the parsers *)

(** The string of [n] characters [c]. *)
Fixpoint repeated (c : ascii) (n : nat) : string :=
  match n with
  | O => EmptyString
  | S n' => String c (repeated c n')
  end.

(** The character [c] occurs in [s]. *)
Fixpoint occurs (c : ascii) (s : string) : bool :=
  match s with
  | EmptyString => false
  | String x s' => Ascii.eqb x c || occurs c s'
  end.

(** The last character of [s] is [c]. *)
Definition ends_with (s : string) (c : ascii) : Prop :=
  exists s', s = s' +:+ String c EmptyString.

(** The character of the decimal digit [d]. *)
Definition digit_char (d : Z) : ascii := ascii_of_nat (Z.to_nat (48 + d)).

(** The same key handled [n] times in a row. *)
Fixpoint times {A} (n : nat) (f : A -> M A) (a : A) : M A :=
  match n with
  | O => ret a
  | S n' => let* a := f a in times n' f a
  end.

(** A C string holds no NUL. *)
Definition c_string (s : string) : Prop := occurs CStr.NUL s = false.

(** [mkdir(path, 0700)] fails, and not because the directory is there
    already. *)
Definition mkdir_fails (fs : mounts) (path : string) : bool :=
  negb (mkdir_errno fs path =? 0) && negb (mkdir_errno fs path =? EEXIST).

(** The coverage directory of a bpffs, and the directory of the pins of a
    program before it is sanitized. *)
Definition cov_root_of (bpffs : string) : string := bpffs +:+ "/" +:+ "cov".

Definition prog_root_of (bpffs program0 : string) : string :=
  cov_root_of bpffs +:+ "/" +:+ basename program0.

(** The world once [strdup] has left the sanitized [path] in a fresh
    block. *)
Definition with_block (path : string) (w : world) : world :=
  set_heap (fun h => h ++ [Some (bytes_of_string path ++ [x00])])
    (set_malloc (fun o => tl o) w).

(** A bpffs at its usual place and at a path with a dot, and the
    directories in place. *)
Definition sample_mounts : mounts :=
  {| statfs_type := fun path =>
       if String.eqb path "/sys/fs/bpf" || String.eqb path "/mnt/my.bpf"
       then Some BPF_FS_MAGIC else None;
     mkdir_errno := fun _ => EEXIST |}.

(** The arguments after [bpfcov --bpffs <bpffs> <cmd> <program>]. *)
Definition sample_input (bpffs_path : string) (cmd : option callback_t)
    (program0 : string) : argp_input :=
  {| in_output := None; in_bpffs := Some bpffs_path; in_cov_root := None;
     in_prog_root := None; in_pin := replicate NUM_PINNED_MAPS None;
     in_verbosity := 0; in_command := cmd;
     in_program := Some (<[0%nat := Some program0]> (replicate (Z.to_nat PATH_MAX) None)) |}.

(** ** Vocabulary of the properties of [run] and of [gen] as a whole *)

(** A computation under a contract: every world that it leaves, when it
    returns and when it exits, is related by [R] to the world it starts
    from; every value it returns is in [Q]; every status it exits with is
    in [E]. *)
Definition ensures {A} (R : world -> world -> Prop) (Q : A -> Prop) (E : Z -> Prop)
    (m : M A) : Prop :=
  forall w, match m w with
            | Ok a w' => R w w' /\ Q a
            | Exited st w' => R w w' /\ E st
            | Undef => True
            end.

(** What [run] does to the world, at most: it adds pins at paths of the
    four roles that were free, it opens descriptors, and it appends to
    stdout, to stderr (in a build with [DEBUG] only) and to the calls. *)
Definition run_frame (DEBUG : bool) (args : root_args) (w w' : world) : Prop :=
  (forall path, w_pins w' !! path = w_pins w !! path \/
                (w_pins w !! path = None /\
                 exists i, (i < NUM_PINNED_MAPS)%nat /\ path = pin_at args i)) /\
  w_files w' = w_files w /\
  w_heap w' = w_heap w /\
  w_malloc w' = w_malloc w /\
  w_writable w' = w_writable w /\
  (forall fd o, fd_obj w fd = Some o -> fd_obj w' fd = Some o) /\
  w_stdout w `prefix_of` w_stdout w' /\
  w_stderr w `prefix_of` w_stderr w' /\
  (DEBUG = false -> w_stderr w' = w_stderr w) /\
  w_trace w `prefix_of` w_trace w'.

(** The statuses that [run] may exit with, for the turns [evs] of its
    loop: [EXIT_FAILURE], or the first argument of a system call whose
    exit stop could not be probed because the process was gone. *)
Definition run_status (evs : list iteration) (st : Z) : Prop :=
  st = EXIT_FAILURE \/
  exists it regs, it ∈ evs /\ it_regs_entry it = inl regs /\
                  it_regs_exit it = inr ESRCH /\ st = Bytes.to_int (rdi regs).

(** What [gen] does to the world, at most: it writes the file at [out],
    it opens and closes descriptors, it allocates and frees, and in a
    build with [DEBUG] it appends to stdout and to stderr. *)
Definition gen_frame (DEBUG : bool) (out : string) (w w' : world) : Prop :=
  w_pins w' = w_pins w /\
  w_writable w' = w_writable w /\
  w_trace w' = w_trace w /\
  (forall path, path <> out -> w_files w' !! path = w_files w !! path) /\
  w_stdout w `prefix_of` w_stdout w' /\
  w_stderr w `prefix_of` w_stderr w' /\
  (DEBUG = false -> w_stdout w' = w_stdout w /\ w_stderr w' = w_stderr w).

(** The field of index [k] of a profraw file, its fields being of 8
    bytes: the bytes, and the unsigned integer that they hold. *)
Definition field_bytes (k : nat) (out : list byte) : list byte :=
  take 8 (drop (8 * k) out).

Definition field (k : nat) (out : list byte) : Z :=
  Bytes.le_decode (field_bytes k out).

(** ** Properties of the pin registry *)

Lemma strncmp_prefix_zero (tok rest : string) :
  CStr.strncmp (tok +:+ rest) tok (String.length tok) = 0.
Proof.
  induction tok as [|c tok IH]; [reflexivity|].
  change (String c tok +:+ rest) with (String c (tok +:+ rest)).
  cbn [String.length CStr.strncmp].
  rewrite Ascii.eqb_refl. destruct (Ascii.eqb c CStr.NUL); [reflexivity|exact IH].
Qed.

Lemma code_inj (c1 c2 : ascii) : CStr.code c1 = CStr.code c2 -> c1 = c2.
Proof.
  unfold CStr.code. intros H. apply Nat2Z.inj in H.
  rewrite <- (ascii_nat_embedding c1), <- (ascii_nat_embedding c2). by rewrite H.
Qed.

Lemma code_pos (c : ascii) : c <> CStr.NUL -> 0 < CStr.code c.
Proof.
  intros Hc. destruct (decide (CStr.code c = 0)) as [H0|H0].
  - exfalso. apply Hc. apply code_inj. rewrite H0. reflexivity.
  - unfold CStr.code in *. lia.
Qed.

(** A string that compares equal to a NUL-free token over the length of
    the token begins with the token. *)
Lemma strncmp_zero_prefix (tok s : string) :
  CStr.NUL ∉ list_ascii_of_string tok ->
  CStr.strncmp s tok (String.length tok) = 0 ->
  exists rest, s = tok +:+ rest.
Proof.
  revert s. induction tok as [|c tok IH]; intros s Hnul H.
  - by exists s.
  - cbn [list_ascii_of_string] in Hnul.
    apply not_elem_of_cons in Hnul as [Hc Hnul].
    cbn [String.length CStr.strncmp] in H. destruct s as [|c1 s].
    + pose proof (code_pos c (not_eq_sym Hc)). lia.
    + destruct (Ascii.eqb_spec c1 c) as [->|Hne].
      * destruct (Ascii.eqb_spec c CStr.NUL) as [->|_]; [done|].
        destruct (IH s Hnul H) as [rest ->]. by exists rest.
      * exfalso. apply Hne, code_inj. lia.
Qed.

(** A suffix that begins with the token of role [i] resolves to the path
    of that role. *)
Lemma get_pin_path_begins (args : root_args) (i : nat) (tok rest p0 : string) :
  role_tokens !! i = Some tok ->
  get_pin_path args (Some (tok +:+ rest)) p0 = Some (1, pin_at args i).
Proof.
  intros Hi.
  destruct i as [|[|[|[|i]]]]; cbn in Hi; try discriminate;
    injection Hi as <-; reflexivity.
Qed.


(** ** Properties of the primitives *)

Tactic Notation "wsimpl" :=
  cbn [w_pins w_writable w_fds w_heap w_malloc w_junk w_files w_stdout w_stderr
       w_trace set_pins set_fds set_heap set_malloc set_files set_stdout
       set_stderr set_trace].
Tactic Notation "wsimpl" "in" hyp(H) :=
  cbn [w_pins w_writable w_fds w_heap w_malloc w_junk w_files w_stdout w_stderr
       w_trace set_pins set_fds set_heap set_malloc set_files set_stdout
       set_stderr set_trace] in H.

Lemma bind_eq {A B} (m : M A) (k : A -> M B) (w : world) :
  bind m k w = match m w with
               | Ok a w' => k a w'
               | Exited s w' => Exited s w'
               | Undef => Undef
               end.
Proof. reflexivity. Qed.

Lemma fd_obj_closed (t : list (option kobj)) (w : world) (fd : Z) :
  w_fds w = <[Z.to_nat fd := None]> t -> fd_obj w fd = None.
Proof.
  intros Ht. unfold fd_obj. rewrite Ht. destruct (fd <? 0); [done|].
  destruct (decide (Z.to_nat fd < length t)%nat) as [Hlt|Hge].
  - by rewrite list_lookup_insert_eq.
  - rewrite lookup_ge_None_2; [done|]. rewrite length_insert. lia.
Qed.

Lemma fd_obj_length (w : world) (fd : Z) (o : kobj) :
  fd_obj w fd = Some o -> (Z.to_nat fd < length (w_fds w))%nat.
Proof.
  unfold fd_obj. destruct (fd <? 0); [done|]. intros H.
  apply lookup_lt_is_Some. destruct (w_fds w !! Z.to_nat fd); [by eexists|done].
Qed.

(** *** Inversion of the heap primitives *)

Lemma malloc_eq (n : Z) (w : world) :
  malloc n w =
  if hd true (w_malloc w)
  then Ok (Some (length (w_heap w)))
          (set_heap (fun h => h ++ [Some (replicate (Z.to_nat n) (w_junk w))])
                    (set_malloc (fun o => tl o) w))
  else Ok NULL (set_malloc (fun o => tl o) w).
Proof. reflexivity. Qed.

Lemma free_inv (p : ptr) (w w2 : world) (u : unit) :
  free p w = Ok u w2 ->
  match p with
  | None => w2 = w
  | Some b => is_Some (block w p) /\ w2 = set_heap (fun h => <[b := None]> h) w
  end.
Proof.
  unfold free. destruct p as [b|]; [|by intros [= <-]].
  destruct (block w (Some b)) eqn:Hb; [|done]. intros [= <-]. by split; [eexists|].
Qed.

Lemma load_inv (p : ptr) (off n : nat) (w w2 : world) (bs : list byte) :
  load p off n w = Ok bs w2 ->
  w2 = w /\ exists old, block w p = Some old /\ (off + n <= length old)%nat /\
                       bs = take n (drop off old).
Proof.
  unfold load. destruct (block w p) as [old|] eqn:Hb; [|done].
  case_bool_decide; [|done]. intros [= <- <-]. split; [done|]. by exists old.
Qed.

Lemma store_inv (p : ptr) (off : nat) (bs : list byte) (w w2 : world) (u : unit) :
  store p off bs w = Ok u w2 ->
  exists b old, p = Some b /\ block w p = Some old /\
                (off + length bs <= length old)%nat /\
                w2 = set_heap (fun h =>
                       <[b := Some (take off old ++ bs ++ drop (off + length bs) old)]> h) w.
Proof.
  unfold store. destruct p as [b|]; [|done].
  destruct (block w (Some b)) as [old|] eqn:Hb; [|done].
  case_bool_decide; [|done]. intros [= <-]. by exists b, old.
Qed.

Lemma set_fds_id (w : world) : set_fds (fun _ => w_fds w) w = w.
Proof. by destruct w. Qed.

Lemma close_inv (fd : Z) (w w2 : world) (r : Z) :
  close fd w = Ok r w2 ->
  fd_obj w2 fd = None /\ exists t, w2 = set_fds (fun _ => t) w.
Proof.
  unfold close. destruct (fd_obj w fd) as [o|] eqn:Ho; intros [= <- <-].
  - split; [by eapply fd_obj_closed|]. by eexists.
  - split; [done|]. exists (w_fds w). by rewrite set_fds_id.
Qed.

(** A block that is live is within the heap. *)
Lemma block_lt (w : world) (b : nat) (bs : list byte) :
  block w (Some b) = Some bs -> (b < length (w_heap w))%nat.
Proof.
  unfold block. intros H. apply lookup_lt_is_Some.
  destruct (w_heap w !! b); [by eexists|done].
Qed.

(** Two worlds with the same components are the same world. *)
Lemma world_eq (a b : world) :
  w_pins a = w_pins b -> w_writable a = w_writable b -> w_fds a = w_fds b ->
  w_heap a = w_heap b -> w_malloc a = w_malloc b -> w_junk a = w_junk b ->
  w_files a = w_files b -> w_stdout a = w_stdout b -> w_stderr a = w_stderr b ->
  w_trace a = w_trace b -> a = b.
Proof. destruct a, b; cbn; intros; by subst. Qed.

Lemma set_heap_id (w : world) : set_heap (fun _ => w_heap w) w = w.
Proof. by destruct w. Qed.

Lemma bpf_map_get_next_key_inv (fd : Z) (k : ptr) (w w2 : world) (r : Z) :
  bpf_map_get_next_key fd k w = Ok r w2 ->
  (r = -1 /\ w2 = w /\
   forall m, fd_obj w fd = Some (KMap m) -> km_entries m = []) \/
  (r = 0 /\ exists m key val rest b old,
     fd_obj w fd = Some (KMap m) /\ km_entries m = (key, val) :: rest /\
     k = Some b /\ block w k = Some old /\ (length key <= length old)%nat /\
     w2 = set_heap (fun h => <[b := Some (key ++ drop (length key) old)]> h) w).
Proof.
  unfold bpf_map_get_next_key.
  destruct (fd_obj w fd) as [[m| | |]|] eqn:Hfd; try (intros [= <- <-]; by left).
  destruct (km_entries m) as [|[key val] rest] eqn:Hes.
  - intros [= <- <-]. left. repeat split. by intros ? [= <-].
  - rewrite bind_eq. destruct (store k 0 key w) as [u w1| |] eqn:Hst; try done.
    intros [= <- <-]. right. split; [done|].
    apply store_inv in Hst as (b & old & -> & Hb & Hlen & ->).
    by exists m, key, val, rest, b, old.
Qed.

Lemma bpf_map_lookup_elem_inv (fd : Z) (k v : ptr) (w w2 : world) (r : Z) :
  bpf_map_lookup_elem fd k v w = Ok r w2 ->
  (r = -1 /\ w2 = w) \/
  (r = 0 /\ exists m kb key val b old,
     fd_obj w fd = Some (KMap m) /\ block w k = Some kb /\
     key = take (Z.to_nat (key_size (km_info m))) kb /\
     find_entry key (km_entries m) = Some val /\
     v = Some b /\ block w v = Some old /\ (length val <= length old)%nat /\
     w2 = set_heap (fun h => <[b := Some (val ++ drop (length val) old)]> h) w).
Proof.
  unfold bpf_map_lookup_elem.
  destruct (fd_obj w fd) as [[m| | |]|] eqn:Hfd; try (intros [= <- <-]; by left).
  rewrite bind_eq.
  destruct (load k 0 (Z.to_nat (key_size (km_info m))) w) as [key w1| |] eqn:Hld; try done.
  apply load_inv in Hld as (-> & kb & Hkb & _ & ->). rewrite drop_0.
  destruct (find_entry _ (km_entries m)) as [val|] eqn:Hfind.
  - rewrite bind_eq. destruct (store v 0 val w) as [u w1| |] eqn:Hst; try done.
    intros [= <- <-]. right. split; [done|].
    apply store_inv in Hst as (b & old & -> & Hb & Hlen & ->).
    by exists m, kb, (take (Z.to_nat (key_size (km_info m))) kb), val, b, old.
  - intros [= <- <-]. by left.
Qed.

Lemma memcpy_inv (dst src : ptr) (n : Z) (w w2 : world) (u : unit) :
  memcpy dst src n w = Ok u w2 ->
  exists d old bs, dst = Some d /\ block w dst = Some old /\
    block w src = Some bs /\ (Z.to_nat n <= length bs)%nat /\
    (Z.to_nat n <= length old)%nat /\
    w2 = set_heap (fun h =>
           <[d := Some (take (Z.to_nat n) bs ++ drop (Z.to_nat n) old)]> h) w.
Proof.
  unfold memcpy. rewrite bind_eq.
  destruct (load src 0 (Z.to_nat n) w) as [bs w1| |] eqn:Hld; try done.
  apply load_inv in Hld as (-> & src_bs & Hsrc & Hn & ->). rewrite drop_0.
  intros Hst. apply store_inv in Hst as (d & old & -> & Hd & Hlen & ->).
  rewrite length_take_le in Hlen |- * by lia.
  exists d, old, src_bs. repeat split; try done; lia.
Qed.


Lemma fd_obj_set_heap (f : list (option (list byte)) -> list (option (list byte)))
    (w : world) (fd : Z) :
  fd_obj (set_heap f w) fd = fd_obj w fd.
Proof. reflexivity. Qed.

Lemma block_set_heap_eq (w : world) (b : nat) (x old : list byte) :
  block w (Some b) = Some old ->
  block (set_heap (fun h => <[b := Some x]> h) w) (Some b) = Some x.
Proof.
  intros Hb%block_lt. unfold block. wsimpl. by rewrite list_lookup_insert_eq.
Qed.

(** What the statements before [error_out] leave behind. *)
Lemma get_global_data_body_inv (fd : Z) (info : bpf_map_info) (data k v : ptr)
    (w1 w2 : world) (err : Z) :
  get_global_data_body fd info data k v w1 = Ok err w2 ->
  exists h2, w2 = set_heap (fun _ => h2) w1 /\ length h2 = length (w_heap w1) /\
    (err <> 0 ->
     forall n : nat, (forall b, k = Some b -> (n <= b)%nat) ->
                     (forall b, v = Some b -> (n <= b)%nat) ->
                     take n h2 = take n (w_heap w1)) /\
    (err = 0 ->
     k <> NULL /\ v <> NULL /\ max_entries info <= 1 /\
     exists m key val rest oldk found,
       fd_obj w1 fd = Some (KMap m) /\ km_entries m = (key, val) :: rest /\
       block w1 k = Some oldk /\
       find_entry (take (Z.to_nat (key_size (km_info m))) (key ++ drop (length key) oldk))
                  (km_entries m) = Some found).
Proof.
  unfold get_global_data_body.
  destruct (bool_decide (k = NULL) || bool_decide (v = NULL)) eqn:Hnull.
  { intros [= <- <-]. exists (w_heap w1). rewrite set_heap_id.
    repeat split; intros; done. }
  apply orb_false_elim in Hnull as [Hk%bool_decide_eq_false Hv%bool_decide_eq_false].
  destruct (1 <? max_entries info) eqn:Hmax.
  { intros [= <- <-]. exists (w_heap w1). rewrite set_heap_id.
    repeat split; intros; done. }
  apply Z.ltb_ge in Hmax.
  rewrite bind_eq.
  destruct (bpf_map_get_next_key fd k w1) as [r wa| |] eqn:Hnk; try done.
  apply bpf_map_get_next_key_inv in Hnk
    as [(-> & -> & _)|(-> & m & key & val & rest & b & oldk & Hfd & Hes & -> & Hb & Hlen & ->)].
  { cbn [Z.eqb negb]. intros [= <- <-]. exists (w_heap w1). rewrite set_heap_id.
    repeat split; intros; done. }
  cbn [Z.eqb negb]. rewrite bind_eq.
  destruct (bpf_map_lookup_elem _ _ _ _) as [r wb| |] eqn:Hlk; try done.
  apply bpf_map_lookup_elem_inv in Hlk
    as [(-> & ->)|(-> & m' & kb & key' & found & bv & oldv & Hfd' & Hkb & -> & Hfind & -> & Hbv & Hlenv & ->)].
  { cbn [Z.eqb negb]. intros [= <- <-]. eexists. split; [reflexivity|]. wsimpl.
    rewrite length_insert.
    split; [done|]. split; [|done]. intros _ n Hnk _.
    apply take_insert_ge. by apply Hnk. }
  cbn [Z.eqb negb]. rewrite bind_eq.
  destruct (memcpy _ _ _ _) as [u wc| |] eqn:Hcp; try done.
  apply memcpy_inv in Hcp as (d & oldd & bs & -> & _ & _ & _ & _ & ->).
  intros [= <- <-]. eexists. split; [reflexivity|]. wsimpl. rewrite !length_insert.
  split; [done|]. split; [intros H0; by contradict H0|]. intros _. repeat split; try done.
  rewrite fd_obj_set_heap, Hfd in Hfd'. injection Hfd' as <-.
  rewrite (block_set_heap_eq _ _ _ _ Hb) in Hkb. injection Hkb as <-.
  by exists m, key, val, rest, oldk, found.
Qed.


Lemma cleanup_inv (k v : ptr) (fd err r : Z) (w2 w' : world) :
  (let* _ := free k in let* _ := free v in let* _ := close fd in ret err) w2 = Ok r w' ->
  r = err /\ fd_obj w' fd = None /\
  exists t, w' = set_fds (fun _ => t)
                   (set_heap (fun _ => freed v (freed k (w_heap w2))) w2).
Proof.
  rewrite bind_eq. destruct (free k w2) as [u wa| |] eqn:Hk; try done.
  rewrite bind_eq. destruct (free v wa) as [u' wb| |] eqn:Hv; try done.
  rewrite bind_eq. destruct (close fd wb) as [c wc| |] eqn:Hc; try done.
  intros [= <- <-]. apply close_inv in Hc as (Hfd & t & ->).
  split; [done|]. split; [done|]. exists t. f_equal.
  apply free_inv in Hk, Hv.
  destruct k as [bk|], v as [bv|]; cbn [freed];
    repeat match goal with H : _ /\ _ |- _ => destruct H as [_ ->] end;
    subst; first [reflexivity | by rewrite set_heap_id].
Qed.

Lemma freed_length (p : ptr) (h : list (option (list byte))) :
  length (freed p h) = length h.
Proof. destruct p; cbn [freed]; [apply length_insert|done]. Qed.

Lemma take_freed (p : ptr) (h : list (option (list byte))) (n : nat) :
  (forall b, p = Some b -> (n <= b)%nat) -> take n (freed p h) = take n h.
Proof. destruct p as [b|]; cbn [freed]; [|done]. intros H. apply take_insert_ge. by apply H. Qed.

(** Past the blocks of the caller, no block is live once [k] and [v] are
    freed. *)
Lemma freed_tail (h : list (option (list byte))) (k v : ptr) (n0 b : nat) :
  (forall b, (n0 <= b < length h)%nat -> k = Some b \/ v = Some b) ->
  (n0 <= b)%nat ->
  mjoin (freed v (freed k h) !! b) = None.
Proof.
  intros Hcov Hb. destruct (decide (b < length h)%nat) as [Hlt|Hge].
  - destruct (decide (v = Some b)) as [->|Hv].
    + cbn [freed]. by rewrite list_lookup_insert_eq by (by rewrite freed_length).
    + destruct (Hcov b) as [-> | ->]; [lia| |done].
      destruct v as [bv|]; cbn [freed].
      * rewrite list_lookup_insert_ne by congruence.
        by rewrite list_lookup_insert_eq.
      * by rewrite list_lookup_insert_eq.
  - rewrite lookup_ge_None_2; [done|]. rewrite !freed_length. lia.
Qed.

Lemma malloc_eq_gen (n : Z) (w : world) :
  let ok := hd true (w_malloc w) in
  malloc n w =
  Ok (if ok then Some (length (w_heap w)) else NULL)
     (set_heap (fun h => h ++ if ok then [Some (replicate (Z.to_nat n) (w_junk w))] else [])
               (set_malloc (fun o => tl o) w)).
Proof.
  cbv zeta. rewrite malloc_eq. destruct (hd true (w_malloc w)); [done|].
  destruct w; unfold set_heap, set_malloc; wsimpl. by rewrite app_nil_r.
Qed.

(** ** Properties of [get_global_data] *)

(** C10. [get_global_data] releases what it holds on every path: when it
    returns, the descriptor is closed and no block that it allocated is
    live; and when it returns an error (an allocation failed, the declared
    number of entries exceeds one, the map has no first key, or the lookup
    of the element failed) the blocks of the caller, the output buffer
    among them, hold what they held. *)
Theorem get_global_data_releases (fd : Z) (info : bpf_map_info) (data : ptr)
    (w w' : world) (err : Z) :
  get_global_data fd info data w = Ok err w' ->
  fd_obj w' fd = None /\
  (forall b, (length (w_heap w) <= b)%nat -> block w' (Some b) = None) /\
  (err <> 0 ->
   block w' data = block w data /\
   take (length (w_heap w)) (w_heap w') = w_heap w) /\
  (hd true (w_malloc w) = false \/ hd true (tl (w_malloc w)) = false -> err <> 0) /\
  (1 < max_entries info -> err <> 0) /\
  (forall m, fd_obj w fd = Some (KMap m) -> km_entries m = [] -> err <> 0) /\
  (forall m key rest,
     fd_obj w fd = Some (KMap m) -> km_entries m = (key, None) :: rest ->
     length key = Z.to_nat (key_size (km_info m)) -> err <> 0).
Proof.
  intros Hrun. unfold get_global_data in Hrun.
  rewrite bind_eq, malloc_eq_gen in Hrun. rewrite bind_eq, malloc_eq_gen in Hrun.
  wsimpl in Hrun. rewrite bind_eq in Hrun.
  destruct (get_global_data_body _ _ _ _ _ _) as [e w2| |] eqn:Hbody; try done.
  apply cleanup_inv in Hrun as (-> & Hfd & t & Hw'). rename e into err.
  assert (Hheap : w_heap w' = freed (if hd true (tl (w_malloc w)) then Some (length (w_heap w ++ (if hd true (w_malloc w) then [Some (replicate (Z.to_nat (key_size info)) (w_junk w))] else []))) else NULL) (freed (if hd true (w_malloc w) then Some (length (w_heap w)) else NULL) (w_heap w2))) by (by rewrite Hw').
  clear Hw'.
  apply get_global_data_body_inv in Hbody as (h2 & -> & Hlen & Hne & Heq).
  wsimpl in Hheap. wsimpl in Hlen. wsimpl in Hne.
  set (n0 := length (w_heap w)) in *.
  assert (Hnew : forall b, (n0 <= b)%nat -> block w' (Some b) = None).
  { intros b Hb. unfold block. rewrite Hheap. apply freed_tail with (n0 := n0); [|done].
    intros b' Hb'. rewrite Hlen in Hb'.
    destruct (hd true (w_malloc w)), (hd true (tl (w_malloc w)));
      rewrite !length_app in *; cbn [length] in *; fold n0 in Hb' |- *.
    - destruct (decide (b' = n0)); [left|right]; f_equal; lia.
    - left; f_equal; lia.
    - right; f_equal; lia.
    - lia. }
  assert (Hkeep : err <> 0 -> take n0 (w_heap w') = w_heap w).
  { intros Herr. rewrite Hheap.
    assert (Hk : forall b, (if hd true (w_malloc w) then Some n0 else NULL) = Some b ->
                           (n0 <= b)%nat).
    { intros b. destruct (hd true (w_malloc w)); [|done]. intros [= <-]. lia. }
    assert (Hv : forall b,
               (if hd true (tl (w_malloc w))
                then Some (length (w_heap w ++
                             (if hd true (w_malloc w)
                              then [Some (replicate (Z.to_nat (key_size info)) (w_junk w))]
                              else [])))
                else NULL) = Some b -> (n0 <= b)%nat).
    { intros b. destruct (hd true (tl (w_malloc w))); [|done]. intros [= <-].
      rewrite length_app. fold n0. lia. }
    rewrite !take_freed by done. rewrite (Hne Herr n0 Hk Hv).
    rewrite <- app_assoc. apply take_app_length. }
  split; [done|]. split; [done|]. split.
  { intros Herr. split; [|by apply Hkeep].
    destruct data as [d|]; [|done].
    destruct (decide (d < n0)%nat) as [Hlt|Hge].
    - unfold block. by rewrite <- (lookup_take_lt (w_heap w') n0 d), Hkeep.
    - rewrite Hnew by lia. unfold block. rewrite lookup_ge_None_2; [done|]. fold n0. lia. }
  split.
  { intros Hfail Herr. destruct (Heq Herr) as (Hk & Hv & _).
    destruct Hfail as [Hf|Hf]; rewrite Hf in *; done. }
  split.
  { intros Hmax Herr. destruct (Heq Herr) as (_ & _ & Hle & _). lia. }
  split.
  { intros m Hm Hes Herr.
    destruct (Heq Herr) as (_ & _ & _ & m' & key & val & rest & oldk & found & Hm' & Hes' & _).
    rewrite !fd_obj_set_heap in Hm'. unfold fd_obj in Hm, Hm'. wsimpl in Hm'.
    rewrite Hm in Hm'. injection Hm' as <-. by rewrite Hes in Hes'. }
  intros m key rest Hm Hes Hkey Herr.
  destruct (Heq Herr) as (_ & _ & _ & m' & key' & val & rest' & oldk & found & Hm' & Hes' & _ & Hfind).
  rewrite !fd_obj_set_heap in Hm'. unfold fd_obj in Hm, Hm'. wsimpl in Hm'.
  rewrite Hm in Hm'. injection Hm' as <-. rewrite Hes in Hes'. injection Hes' as <- <- <-.
  rewrite take_app_length' in Hfind by done.
  rewrite Hes in Hfind. cbn [find_entry] in Hfind. by rewrite bool_decide_eq_true_2 in Hfind.
Qed.

(** Apart from the heap, the allocator and the descriptors,
    [get_global_data] leaves the world as it finds it. *)
Lemma get_global_data_frame (fd : Z) (info : bpf_map_info) (data : ptr)
    (w w' : world) (err : Z) :
  get_global_data fd info data w = Ok err w' ->
  exists t h o, w' = set_fds (fun _ => t) (set_heap (fun _ => h) (set_malloc (fun _ => o) w)).
Proof.
  intros Hrun. unfold get_global_data in Hrun.
  rewrite bind_eq, malloc_eq_gen in Hrun. rewrite bind_eq, malloc_eq_gen in Hrun.
  wsimpl in Hrun. rewrite bind_eq in Hrun.
  destruct (get_global_data_body _ _ _ _ _ _) as [e w2| |] eqn:Hbody; try done.
  apply cleanup_inv in Hrun as (-> & Hfd & t & ->).
  apply get_global_data_body_inv in Hbody as (h2 & -> & _).
  by eexists _, _, _.
Qed.

(** *** The heap primitives, run forwards *)

Lemma store_ok (b off : nat) (bs old : list byte) (w : world) :
  block w (Some b) = Some old ->
  (off + length bs <= length old)%nat ->
  store (Some b) off bs w =
  Ok tt (set_heap (fun h =>
           <[b := Some (take off old ++ bs ++ drop (off + length bs) old)]> h) w).
Proof.
  intros Hb Hlen. unfold store. rewrite Hb. by rewrite bool_decide_eq_true_2.
Qed.

Lemma load_ok (p : ptr) (off n : nat) (bs : list byte) (w : world) :
  block w p = Some bs ->
  (off + n <= length bs)%nat ->
  load p off n w = Ok (take n (drop off bs)) w.
Proof.
  intros Hb Hlen. unfold load. rewrite Hb. by rewrite bool_decide_eq_true_2.
Qed.

Lemma free_ok (b : nat) (bs : list byte) (w : world) :
  block w (Some b) = Some bs ->
  free (Some b) w = Ok tt (set_heap (fun h => <[b := None]> h) w).
Proof. intros Hb. unfold free. by rewrite Hb. Qed.

Lemma close_ok (fd : Z) (o : kobj) (w : world) :
  fd_obj w fd = Some o ->
  close fd w = Ok 0 (set_fds (fun t => <[Z.to_nat fd := None]> t) w).
Proof. intros Ho. unfold close. by rewrite Ho. Qed.

(** *** The successful path of [get_global_data] *)

Lemma get_global_data_ok (fd : Z) (m : kmap) (d : nat) (w : world)
    (key val old : list byte) (rest : list (list byte * option (list byte))) :
  fd_obj w fd = Some (KMap m) ->
  hd true (w_malloc w) = true ->
  hd true (tl (w_malloc w)) = true ->
  max_entries (km_info m) <= 1 ->
  km_entries m = (key, Some val) :: rest ->
  length key = Z.to_nat (key_size (km_info m)) ->
  length val = Z.to_nat (value_size (km_info m)) ->
  block w (Some d) = Some old ->
  length old = length val ->
  get_global_data fd (km_info m) (Some d) w =
  Ok 0 (set_fds (fun t => <[Z.to_nat fd := None]> t)
          (set_heap (fun h => <[d := Some val]> h ++ [None; None])
             (set_malloc (fun o => tl (tl o)) w))).
Proof.
  intros Hfd Hm1 Hm2 Hmax Hes Hkey Hval Hd Hold.
  pose proof (block_lt _ _ _ Hd) as Hdlt.
  unfold get_global_data.
  rewrite bind_eq, malloc_eq, Hm1. rewrite bind_eq, malloc_eq. wsimpl. rewrite Hm2.
  set (K0 := Some (replicate (Z.to_nat (key_size (km_info m))) (w_junk w))).
  set (V0 := Some (replicate (Z.to_nat (value_size (km_info m))) (w_junk w))).
  rewrite length_app. cbn [length].
  set (n0 := length (w_heap w)) in *.
  rewrite bind_eq. unfold get_global_data_body.
  cbn [bool_decide decide_rel orb].
  rewrite !bool_decide_eq_false_2 by done. cbn [orb].
  replace (1 <? max_entries (km_info m)) with false by (symmetry; by apply Z.ltb_ge).
  (* bpf_map_get_next_key *)
  rewrite bind_eq. unfold bpf_map_get_next_key at 1.
  rewrite !fd_obj_set_heap. change (fd_obj (set_malloc _ _) fd) with (fd_obj w fd).
  rewrite Hfd, Hes. rewrite bind_eq.
  rewrite (store_ok n0 0 key (replicate (Z.to_nat (key_size (km_info m))) (w_junk w))).
  2:{ unfold block. wsimpl. rewrite <- app_assoc. cbn [app].
      by rewrite list_lookup_middle. }
  2:{ rewrite length_replicate. lia. }
  cbn [ret Z.eqb negb]. rewrite drop_ge by (rewrite length_replicate; lia).
  cbn [take]. rewrite app_nil_r. cbn [app].
  (* bpf_map_lookup_elem *)
  rewrite bind_eq. unfold bpf_map_lookup_elem at 1.
  rewrite !fd_obj_set_heap. change (fd_obj (set_malloc _ _) fd) with (fd_obj w fd).
  rewrite Hfd. rewrite bind_eq.
  rewrite (load_ok _ 0 _ key).
  2:{ unfold block. wsimpl. rewrite list_lookup_insert_eq; [done|].
      rewrite !length_app. cbn [length]. lia. }
  2:{ lia. }
  rewrite drop_0, take_ge by lia. rewrite Hes. cbn [find_entry].
  rewrite bool_decide_eq_true_2 by done. rewrite bind_eq.
  rewrite (store_ok (n0 + 1) 0 val (replicate (Z.to_nat (value_size (km_info m))) (w_junk w))).
  2:{ unfold block. wsimpl. rewrite list_lookup_insert_ne by lia.
      by rewrite (list_lookup_middle _ [] _ (n0 + 1)) by (rewrite length_app; cbn; lia). }
  2:{ rewrite length_replicate. lia. }
  cbn [ret Z.eqb negb]. rewrite drop_ge by (rewrite length_replicate; lia).
  cbn [take]. rewrite app_nil_r. cbn [app].
  (* memcpy *)
  rewrite bind_eq. unfold memcpy. rewrite bind_eq.
  rewrite (load_ok _ 0 _ val).
  2:{ unfold block. wsimpl. rewrite list_lookup_insert_eq; [done|].
      rewrite length_insert, !length_app. cbn [length]. lia. }
  2:{ lia. }
  rewrite drop_0, take_ge by lia.
  rewrite (store_ok d 0 val old).
  2:{ unfold block. wsimpl. rewrite !list_lookup_insert_ne by lia.
      rewrite <- app_assoc, lookup_app_l by done. exact Hd. }
  2:{ lia. }
  rewrite drop_ge by lia. cbn [take]. rewrite app_nil_r. cbn [app ret].
  (* error_out *)
  rewrite bind_eq. rewrite (free_ok n0 key).
  2:{ unfold block. wsimpl. rewrite !list_lookup_insert_ne by lia.
      rewrite list_lookup_insert_eq; [done|]. rewrite !length_app. cbn [length]. lia. }
  rewrite bind_eq. rewrite (free_ok (n0 + 1) val).
  2:{ unfold block. wsimpl. rewrite !list_lookup_insert_ne by lia.
      rewrite list_lookup_insert_eq; [done|].
      rewrite length_insert, !length_app. cbn [length]. lia. }
  rewrite bind_eq. rewrite (close_ok fd (KMap m)) by done.
  cbn [ret]. f_equal. apply world_eq; wsimpl; try reflexivity.
  (* the heap *)
  rewrite <- app_assoc. cbn [app].
  rewrite (insert_app_r_alt _ _ n0) by lia. rewrite Nat.sub_diag. cbn [insert list_insert].
  rewrite (insert_app_r_alt _ _ (n0 + 1)) by lia.
  replace (n0 + 1 - n0)%nat with 1%nat by lia. cbn [insert list_insert].
  rewrite insert_app_l by done.
  rewrite (insert_app_r_alt _ _ n0) by (rewrite length_insert; lia).
  rewrite length_insert, Nat.sub_diag. cbn [insert list_insert].
  rewrite (insert_app_r_alt _ _ (n0 + 1)) by (rewrite length_insert; lia).
  rewrite length_insert. fold n0. replace (n0 + 1 - n0)%nat with 1%nat by lia.
  reflexivity.
Qed.

(** ** Logging *)

Section Logging.

Variable DEBUG : bool.

Lemma print_log_eq (level : Z) (args : root_args) (text : string) (w : world) :
  level <> 0 ->
  (if DEBUG then print_log level TOOL_PREFIX args text else ret tt) w =
  Ok tt (set_stdout (fun l => l ++ log_lines DEBUG level args text) w).
Proof.
  intros Hl. unfold log_lines, print_log, TOOL_PREFIX.
  destruct DEBUG; cbn [andb].
  - destruct (verbosity args <? level); cbn [negb].
    + unfold ret. f_equal. apply world_eq; wsimpl; try done. by rewrite app_nil_r.
    + replace (level =? 0) with false by (symmetry; by apply Z.eqb_neq).
      rewrite bind_eq. unfold fprintf_stdout. f_equal.
      apply world_eq; wsimpl; try done. by rewrite <- app_assoc.
  - unfold ret. f_equal. apply world_eq; wsimpl; try done. by rewrite app_nil_r.
Qed.

Lemma log_warn_eq (args : root_args) (text : string) (w : world) :
  log_warn DEBUG args text w =
  Ok tt (set_stdout (fun l => l ++ log_lines DEBUG 1 args text) w).
Proof. by apply print_log_eq. Qed.

Lemma log_info_eq (args : root_args) (text : string) (w : world) :
  log_info DEBUG args text w =
  Ok tt (set_stdout (fun l => l ++ log_lines DEBUG 2 args text) w).
Proof. by apply print_log_eq. Qed.

Lemma log_debu_eq (args : root_args) (text : string) (w : world) :
  log_debu DEBUG args text w =
  Ok tt (set_stdout (fun l => l ++ log_lines DEBUG 3 args text) w).
Proof. by apply print_log_eq. Qed.

Lemma log_erro_eq (args : root_args) (text : string) (w : world) :
  log_erro DEBUG args text w =
  Ok tt (set_stderr (fun l => l ++ log_lines DEBUG 0 args text) w).
Proof.
  unfold log_erro, log_lines, print_log, TOOL_PREFIX.
  destruct DEBUG; cbn [andb].
  - destruct (verbosity args <? 0); cbn [negb].
    + unfold ret. f_equal. apply world_eq; wsimpl; try done. by rewrite app_nil_r.
    + cbn [Z.eqb]. rewrite bind_eq. unfold fprintf_stderr. f_equal.
      apply world_eq; wsimpl; try done. by rewrite <- app_assoc.
  - unfold ret. f_equal. apply world_eq; wsimpl; try done. by rewrite app_nil_r.
Qed.

Lemma log_fata_eq {A} (args : root_args) (text : string) (w : world) :
  log_fata (A := A) DEBUG args text w =
  Exited EXIT_FAILURE (set_stderr (fun l => l ++ log_lines DEBUG 0 args text) w).
Proof. unfold log_fata. by rewrite bind_eq, log_erro_eq. Qed.

(** The untagged lines of the trace of system calls, shown at level 3. *)
Lemma print_log_plain_eq (args : root_args) (text : string) (w : world) :
  print_log 3 None args text w =
  Ok tt (set_stdout (fun l => l ++ if verbosity args <? 3 then [] else [text]) w).
Proof.
  unfold print_log. destruct (verbosity args <? 3).
  - unfold ret. f_equal. apply world_eq; wsimpl; try done. by rewrite app_nil_r.
  - reflexivity.
Qed.

End Logging.

(** ** Descriptors and streams *)

Lemma fd_install_lookup (o : kobj) (tbl : list (option kobj)) :
  mjoin (fd_install o tbl !! first_free tbl) = Some o.
Proof. induction tbl as [|[x|] tbl IH]; cbn; done. Qed.

Lemma fd_obj_install (o : kobj) (w : world) :
  fd_obj (set_fds (fd_install o) w) (Z.of_nat (first_free (w_fds w))) = Some o.
Proof.
  unfold fd_obj. wsimpl. destruct (Z.ltb_spec (Z.of_nat (first_free (w_fds w))) 0); [lia|].
  rewrite Nat2Z.id. apply fd_install_lookup.
Qed.

Lemma bind_ret {A B} (a : A) (k : A -> M B) (w : world) : bind (ret a) k w = k a w.
Proof. reflexivity. Qed.

Lemma bind_when_false {B} (m : M unit) (k : unit -> M B) (w : world) :
  bind (when false m) k w = k tt w.
Proof. reflexivity. Qed.

Lemma bind_when_true {B} (m : M unit) (k : unit -> M B) (w : world) :
  bind (when true m) k w = bind m k w.
Proof. reflexivity. Qed.

(** Opening a pinned map and asking for its metadata. *)
Lemma open_info_some {A} (path : string) (m : kmap) (k : Z * bpf_map_info -> M A)
    (w : world) :
  w_pins w !! path = Some m ->
  (let* fd := bpf_obj_get path in let* r := get_map_info fd in k r) w =
  k (0, km_info m) (set_fds (fd_install (KMap m)) w).
Proof.
  intros H. rewrite bind_eq. unfold bpf_obj_get. rewrite H. unfold new_fd.
  rewrite bind_eq. unfold get_map_info, bpf_obj_get_info_by_fd.
  by rewrite fd_obj_install.
Qed.

Lemma open_info_none {A} (path : string) (k : Z * bpf_map_info -> M A) (w : world) :
  w_pins w !! path = None ->
  (let* fd := bpf_obj_get path in let* r := get_map_info fd in k r) w =
  k (-1, bpf_map_info_zero) w.
Proof. intros H. rewrite bind_eq. unfold bpf_obj_get. by rewrite H. Qed.

Lemma fopen_wb_ok (path : string) (w : world) :
  w_writable w path = true ->
  fopen_wb path w =
  Ok (Some {| f_fd := Z.of_nat (first_free (w_fds w)); f_path := path |})
     (set_fds (fd_install (KFile path)) (set_files (fun fs => <[path := []]> fs) w)).
Proof. intros H. unfold fopen_wb. by rewrite H. Qed.

(** A write to a stream appends to the content of its file. *)
Lemma fwrite_eq (c bs : list byte) (fp : FILE) (w : world) :
  w_files w !! f_path fp = Some c ->
  fwrite bs fp w = Ok tt (set_files (fun fs => <[f_path fp := c ++ bs]> fs) w).
Proof. intros H. unfold fwrite. f_equal. apply world_eq; wsimpl; try done. by rewrite H. Qed.

(** Allocating the buffer of a map's value and fetching the value into
    it, when the map at [path] holds a sole value. *)
Lemma alloc_fetch_ok {A} (path : string) (m : kmap) (key val : list byte)
    (k : ptr -> Z -> M A) (w : world) :
  w_pins w !! path = Some m ->
  holds_sole_value m key val ->
  hd true (w_malloc w) = true ->
  hd true (tl (w_malloc w)) = true ->
  hd true (tl (tl (w_malloc w))) = true ->
  (let* data := malloc (value_size (km_info m)) in
   let* fd := bpf_obj_get path in
   let* err := get_global_data fd (km_info m) data in
   k data err) w =
  k (Some (length (w_heap w))) 0
    (set_fds (fun t => <[first_free t := None]> (fd_install (KMap m) t))
       (set_heap (fun h => h ++ [Some val; None; None])
          (set_malloc (fun o => tl (tl (tl o))) w))).
Proof.
  intros Hp (Hes & Hmax & Hkey & Hval) Hm1 Hm2 Hm3.
  rewrite bind_eq, malloc_eq, Hm1.
  rewrite bind_eq. unfold bpf_obj_get at 1. wsimpl. rewrite Hp. unfold new_fd.
  rewrite bind_eq.
  erewrite (get_global_data_ok _ m (length (w_heap w)) _ key val).
  - f_equal. apply world_eq; wsimpl; try reflexivity.
    + by rewrite Nat2Z.id.
    + rewrite insert_app_r_alt by lia. by rewrite Nat.sub_diag, <- app_assoc.
  - apply fd_obj_install.
  - done.
  - done.
  - lia.
  - done.
  - done.
  - done.
  - unfold block. wsimpl. by rewrite list_lookup_middle.
  - rewrite length_replicate. lia.
Qed.

(** ** Byte sequences *)

Lemma le_encode_length (n : nat) (z : Z) : length (Bytes.le_encode n z) = n.
Proof. revert z. induction n as [|n IH]; intros z; cbn; [done|]. by rewrite IH. Qed.

Lemma Z_of_byte_bound (b : byte) : 0 <= Bytes.Z_of_byte b < 256.
Proof. unfold Bytes.Z_of_byte. pose proof (Byte.to_N_bounded b). lia. Qed.

Lemma le_decode_bound (bs : list byte) :
  0 <= Bytes.le_decode bs < 256 ^ Z.of_nat (length bs).
Proof.
  induction bs as [|b bs IH]; cbn [Bytes.le_decode length]; [lia|].
  pose proof (Z_of_byte_bound b). rewrite Nat2Z.inj_succ, Z.pow_succ_r by lia. lia.
Qed.

(** The eight bytes that [gen] writes from the address of
    [profn_info.value_size]. *)
Lemma names_size_bytes (info : bpf_map_info) :
  take (4 * 2) (drop offsetof_value_size (bpf_map_info_bytes info)) =
  Bytes.le_encode 4 (value_size info) ++ Bytes.le_encode 4 (max_entries info).
Proof. reflexivity. Qed.

Lemma Forall_hd_true (l : list bool) : Forall (fun ok => ok = true) l -> hd true l = true.
Proof. by intros [|? ? -> ?]. Qed.

Lemma Forall_tl {A} (P : A -> Prop) (l : list A) : Forall P l -> Forall P (tl l).
Proof. by intros [|]. Qed.

Lemma close_eq (fd : Z) (w : world) :
  close fd w =
  Ok (if fd_obj w fd is Some _ then 0 else -1)
     (set_fds (fun t => if fd_obj w fd is Some _ then <[Z.to_nat fd := None]> t else t) w).
Proof.
  unfold close. destruct (fd_obj w fd); [done|]. f_equal. by apply world_eq.
Qed.

(** Writing a block that holds [val] appends [val] to the file. *)
Lemma fwrite_block_eq (p : ptr) (size : Z) (c val : list byte) (fp : FILE) (w : world) :
  block w p = Some val ->
  length val = Z.to_nat size ->
  w_files w !! f_path fp = Some c ->
  fwrite_block p size fp w =
  Ok tt (set_files (fun fs => <[f_path fp := c ++ val]> fs) w).
Proof.
  intros Hb Hlen Hc. unfold fwrite_block. destruct (size =? 0) eqn:Hz.
  - apply Z.eqb_eq in Hz. subst size. destruct val; [|done].
    unfold ret. f_equal. apply world_eq; wsimpl; try done.
    by rewrite app_nil_r, insert_id.
  - rewrite bind_eq, (load_ok _ _ _ val) by (done || lia).
    rewrite drop_0, take_ge by lia. by apply fwrite_eq.
Qed.

Lemma to_signed_small (z : Z) : 0 <= z < 2 ^ 63 -> Bytes.to_signed 64 z = z.
Proof.
  intros Hz. unfold Bytes.to_signed. rewrite Z.mod_small by lia.
  change (64 - 1) with 63. destruct (Z.ltb_spec z (2 ^ 63)); lia.
Qed.

Lemma stored_version_bound (val : list byte) : 0 <= stored_version val < 2 ^ 32.
Proof.
  unfold stored_version. pose proof (le_decode_bound (take 4 (drop 12 val))) as H.
  assert (length (take 4 (drop 12 val)) <= 4)%nat by (rewrite length_take; lia).
  assert (256 ^ Z.of_nat (length (take 4 (drop 12 val))) <= 256 ^ 4)
    by (apply Z.pow_le_mono_r; lia).
  lia.
Qed.

Ltac do_fwrite :=
  rewrite bind_eq; erewrite fwrite_eq by (wsimpl; apply lookup_insert_eq);
  cbv beta iota.

(** ** Computations that only append to the output *)

Create HintDb appends discriminated.

Lemma never_exits_ret {A} (a : A) : never_exits (ret a).
Proof. by intros w st w1. Qed.

Lemma never_exits_undefined {A} : never_exits (undefined (A := A)).
Proof. by intros w st w1. Qed.

Lemma never_exits_bind {A B} (m : M A) (k : A -> M B) :
  never_exits m -> (forall a, never_exits (k a)) -> never_exits (bind m k).
Proof.
  intros Hm Hk w st w1. rewrite bind_eq.
  destruct (m w) as [a wa|st' wa|] eqn:Hmw; [apply Hk|by apply Hm in Hmw|done].
Qed.

Lemma never_exits_load (p : ptr) (off n : nat) : never_exits (load p off n).
Proof. intros w st w1. unfold load. by repeat case_match. Qed.

Lemma never_exits_store (p : ptr) (off : nat) (bs : list byte) :
  never_exits (store p off bs).
Proof. intros w st w1. unfold store. by repeat case_match. Qed.

Lemma never_exits_malloc (n : Z) : never_exits (malloc n).
Proof. intros w st w1. rewrite malloc_eq. by case_match. Qed.

Lemma never_exits_free (p : ptr) : never_exits (free p).
Proof. intros w st w1. unfold free. by repeat case_match. Qed.

Lemma never_exits_close (fd : Z) : never_exits (close fd).
Proof. intros w st w1. by rewrite close_eq. Qed.

Lemma never_exits_memcpy (dst src : ptr) (n : Z) : never_exits (memcpy dst src n).
Proof.
  apply never_exits_bind; [apply never_exits_load|]. intros. apply never_exits_store.
Qed.

Lemma never_exits_next_key (fd : Z) (k : ptr) : never_exits (bpf_map_get_next_key fd k).
Proof.
  intros w st w1. unfold bpf_map_get_next_key.
  destruct (fd_obj w fd) as [[m| | |]|]; try done.
  destruct (km_entries m) as [|[key val] rest]; [done|].
  apply never_exits_bind; [apply never_exits_store|]. intros. apply never_exits_ret.
Qed.

Lemma never_exits_lookup (fd : Z) (k v : ptr) : never_exits (bpf_map_lookup_elem fd k v).
Proof.
  intros w st w1. unfold bpf_map_lookup_elem.
  destruct (fd_obj w fd) as [[m| | |]|]; try done.
  apply never_exits_bind; [apply never_exits_load|]. intros key.
  destruct (find_entry key (km_entries m)); [|apply never_exits_ret].
  apply never_exits_bind; [apply never_exits_store|]. intros. apply never_exits_ret.
Qed.

Lemma never_exits_get_global_data (fd : Z) (info : bpf_map_info) (data : ptr) :
  never_exits (get_global_data fd info data).
Proof.
  unfold get_global_data.
  apply never_exits_bind; [apply never_exits_malloc|]. intros k.
  apply never_exits_bind; [apply never_exits_malloc|]. intros v.
  apply never_exits_bind.
  - unfold get_global_data_body.
    destruct (_ || _); [apply never_exits_ret|].
    destruct (1 <? _); [apply never_exits_ret|].
    apply never_exits_bind; [apply never_exits_next_key|]. intros e1.
    destruct (negb _); [apply never_exits_ret|].
    apply never_exits_bind; [apply never_exits_lookup|]. intros e2.
    destruct (negb _); [apply never_exits_ret|].
    apply never_exits_bind; [apply never_exits_memcpy|]. intros. apply never_exits_ret.
  - intros err.
    apply never_exits_bind; [apply never_exits_free|]. intros _.
    apply never_exits_bind; [apply never_exits_free|]. intros _.
    apply never_exits_bind; [apply never_exits_close|]. intros. apply never_exits_ret.
Qed.

Lemma appends_same {A} (path : string) (m : M A) :
  never_exits m ->
  (forall w a w', m w = Ok a w' -> w_files w' = w_files w) ->
  appends_only path m.
Proof.
  intros Hne H w w' Hw. exists []. rewrite app_nil_r.
  destruct (m w) as [a w1|st w1|] eqn:Hmw; [|by apply Hne in Hmw|done].
  injection Hw as <-. unfold file_content. by rewrite (H w a w1 Hmw).
Qed.

Lemma appends_ret {A} (path : string) (a : A) : appends_only path (ret a).
Proof. apply appends_same; [apply never_exits_ret|]. by intros w ? w' [= <- <-]. Qed.

Lemma appends_bind {A B} (path : string) (m : M A) (k : A -> M B) :
  appends_only path m -> (forall a, appends_only path (k a)) ->
  appends_only path (bind m k).
Proof.
  intros Hm Hk w w' Hw. rewrite bind_eq in Hw.
  destruct (m w) as [a w1|st w1|] eqn:Hmw; try done.
  - destruct (Hm w w1) as [s1 Hs1]; [by rewrite Hmw|].
    destruct (Hk a w1 w' Hw) as [s2 Hs2].
    exists (s1 ++ s2). by rewrite Hs2, Hs1, app_assoc.
  - injection Hw as <-. apply (Hm w w1). by rewrite Hmw.
Qed.

Lemma appends_fwrite (path : string) (bs : list byte) (fp : FILE) :
  appends_only path (fwrite bs fp).
Proof.
  intros w w' [= <-]. unfold file_content. wsimpl.
  destruct (decide (f_path fp = path)) as [<-|Hne].
  - exists bs. by rewrite lookup_insert_eq.
  - exists []. by rewrite lookup_insert_ne, app_nil_r.
Qed.

Lemma appends_load (path : string) (p : ptr) (off n : nat) :
  appends_only path (load p off n).
Proof.
  apply appends_same; [apply never_exits_load|].
  by intros w bs w' [-> _]%load_inv.
Qed.

Lemma appends_fwrite_block (path : string) (p : ptr) (size : Z) (fp : FILE) :
  appends_only path (fwrite_block p size fp).
Proof.
  unfold fwrite_block. destruct (size =? 0); [apply appends_ret|].
  apply appends_bind; [apply appends_load|]. intros bs. apply appends_fwrite.
Qed.

Lemma appends_malloc (path : string) (n : Z) : appends_only path (malloc n).
Proof.
  apply appends_same; [apply never_exits_malloc|]. intros w a w'. rewrite malloc_eq.
  by destruct (hd true (w_malloc w)); intros [= <- <-].
Qed.

Lemma appends_free (path : string) (p : ptr) : appends_only path (free p).
Proof.
  apply appends_same; [apply never_exits_free|]. intros w a w' Hf.
  apply free_inv in Hf. destruct p; [by destruct Hf as [_ ->]|by subst].
Qed.

Lemma appends_close (path : string) (fd : Z) : appends_only path (close fd).
Proof.
  apply appends_same; [apply never_exits_close|].
  intros w a w'. rewrite close_eq. by intros [= <- <-].
Qed.

Lemma appends_fclose (path : string) (fp : FILE) : appends_only path (fclose fp).
Proof. apply appends_close. Qed.

Lemma appends_bpf_obj_get (path p : string) : appends_only path (bpf_obj_get p).
Proof.
  intros w w'. unfold bpf_obj_get, new_fd.
  destruct (w_pins w !! p); intros [= <-]; exists []; by rewrite app_nil_r.
Qed.

Lemma appends_get_global_data (path : string) (fd : Z) (info : bpf_map_info)
    (data : ptr) :
  appends_only path (get_global_data fd info data).
Proof.
  apply appends_same; [apply never_exits_get_global_data|].
  by intros w err w' (t & h & o & ->)%get_global_data_frame.
Qed.

Lemma appends_exit {A} (path : string) (st : Z) : appends_only path (exit (A := A) st).
Proof. intros w w' [= <-]. exists []. by rewrite app_nil_r. Qed.

Lemma appends_when (path : string) (c : bool) (m : M unit) :
  appends_only path m -> appends_only path (when c m).
Proof. intros Hm. destruct c; [done|apply appends_ret]. Qed.

#[global] Hint Resolve appends_ret appends_fwrite appends_load appends_fwrite_block
  appends_malloc appends_free appends_fclose appends_bpf_obj_get
  appends_get_global_data appends_exit appends_when : appends.

(** ** Properties of [gen] *)

Section GenSucceeds.

Variable DEBUG : bool.
Variables (args : root_args) (w : world).
Variables (mc md mn mh : kmap) (kc kd kh vc vd vh : list byte).

Hypothesis Hpc : w_pins w !! pin_at args 0 = Some mc.
Hypothesis Hpd : w_pins w !! pin_at args 1 = Some md.
Hypothesis Hpn : w_pins w !! pin_at args 2 = Some mn.
Hypothesis Hph : w_pins w !! pin_at args 3 = Some mh.
Hypothesis Hc : holds_sole_value mc kc vc.
Hypothesis Hd : holds_sole_value md kd vd.
Hypothesis Hh : holds_sole_value mh kh vh.
Hypothesis Hver : (16 <= length vh)%nat.
Hypothesis Hout : w_writable w (output args) = true.
Hypothesis Hmalloc : malloc_succeeds w.

Lemma gen_writes_profraw :
  exists w',
    gen DEBUG args w = Ok 0 w' /\
    w_files w' !! output args =
    Some (profraw (stored_version vh + 1)
                  (value_size (km_info md) / 48) (value_size (km_info mc) / 8)
                  (Bytes.le_encode 4 (value_size (km_info mn)) ++
                   Bytes.le_encode 4 (max_entries (km_info mn)))
                  vd vc).
Proof.
  unfold malloc_succeeds in Hmalloc.
  pose proof (Forall_hd_true _ Hmalloc) as M0.
  pose proof (Forall_tl _ _ Hmalloc) as F1. pose proof (Forall_hd_true _ F1) as M1.
  pose proof (Forall_tl _ _ F1) as F2. pose proof (Forall_hd_true _ F2) as M2.
  pose proof (Forall_tl _ _ F2) as F3. pose proof (Forall_hd_true _ F3) as M3.
  pose proof (Forall_tl _ _ F3) as F4. pose proof (Forall_hd_true _ F4) as M4.
  pose proof (Forall_tl _ _ F4) as F5. pose proof (Forall_hd_true _ F5) as M5.
  pose proof (Forall_tl _ _ F5) as F6. pose proof (Forall_hd_true _ F6) as M6.
  pose proof (Forall_tl _ _ F6) as F7. pose proof (Forall_hd_true _ F7) as M7.
  pose proof (Forall_tl _ _ F7) as F8. pose proof (Forall_hd_true _ F8) as M8.
  clear F1 F2 F3 F4 F5 F6 F7 F8.
  eexists. split.
  - unfold gen.
    rewrite bind_eq, log_info_eq. cbv beta iota.
    rewrite (open_info_some _ mc) by exact Hpc. cbv beta iota.
    change (negb (0 =? 0)) with false. rewrite bind_when_false.
    rewrite (open_info_some _ md) by exact Hpd. cbv beta iota.
    change (negb (0 =? 0)) with false. rewrite bind_when_false.
    rewrite (open_info_some _ mn) by exact Hpn. cbv beta iota.
    change (negb (0 =? 0)) with false. rewrite bind_when_false.
    rewrite (open_info_some _ mh) by exact Hph. cbv beta iota.
    change (negb (0 =? 0)) with false. rewrite bind_when_false.
    rewrite bind_eq, fopen_wb_ok by exact Hout. cbv beta iota.
    match goal with
    | |- context [ {| f_fd := ?f; f_path := ?p |} ] =>
        set (outfp := {| f_fd := f; f_path := p |})
    end.
    rewrite bind_eq, log_info_eq. cbv beta iota.
    do_fwrite.
    (* Version *)
    rewrite (alloc_fetch_ok _ mh kh vh) by (wsimpl; assumption).
    change (negb (0 =? 0)) with false. rewrite bind_when_false. wsimpl.
    rewrite bind_eq. rewrite (load_ok _ 12 4 vh).
    2:{ unfold block. wsimpl. by rewrite list_lookup_middle. }
    2:{ lia. }
    cbv beta iota. fold (stored_version vh).
    rewrite to_signed_small by (pose proof (stored_version_bound vh); lia).
    do_fwrite.
    rewrite bind_eq. erewrite free_ok
      by (unfold block; wsimpl; by rewrite list_lookup_middle).
    cbv beta iota.
    do 8 do_fwrite.
    rewrite bind_eq, log_info_eq. cbv beta iota.
    (* Data *)
    rewrite (alloc_fetch_ok _ md kd vd) by (wsimpl; assumption).
    change (negb (0 =? 0)) with false. rewrite bind_when_false. wsimpl.
    rewrite bind_eq.
    erewrite (fwrite_block_eq _ _ _ vd);
      [ | unfold block; wsimpl; by rewrite list_lookup_middle
        | apply Hd
        | wsimpl; apply lookup_insert_eq ].
    cbv beta iota.
    rewrite bind_eq, log_info_eq. cbv beta iota.
    (* Counters *)
    rewrite (alloc_fetch_ok _ mc kc vc) by (wsimpl; assumption).
    change (negb (0 =? 0)) with false. rewrite bind_when_false. wsimpl.
    rewrite bind_eq.
    erewrite (fwrite_block_eq _ _ _ vc);
      [ | unfold block; wsimpl; by rewrite list_lookup_middle
        | apply Hc
        | wsimpl; apply lookup_insert_eq ].
    cbv beta iota.
    unfold fclose. rewrite bind_eq, close_eq. cbv beta iota.
    reflexivity.
  - wsimpl. rewrite lookup_insert_eq. reflexivity.
Qed.

End GenSucceeds.

(** *** A header map declared for more than one entry *)



Section GenHeader.

Variable DEBUG : bool.
Variables (args : root_args) (w : world) (mh : kmap).

Hypothesis Hph : w_pins w !! pin_at args 3 = Some mh.
Hypothesis Hmax : 1 < max_entries (km_info mh).


End GenHeader.

Section GenAppends.

Variable DEBUG : bool.

Lemma appends_log_info (path : string) (args : root_args) (text : string) :
  appends_only path (log_info DEBUG args text).
Proof. intros w w'. rewrite log_info_eq. intros [= <-]. exists []. by rewrite app_nil_r. Qed.

Lemma appends_log_fata {A} (path : string) (args : root_args) (text : string) :
  appends_only path (log_fata (A := A) DEBUG args text).
Proof. intros w w'. rewrite log_fata_eq. intros [= <-]. exists []. by rewrite app_nil_r. Qed.

End GenAppends.

#[global] Hint Resolve appends_log_info appends_log_fata : appends.

Ltac appends_chain :=
  repeat first
    [ apply appends_bind; [ solve [auto with appends] | intros ]
    | solve [auto with appends] ].

Section GenVersion.

Variable DEBUG : bool.
Variables (args : root_args) (w : world).
Variables (mc md mn mh : kmap) (kh vh : list byte).

Hypothesis Hpc : w_pins w !! pin_at args 0 = Some mc.
Hypothesis Hpd : w_pins w !! pin_at args 1 = Some md.
Hypothesis Hpn : w_pins w !! pin_at args 2 = Some mn.
Hypothesis Hph : w_pins w !! pin_at args 3 = Some mh.
Hypothesis Hh : holds_sole_value mh kh vh.
Hypothesis Hver : (16 <= length vh)%nat.
Hypothesis Hout : w_writable w (output args) = true.
Hypothesis Hmalloc : Forall (fun ok => ok = true) (take 3 (w_malloc w)).

(** Whatever becomes of the rest of [gen], the second field of the
    output is the stored version plus one. *)
Lemma gen_version_after_header (w' : world) :
  world_of (gen DEBUG args w) = Some w' ->
  take 8 (drop 8 (file_content w' (output args))) =
  Bytes.le_encode 8 (stored_version vh + 1).
Proof.
  assert (M0 : hd true (w_malloc w) = true /\ hd true (tl (w_malloc w)) = true /\
               hd true (tl (tl (w_malloc w))) = true).
  { destruct (w_malloc w) as [|a [|b [|c l]]]; cbn in Hmalloc |- *;
      repeat match goal with
             | H : Forall _ (_ :: _) |- _ => apply Forall_cons in H as [-> H]
             end; done. }
  destruct M0 as (M0 & M1 & M2).
  unfold gen.
  rewrite bind_eq, log_info_eq. cbv beta iota.
  rewrite (open_info_some _ mc) by exact Hpc. cbv beta iota.
  change (negb (0 =? 0)) with false. rewrite bind_when_false.
  rewrite (open_info_some _ md) by exact Hpd. cbv beta iota.
  change (negb (0 =? 0)) with false. rewrite bind_when_false.
  rewrite (open_info_some _ mn) by exact Hpn. cbv beta iota.
  change (negb (0 =? 0)) with false. rewrite bind_when_false.
  rewrite (open_info_some _ mh) by exact Hph. cbv beta iota.
  change (negb (0 =? 0)) with false. rewrite bind_when_false.
  rewrite bind_eq, fopen_wb_ok by exact Hout. cbv beta iota.
  match goal with
  | |- context [ {| f_fd := ?f; f_path := ?p |} ] =>
      set (outfp := {| f_fd := f; f_path := p |})
  end.
  rewrite bind_eq, log_info_eq. cbv beta iota.
  do_fwrite.
  rewrite (alloc_fetch_ok _ mh kh vh) by (wsimpl; assumption).
  change (negb (0 =? 0)) with false. rewrite bind_when_false. wsimpl.
  rewrite bind_eq. rewrite (load_ok _ 12 4 vh).
  2:{ unfold block. wsimpl. by rewrite list_lookup_middle. }
  2:{ lia. }
  cbv beta iota. fold (stored_version vh).
  rewrite to_signed_small by (pose proof (stored_version_bound vh); lia).
  do_fwrite.
  match goal with
  | |- world_of (?rest ?W) = _ -> _ =>
      assert (Happ : appends_only (output args) rest) by appends_chain;
      intros Hw'; destruct (Happ W w' Hw') as [s ->]
  end.
  unfold file_content. wsimpl. rewrite lookup_insert_eq. reflexivity.
Qed.

End GenVersion.

(** ** Properties of the end of the parsing *)

Lemma argp_error_eq {A} (text : string) (w : world) :
  argp_error (A := A) text w =
  Exited argp_err_exit_status (set_stderr (fun l => l ++ [text]) w).
Proof. reflexivity. Qed.

Lemma set_pins_stdout_id (w : world) :
  set_stdout (fun l => l ++ []) (set_pins (fun m => m) w) = w.
Proof. apply world_eq; wsimpl; try done. apply app_nil_r. Qed.

Section CheckPins.

Variable DEBUG : bool.
Variable args : root_args.

(** In a [run], when every pin that exists can be removed, the loop
    removes the pins and warns of each. *)
Lemma check_pins_run (ps : list nat) (w : world) :
  (forall p, p ∈ ps -> is_Some (w_pins w !! pin_at args p) ->
             w_writable w (pin_at args p) = true) ->
  check_pins DEBUG args true false ps w =
  Ok tt (set_stdout (fun l => l ++ unpin_warnings DEBUG args (w_pins w) ps)
           (set_pins (unpinned args ps) w)).
Proof.
  revert w. induction ps as [|p ps IH]; intros w Hw.
  - cbn [check_pins unpin_warnings unpinned foldl]. unfold ret. f_equal.
    symmetry. apply set_pins_stdout_id.
  - cbn [check_pins unpin_warnings]. rewrite bind_eq. unfold access.
    destruct (w_pins w !! pin_at args p) as [m|] eqn:Hp.
    + cbv beta iota. cbn [Z.eqb]. rewrite bind_when_true.
      rewrite bind_eq. rewrite bind_eq, log_warn_eq. cbv beta iota.
      rewrite bind_eq. unfold unlink at 1. wsimpl. rewrite Hp.
      rewrite (Hw p) by (first [by left | rewrite Hp; by eexists]).
      cbv beta iota. change (negb (0 =? 0)) with false. cbn [when ret].
      rewrite IH.
      * f_equal. apply world_eq; wsimpl; try done. by rewrite app_assoc.
      * intros q Hq [x Hx]. wsimpl. wsimpl in Hx. apply Hw; [by right|].
        destruct (decide (pin_at args p = pin_at args q)) as [Heq|Hne].
        -- rewrite <- Heq, Hp. by eexists.
        -- rewrite lookup_delete_ne in Hx by done. by eexists.
    + cbv beta iota. change (-1 =? 0) with false. cbv beta iota.
      rewrite bind_when_false. rewrite IH.
      * f_equal. apply world_eq; wsimpl; try done.
        -- cbn [unpinned foldl]. by rewrite delete_id.
        -- by rewrite delete_id.
      * intros q Hq. apply Hw. by right.
Qed.

(** In a [run], a pin that exists and cannot be removed ends the tool. *)
Lemma check_pins_run_fails (ps : list nat) (w : world) :
  (exists p, p ∈ ps /\ is_Some (w_pins w !! pin_at args p) /\
             w_writable w (pin_at args p) = false) ->
  exists w', check_pins DEBUG args true false ps w = Exited argp_err_exit_status w' /\
             w_files w' = w_files w.
Proof.
  revert w. induction ps as [|q ps IH]; intros w (p & Hin & Hp & Hro).
  { by apply elem_of_nil in Hin. }
  cbn [check_pins]. rewrite bind_eq. unfold access.
  destruct (w_pins w !! pin_at args q) as [m|] eqn:Hq.
  - cbv beta iota. cbn [Z.eqb]. rewrite bind_when_true.
    rewrite bind_eq. rewrite bind_eq, log_warn_eq. cbv beta iota.
    rewrite bind_eq. unfold unlink at 1. wsimpl. rewrite Hq.
    destruct (w_writable w (pin_at args q)) eqn:Hwq.
    + cbv beta iota. change (negb (0 =? 0)) with false. cbn [when ret].
      destruct (IH (set_pins (fun ps0 => delete (pin_at args q) ps0)
                      (set_stdout (fun l => l ++ log_lines DEBUG 1 args
                         ("unpinning existing map '" +:+ pin_at args q +:+ "'" +:+ CStr.NL))
                         w))) as (w' & -> & Hf).
      * exists p. apply elem_of_cons in Hin as [->|Hin]; [congruence|].
        wsimpl. split; [done|]. split; [|done].
        rewrite lookup_delete_ne; [done|]. intros Heq. congruence.
      * by exists w'.
    + cbv beta iota. change (negb (-1 =? 0)) with true. cbn [when].
      rewrite argp_error_eq. by eexists.
  - cbv beta iota. change (-1 =? 0) with false. cbv beta iota.
    rewrite bind_when_false. apply IH. exists p.
    apply elem_of_cons in Hin as [->|Hin]; [|done].
    rewrite Hq in Hp. by destruct Hp.
Qed.

(** In a [gen], the loop changes nothing when the four pins exist, and
    ends the tool at the first that does not. *)
Lemma check_pins_gen_present (ps : list nat) (w : world) :
  (forall p, p ∈ ps -> is_Some (w_pins w !! pin_at args p)) ->
  check_pins DEBUG args false true ps w = Ok tt w.
Proof.
  induction ps as [|q ps IH]; intros Hall; [done|].
  cbn [check_pins]. rewrite bind_eq. unfold access.
  destruct (Hall q) as [m ->]; [by left|].
  cbv beta iota. cbn [Z.eqb]. rewrite bind_when_false. apply IH.
  intros p Hp. apply Hall. by right.
Qed.

Lemma check_pins_gen_missing (ps : list nat) (w : world) :
  (exists p, p ∈ ps /\ w_pins w !! pin_at args p = None) ->
  exists p, p ∈ ps /\ w_pins w !! pin_at args p = None /\
    check_pins DEBUG args false true ps w =
    Exited argp_err_exit_status
      (set_stderr (fun l => l ++ ["could not access map '" +:+ pin_at args p +:+ "'"]) w).
Proof.
  induction ps as [|q ps IH]; intros (p & Hin & Hp).
  { by apply elem_of_nil in Hin. }
  cbn [check_pins]. rewrite bind_eq. unfold access.
  destruct (w_pins w !! pin_at args q) as [m|] eqn:Hq.
  - cbv beta iota. cbn [Z.eqb]. rewrite bind_when_false.
    destruct IH as (p' & Hin' & Hp' & ->).
    + exists p. apply elem_of_cons in Hin as [->|Hin]; [congruence|done].
    + exists p'. split; [by right|done].
  - cbv beta iota. change (-1 =? 0) with false. cbv beta iota.
    rewrite bind_when_true, bind_eq, argp_error_eq.
    exists q. split; [by left|done].
Qed.

Lemma unpinned_lookup_in (ps : list nat) (pins : gmap string kmap) (p : nat) :
  p ∈ ps -> unpinned args ps pins !! pin_at args p = None.
Proof.
  unfold unpinned. revert pins. induction ps as [|q ps IH]; intros pins Hin.
  { by apply elem_of_nil in Hin. }
  cbn [foldl]. destruct (decide (p ∈ ps)) as [Hps|Hps]; [by apply IH|].
  apply elem_of_cons in Hin as [->|Hin]; [|done].
  clear. revert pins. induction ps as [|r ps IH]; intros pins; cbn [foldl].
  - apply lookup_delete_eq.
  - rewrite delete_delete. apply IH.
Qed.

Lemma unpinned_absent (ps : list nat) (pins : gmap string kmap) :
  (forall p, p ∈ ps -> pins !! pin_at args p = None) ->
  unpinned args ps pins = pins /\ unpin_warnings DEBUG args pins ps = [].
Proof.
  unfold unpinned. induction ps as [|q ps IH]; intros Hall; [done|].
  cbn [foldl unpin_warnings]. rewrite (Hall q) by by left.
  rewrite delete_id by (apply Hall; by left).
  apply IH. intros p Hp. apply Hall. by right.
Qed.

End CheckPins.

Lemma strlen_append (a b : string) :
  CStr.strlen (a +:+ b) = CStr.strlen a + CStr.strlen b.
Proof.
  induction a as [|c a IH]; [done|].
  change (String c a +:+ b) with (String c (a +:+ b)). cbn [CStr.strlen]. lia.
Qed.

Section RootFini.

Variable DEBUG : bool.
Variable strerror : Z -> string.
Variables (args : root_args) (w : world).

(** The four paths fit in [PATH_MAX]. *)
Hypothesis Hfit : CStr.strlen (prog_root args) + 7 < PATH_MAX.

Lemma root_parse_fini_eq (w0 : world) :
  root_parse_fini DEBUG args w0 =
  (let* _ := check_pins DEBUG (with_pins args)
               (bool_decide (command args = Some cmd_run))
               (bool_decide (command args = Some cmd_gen))
               (seq 0 NUM_PINNED_MAPS) in
   ret (with_pins args)) w0.
Proof.
  unfold root_parse_fini.
  repeat match goal with
         | |- context [ PATH_MAX <=? CStr.strlen ?s ] =>
             replace (PATH_MAX <=? CStr.strlen s) with false;
             [ rewrite bind_when_false
             | symmetry; apply Z.leb_gt; rewrite !strlen_append; cbn [CStr.strlen]; lia ]
         end.
  reflexivity.
Qed.

End RootFini.

(** ** Properties of [run] *)

Lemma fd_obj_fresh (o : kobj) (t : list (option kobj)) (w : world) :
  w_fds w = fd_install o t -> fd_obj w (Z.of_nat (first_free t)) = Some o.
Proof.
  intros Hw. unfold fd_obj. rewrite Hw.
  destruct (Z.ltb_spec (Z.of_nat (first_free t)) 0); [lia|].
  rewrite Nat2Z.id. apply fd_install_lookup.
Qed.

Lemma bpf_obj_pin_cases (fd : Z) (path : string) (w : world) :
  let w1 := set_trace (fun t => t ++ [call_bpf_obj_pin fd path]) w in
  bpf_obj_pin fd path w = Ok (-1) w1 \/
  exists m, bpf_obj_pin fd path w = Ok 0 (set_pins (fun ps => <[path := m]> ps) w1).
Proof.
  cbv zeta. unfold bpf_obj_pin. wsimpl.
  change (fd_obj (set_trace _ w) fd) with (fd_obj w fd).
  destruct (fd_obj w fd) as [[m| | |]|]; try by left.
  destruct (w_pins w !! path); [by left|].
  destruct (w_writable w path); [right; by exists m|by left].
Qed.

Section Run.

Variable DEBUG : bool.
Variable strerror : Z -> string.
Variable args : root_args.

(** *** The map behind the duplicated descriptor *)


Section Named.

Variables (curfd : Z) (w : world) (m : kmap).
Hypothesis Hfd : fd_obj w curfd = Some (KMap m).
Hypothesis Hname : 0 < CStr.strlen (name (km_info m)).

(** The world once the name of the map is logged. *)
Local Abbreviation w1 :=
  (set_stdout (fun l => l ++ log_lines DEBUG 2 args
                 ("run: got info about map '" +:+ name (km_info m) +:+ "'" +:+ CStr.NL)) w).

Lemma pin_by_name_named :
  pin_by_name DEBUG args curfd w =
  match get_pin_path args (name_suffix (name (km_info m))) "" with
  | None => Undef
  | Some (matched, pin_path) =>
      (let* err :=
         if negb (matched =? 0) then
           let* _ := log_warn DEBUG args
                       ("run: pinning map '" +:+ name (km_info m) +:+ "' to '"
                        +:+ pin_path +:+ "'" +:+ CStr.NL) in
           bpf_obj_pin curfd pin_path
         else ret 0
       in
       when (negb (err =? 0))
         (log_fata DEBUG args ("run: could not pin map" +:+ CStr.NL))) w1
  end.
Proof.
  unfold pin_by_name. rewrite bind_eq. unfold bpf_obj_get_info_by_fd. rewrite Hfd.
  cbv beta iota. cbn [Z.eqb andb].
  replace (0 <? CStr.strlen (name (km_info m))) with true
    by (symmetry; by apply Z.ltb_lt).
  rewrite bind_eq, log_info_eq. cbv beta iota zeta.
  by destruct (get_pin_path _ _ _) as [[matched path]|].
Qed.

(** A name without a second token: [strncmp] gets a NULL pointer. *)
Lemma pin_by_name_no_separator :
  name_suffix (name (km_info m)) = None ->
  pin_by_name DEBUG args curfd w = Undef.
Proof. intros Hs. by rewrite pin_by_name_named, Hs. Qed.



End Named.

(** *** The block that duplicates the descriptor *)

Lemma pin_bpfcov_maps_eq (pid result : Z) (it : iteration) (w : world) :
  pin_bpfcov_maps DEBUG args pid result it w =
  let w1 := set_trace (fun t => t ++ [call_pidfd_open pid]) w in
  if it_pidfd_open it then
    let pidfd := Z.of_nat (first_free (w_fds w)) in
    let w2 := set_trace (fun t => t ++ [call_pidfd_getfd pidfd result])
                (set_fds (fd_install (KPidfd pid)) w1) in
    match it_fdtable it !! Bytes.to_int result with
    | Some o =>
        pin_by_name DEBUG args
          (Z.of_nat (first_free (fd_install (KPidfd pid) (w_fds w))))
          (set_fds (fd_install o) w2)
    | None => Ok tt w2
    end
  else Ok tt w1.
Proof.
  cbv zeta. unfold pin_bpfcov_maps. rewrite bind_eq. unfold pidfd_open.
  destruct (it_pidfd_open it); [|reflexivity].
  unfold new_fd at 1. wsimpl.
  replace (Z.of_nat (first_free (w_fds w)) <? 0) with false by (symmetry; apply Z.ltb_ge; lia).
  rewrite bind_eq. unfold pidfd_getfd.
  rewrite (fd_obj_fresh (KPidfd pid) (w_fds w)) by reflexivity.
  destruct (it_fdtable it !! Bytes.to_int result) as [o|]; [|reflexivity].
  unfold new_fd at 1. wsimpl.
  by replace (Z.of_nat (first_free (fd_install (KPidfd pid) (w_fds w))) <? 0)
    with false by (symmetry; apply Z.ltb_ge; lia).
Qed.

(** *** One turn of the loop *)

Lemma run_iteration_eq (pid is_map : Z) (it : iteration) (regs : user_regs_struct)
    (w : world) :
  reaches_exit_probe it regs ->
  run_iteration DEBUG strerror args pid is_map it w =
  match it_regs_exit it with
  | inr errno =>
      let w1 := set_stdout (fun l => l ++ syscall_lines DEBUG args regs "?") w in
      if errno =? ESRCH
      then Exited (Bytes.to_int (rdi regs)) w1
      else Exited EXIT_FAILURE
             (set_stderr (fun l => l ++ log_lines DEBUG 0 args
                            ("run: " +:+ strerror errno +:+ CStr.NL)) w1)
  | inl regs' =>
      let result := Bytes.to_long (rax regs') in
      let flag := if is_map_create regs then 1 else is_map in
      let w1 := set_stdout (fun l => l ++ syscall_lines DEBUG args regs (pretty result)) w in
      if negb (flag =? 0) && negb (result =? 0)
      then (let* _ := pin_bpfcov_maps DEBUG args pid result it in ret flag) w1
      else Ok flag w1
  end.
Proof.
  intros (H1 & H2 & H3 & H4 & H5). unfold run_iteration.
  rewrite H1, H2, H3, H4, H5. change (negb (0 =? 0)) with false.
  rewrite !bind_when_false. rewrite bind_eq, log_debu_eq. cbv beta iota.
  rewrite !bind_when_false. fold (syscall_line regs). fold (is_map_create regs).
  assert (Hw : forall res,
             set_stdout (fun l => l ++ if verbosity args <? 3 then [] else [res])
               (set_stdout (fun l => l ++ log_lines DEBUG 3 args (syscall_line regs)) w) =
             set_stdout (fun l => l ++ log_lines DEBUG 3 args (syscall_line regs) ++
                                  if verbosity args <? 3 then [] else [res]) w).
  { intros res. apply world_eq; wsimpl; try done. by rewrite app_assoc. }
  destruct (it_regs_exit it) as [regs'|errno]; cbv zeta.
  - rewrite bind_eq, print_log_plain_eq. cbv beta iota. rewrite Hw.
    by destruct (negb _ && negb _).
  - rewrite bind_eq, print_log_plain_eq. cbv beta iota. rewrite Hw.
    destruct (errno =? ESRCH); [reflexivity|]. by rewrite log_fata_eq.
Qed.

(** A failure before the probe at the exit stop ends the tool. *)
Lemma run_iteration_early_failure (pid is_map : Z) (it : iteration) (e : Z)
    (w : world) :
  early_failure it = Some e ->
  exists out,
    run_iteration DEBUG strerror args pid is_map it w =
    Exited EXIT_FAILURE
      (set_stderr (fun l => l ++ log_lines DEBUG 0 args
                     ("run: " +:+ strerror e +:+ CStr.NL))
         (set_stdout (fun l => l ++ out) w)).
Proof.
  assert (Hid : set_stdout (fun l => l ++ []) w = w)
    by (apply world_eq; wsimpl; try done; apply app_nil_r).
  unfold early_failure, run_iteration.
  destruct (negb (it_resume_entry it =? 0)).
  { intros [= <-]. exists []. rewrite Hid.
    by rewrite bind_when_true, bind_eq, log_fata_eq. }
  rewrite bind_when_false. destruct (negb (it_wait_entry it =? 0)).
  { intros [= <-]. exists []. rewrite Hid.
    by rewrite bind_when_true, bind_eq, log_fata_eq. }
  rewrite bind_when_false. destruct (it_regs_entry it) as [regs|e'].
  2:{ intros [= <-]. exists []. rewrite Hid. by rewrite log_fata_eq. }
  rewrite bind_eq, log_debu_eq. cbv beta iota zeta.
  destruct (negb (it_resume_exit it =? 0)).
  { intros [= <-]. eexists. by rewrite bind_when_true, bind_eq, log_fata_eq. }
  rewrite bind_when_false. destruct (negb (it_wait_exit it =? 0)); [|done].
  intros [= <-]. eexists. by rewrite bind_when_true, bind_eq, log_fata_eq.
Qed.


Lemma strlen_nonneg (s : string) : 0 <= CStr.strlen s.
Proof. induction s; cbn [CStr.strlen]; lia. Qed.



End Run.

(** ** The pin registry: claims *)

(** C9. The suffix is matched by prefix: every suffix that begins with the
    token of a role ([profc], [profd], [profn], [covmap]) resolves to the
    path of that role, and [get_pin_path] reports a match. *)
Theorem suffix_matched_by_prefix (args : root_args) (i : nat)
    (tok rest pin_path : string) :
  role_tokens !! i = Some tok ->
  get_pin_path args (Some (tok +:+ rest)) pin_path = Some (1, pin_at args i).
Proof. apply get_pin_path_begins. Qed.

Lemma suffix_matched_by_prefix_witness :
  role_tokens !! 0%nat = Some "profc" /\
  get_pin_path (sample_args None) (Some ("profc" +:+ "ounters")) "" =
  Some (1, pin_at (sample_args None) 0).
Proof.
  split; [reflexivity|].
  apply (suffix_matched_by_prefix (sample_args None) 0 "profc" "ounters" "").
  reflexivity.
Defined.






(** ** [gen]: claims *)




(** C2. When the header map yields its sole value to [gen] (the four maps
    are pinned, the output file can be opened, the header map holds a sole
    value with its bytes 12 to 15, and the three allocations of the fetch
    succeed), then in whatever state [gen] leaves the output file, after
    returning or after a later fatal error, its second 8-byte field is the
    unsigned 4-byte integer of the bytes 12 to 15 of the value, plus one; if
    these bytes hold 3, the field holds 4. *)
Theorem gen_version_field (DEBUG : bool) (args : root_args) (w w' : world)
    (mc md mn mh : kmap) (kh vh : list byte) :
  w_pins w !! pin_at args 0 = Some mc ->
  w_pins w !! pin_at args 1 = Some md ->
  w_pins w !! pin_at args 2 = Some mn ->
  w_pins w !! pin_at args 3 = Some mh ->
  holds_sole_value mh kh vh ->
  (16 <= length vh)%nat ->
  w_writable w (output args) = true ->
  Forall (fun ok => ok = true) (take 3 (w_malloc w)) ->
  world_of (gen DEBUG args w) = Some w' ->
  take 8 (drop 8 (file_content w' (output args))) =
  Bytes.le_encode 8 (stored_version vh + 1) /\
  (stored_version vh = 3 ->
   take 8 (drop 8 (file_content w' (output args))) =
   [x04; x00; x00; x00; x00; x00; x00; x00]).
Proof.
  intros Hpc Hpd Hpn Hph Hh Hver Hout Hmalloc Hw'.
  assert (Hfield := gen_version_after_header DEBUG args w mc md mn mh kh vh
                      Hpc Hpd Hpn Hph Hh Hver Hout Hmalloc w' Hw').
  split; [done|]. intros H3. by rewrite Hfield, H3.
Qed.

Lemma gen_version_field_witness :
  world_of (gen true (sample_args (Some cmd_gen)) (sample_world sample_pins)) =
  Some sample_generated /\
  stored_version sample_header = 3 /\
  take 8 (drop 8 (file_content sample_generated "prog.profraw")) =
  [x04; x00; x00; x00; x00; x00; x00; x00].
Proof.
  assert (Hw : world_of (gen true (sample_args (Some cmd_gen)) (sample_world sample_pins)) =
               Some sample_generated) by (vm_compute; reflexivity).
  split; [exact Hw|]. split; [reflexivity|].
  refine (proj2 (gen_version_field true (sample_args (Some cmd_gen))
                   (sample_world sample_pins) sample_generated
                   (sample_map "prog.profc" sample_counters)
                   (sample_map "prog.profd" sample_data)
                   (sample_map "prog.profn" sample_names)
                   (sample_map "prog.covmap" sample_header)
                   (Bytes.le_encode 4 0) sample_header
                   _ _ _ _ _ _ _ _ Hw) _);
    first [ vm_compute; reflexivity
          | repeat split; vm_compute; reflexivity
          | apply le_n
          | constructor ].
Defined.



(** ** [get_global_data]: a sample call *)

Lemma get_global_data_releases_witness :
  exists w',
    get_global_data 3 (km_info (sample_table "prog.covmap" sample_header)) (Some 0%nat)
      (set_heap (fun _ => [Some sample_data])
         (set_fds (fun t => t ++ [Some (KMap (sample_table "prog.covmap" sample_header))])
            (sample_world []))) =
    Ok (-1) w' /\
    fd_obj w' 3 = None /\
    block w' (Some 0%nat) = Some sample_data.
Proof.
  eexists. split; [vm_compute; reflexivity|].
  match goal with
  | |- fd_obj ?w' 3 = None /\ _ =>
      destruct (get_global_data_releases 3
                  (km_info (sample_table "prog.covmap" sample_header)) (Some 0%nat)
                  (set_heap (fun _ => [Some sample_data])
                     (set_fds (fun t => t ++ [Some (KMap (sample_table "prog.covmap"
                                                            sample_header))])
                        (sample_world [])))
                  w' (-1) ltac:(vm_compute; reflexivity))
        as (Hfd & _ & Hkeep & _)
  end.
  split; [exact Hfd|]. by destruct Hkeep as [-> _].
Defined.

(** ** The pins before [run] and before [gen]: claims *)

(** C8. With paths that fit in [PATH_MAX]: before a [run], each of the
    four paths that holds a pin loses it, with a warning, when the pins can
    be removed, and the tool ends with the exit status of [argp_error] when
    one cannot; a path without a pin is no error, so that going through the
    paths once more changes nothing and does not fail. Before a [gen], a
    path without a pin ends the tool with that status and a message, and
    [gen] is not entered: but for the message the world is as it was. *)
Theorem pins_before_run_and_gen (DEBUG : bool) (strerror : Z -> string)
    (args : root_args) (w : world) :
  CStr.strlen (prog_root args) + 7 < PATH_MAX ->
  let args' := with_pins args in
  (command args = Some cmd_run ->
   (forall p, (p < NUM_PINNED_MAPS)%nat -> is_Some (w_pins w !! pin_at args' p) ->
              w_writable w (pin_at args' p) = true) ->
   exists w',
     root_parse_fini DEBUG args w = Ok args' w' /\
     (forall p, (p < NUM_PINNED_MAPS)%nat -> w_pins w' !! pin_at args' p = None) /\
     w_stdout w' =
     w_stdout w ++ unpin_warnings DEBUG args' (w_pins w) (seq 0 NUM_PINNED_MAPS) /\
     root_parse_fini DEBUG args w' = Ok args' w') /\
  (command args = Some cmd_run ->
   (exists p, (p < NUM_PINNED_MAPS)%nat /\ is_Some (w_pins w !! pin_at args' p) /\
              w_writable w (pin_at args' p) = false) ->
   exists w', root_parse_fini DEBUG args w = Exited argp_err_exit_status w') /\
  (command args = Some cmd_gen ->
   (exists p, (p < NUM_PINNED_MAPS)%nat /\ w_pins w !! pin_at args' p = None) ->
   forall tr, exists p,
     (p < NUM_PINNED_MAPS)%nat /\ w_pins w !! pin_at args' p = None /\
     root DEBUG strerror args tr w =
     Exited argp_err_exit_status
       (set_stderr (fun l => l ++ ["could not access map '" +:+ pin_at args' p +:+ "'"]) w)).
Proof.
  intros Hfit args'. subst args'.
  assert (Hseq : forall p, p ∈ seq 0 NUM_PINNED_MAPS <-> (p < NUM_PINNED_MAPS)%nat).
  { intros p. rewrite elem_of_seq. lia. }
  split; [|split].
  - intros Hcmd Hrm. rewrite (root_parse_fini_eq _ _ Hfit), Hcmd.
    rewrite bool_decide_eq_true_2, bool_decide_eq_false_2 by done.
    rewrite bind_eq, check_pins_run by (intros p Hp%Hseq; by apply Hrm).
    cbv beta iota. eexists. split; [reflexivity|]. wsimpl.
    assert (Hgone : forall p, (p < NUM_PINNED_MAPS)%nat ->
              unpinned (with_pins args) (seq 0 NUM_PINNED_MAPS) (w_pins w)
                !! pin_at (with_pins args) p = None).
    { intros p Hp%Hseq. by apply unpinned_lookup_in. }
    split; [done|]. split; [done|].
    rewrite (root_parse_fini_eq _ _ Hfit), Hcmd.
    rewrite bool_decide_eq_true_2, bool_decide_eq_false_2 by done.
    rewrite bind_eq, check_pins_run.
    + wsimpl. cbv beta iota. unfold ret. f_equal.
      destruct (unpinned_absent DEBUG (with_pins args) (seq 0 NUM_PINNED_MAPS)
                  (unpinned (with_pins args) (seq 0 NUM_PINNED_MAPS) (w_pins w)))
        as [Hsame Hquiet]; [intros p Hp%Hseq; by apply Hgone|].
      apply world_eq; wsimpl; try done.
      by rewrite Hquiet, app_nil_r.
    + wsimpl. intros p Hp%Hseq [x Hx]. by rewrite Hgone in Hx.
  - intros Hcmd (p & Hp & Hpin & Hro). rewrite (root_parse_fini_eq _ _ Hfit), Hcmd.
    rewrite bool_decide_eq_true_2, bool_decide_eq_false_2 by done.
    rewrite bind_eq.
    destruct (check_pins_run_fails DEBUG (with_pins args) (seq 0 NUM_PINNED_MAPS) w)
      as (w' & -> & _); [|by exists w'].
    exists p. by rewrite Hseq.
  - intros Hcmd (p & Hp & Hnone) tr.
    destruct (check_pins_gen_missing DEBUG (with_pins args) (seq 0 NUM_PINNED_MAPS) w)
      as (q & Hq & Hqnone & Hrun); [exists p; by rewrite Hseq|].
    exists q. split; [by apply Hseq|]. split; [done|].
    unfold root. rewrite bind_eq, (root_parse_fini_eq _ _ Hfit), Hcmd.
    rewrite bool_decide_eq_false_2, bool_decide_eq_true_2 by done.
    by rewrite bind_eq, Hrun.
Qed.

Lemma pins_before_run_and_gen_witness :
  exists w',
    root_parse_fini true (sample_args (Some cmd_run))
      (sample_world [("/sys/fs/bpf/cov/prog/profc", sample_map "prog.profc" sample_counters)]) =
    Ok (with_pins (sample_args (Some cmd_run))) w' /\
    w_pins w' !! "/sys/fs/bpf/cov/prog/profc" = None /\
    root_parse_fini true (sample_args (Some cmd_run)) w' =
    Ok (with_pins (sample_args (Some cmd_run))) w'.
Proof.
  destruct (pins_before_run_and_gen true sample_strerror (sample_args (Some cmd_run))
              (sample_world [("/sys/fs/bpf/cov/prog/profc",
                              sample_map "prog.profc" sample_counters)]))
    as (Hrun & _ & _); [vm_compute; reflexivity|].
  destruct Hrun as (w' & Hok & Hgone & _ & Hagain); [reflexivity|by intros|].
  exists w'. split; [exact Hok|]. split; [|exact Hagain].
  apply (Hgone 0%nat). unfold NUM_PINNED_MAPS. lia.
Defined.

(** ** [run]: claims *)

Lemma early_failure_none (it : iteration) :
  early_failure it = None -> exists regs, reaches_exit_probe it regs.
Proof.
  unfold early_failure, reaches_exit_probe.
  destruct (Z.eqb_spec (it_resume_entry it) 0) as [->|]; [|done].
  destruct (Z.eqb_spec (it_wait_entry it) 0) as [->|]; [|done].
  destruct (it_regs_entry it) as [regs|]; [|done].
  destruct (Z.eqb_spec (it_resume_exit it) 0) as [->|]; [|done].
  destruct (Z.eqb_spec (it_wait_exit it) 0) as [->|]; [|done].
  intros _. by exists regs.
Qed.

(** C4, amended. When the probe at the exit stop fails because the traced
    process is gone ([ESRCH]), the tracer ends without an error, and its
    exit status is taken from the first-argument register ([rdi]) of the
    snapshot taken at the entry stop, the last one captured: the status
    that the traced program asked for, when the system call it entered was
    [exit] or [exit_group]. Any other failure of a resume, of a wait or of
    a probe in the turn ends the tool with [EXIT_FAILURE] and an error. *)
Theorem exit_probe_failure (DEBUG : bool) (strerror : Z -> string) (args : root_args)
    (pid is_map : Z) (it : iteration) (evs : list iteration) (w : world) :
  (forall regs,
     reaches_exit_probe it regs -> it_regs_exit it = inr ESRCH ->
     exists w',
       run_loop DEBUG strerror args pid is_map (it :: evs) w =
       Exited (Bytes.to_int (rdi regs)) w' /\
       w_stderr w' = w_stderr w /\ w_pins w' = w_pins w /\
       forall st, requested_exit_status regs = Some st ->
                  WEXITSTATUS (Bytes.to_int (rdi regs)) = st) /\
  (forall e,
     early_failure it = Some e \/
     (exists regs, reaches_exit_probe it regs /\ it_regs_exit it = inr e /\ e <> ESRCH) ->
     exists w',
       run_loop DEBUG strerror args pid is_map (it :: evs) w = Exited EXIT_FAILURE w' /\
       w_stderr w' =
       w_stderr w ++ log_lines DEBUG 0 args ("run: " +:+ strerror e +:+ CStr.NL)).
Proof.
  split.
  - intros regs Hreach Hexit. cbn [run_loop]. rewrite bind_eq.
    rewrite (run_iteration_eq _ _ _ _ _ _ regs _ Hreach), Hexit. cbv zeta.
    rewrite Z.eqb_refl. eexists. split; [reflexivity|]. wsimpl.
    repeat split; try done. intros st. unfold requested_exit_status.
    by destruct (_ || _); intros [= <-].
  - intros e [Hearly|(regs & Hreach & Hexit & Hne)]; cbn [run_loop]; rewrite bind_eq.
    + destruct (run_iteration_early_failure DEBUG strerror args pid is_map it e w Hearly)
        as [out ->].
      eexists. split; [reflexivity|]. by wsimpl.
    + rewrite (run_iteration_eq _ _ _ _ _ _ regs _ Hreach), Hexit. cbv zeta.
      replace (e =? ESRCH) with false by (symmetry; by apply Z.eqb_neq).
      eexists. split; [reflexivity|]. by wsimpl.
Qed.

Lemma exit_probe_failure_witness :
  exists w',
    run_loop true sample_strerror (sample_args (Some cmd_run)) 1234 0
      [sample_exit_group 7] (sample_world []) = Exited 7 w' /\
    w_stderr w' = [] /\
    WEXITSTATUS (Bytes.to_int (rdi (sample_regs SYS_exit_group 7 (2 ^ 64 - 38)))) = 7.
Proof.
  destruct (exit_probe_failure true sample_strerror (sample_args (Some cmd_run)) 1234 0
              (sample_exit_group 7) [] (sample_world [])) as [Hgone _].
  destruct (Hgone (sample_regs SYS_exit_group 7 (2 ^ 64 - 38)))
    as (w' & Hrun & Herr & _ & Hst); [by repeat split|reflexivity|].
  exists w'. split; [exact Hrun|]. split; [exact Herr|]. by apply Hst.
Defined.

(** C4, as stated, fails: the exit status is not taken from the return
    register. At the entry stop of [exit_group(7)] the return register
    [rax] holds [-ENOSYS]; the tracer exits with 7, the first argument. *)
Lemma exit_status_counterexample :
  status_of (run true sample_strerror (sample_args (Some cmd_run))
               {| tr_fork := 1234; tr_errno := 0; tr_events := [sample_exit_group 7] |}
               (sample_world [])) = Some 7 /\
  rax (sample_regs SYS_exit_group 7 (2 ^ 64 - 38)) = 2 ^ 64 - 38 /\
  WEXITSTATUS (Bytes.to_int (rax (sample_regs SYS_exit_group 7 (2 ^ 64 - 38)))) = 218 /\
  WEXITSTATUS 7 <> WEXITSTATUS (Bytes.to_int (rax (sample_regs SYS_exit_group 7 (2 ^ 64 - 38)))).
Proof. repeat split; vm_compute; congruence. Qed.

(** Once set, [is_map] stays set: no turn of the loop clears it, whatever
    system call the turn observes. *)
Lemma is_map_sticky (DEBUG : bool) (strerror : Z -> string) (args : root_args)
    (pid is_map flag : Z) (it : iteration) (w w' : world) :
  is_map <> 0 ->
  run_iteration DEBUG strerror args pid is_map it w = Ok flag w' ->
  flag <> 0.
Proof.
  intros Hset. destruct (early_failure it) as [e|] eqn:Hearly.
  { destruct (run_iteration_early_failure DEBUG strerror args pid is_map it e w Hearly)
      as [out ->]. done. }
  destruct (early_failure_none it Hearly) as [regs Hreach].
  rewrite (run_iteration_eq _ _ _ _ _ _ regs _ Hreach).
  destruct (it_regs_exit it) as [regs'|errno]; cbv zeta.
  - assert (Hflag : (if is_map_create regs then 1 else is_map) <> 0)
      by (by destruct (is_map_create regs)).
    destruct (negb _ && negb _).
    + rewrite bind_eq. destruct (pin_bpfcov_maps _ _ _ _ _ _); [|done..].
      by intros [= <- _].
    + by intros [= <- _].
  - by destruct (errno =? ESRCH).
Qed.

(** The first turn of a loop, entered with [is_map] clear, sets it exactly
    when the system call has the signature of the creation of a map. *)
Lemma is_map_first_turn (DEBUG : bool) (strerror : Z -> string) (args : root_args)
    (pid flag : Z) (it : iteration) (regs : user_regs_struct) (w w' : world) :
  reaches_exit_probe it regs ->
  run_iteration DEBUG strerror args pid 0 it w = Ok flag w' ->
  (flag <> 0 <-> is_map_create regs = true).
Proof.
  intros Hreach. rewrite (run_iteration_eq _ _ _ _ _ _ regs _ Hreach).
  destruct (it_regs_exit it) as [regs'|errno]; cbv zeta.
  - assert (Hflag : (if is_map_create regs then 1 else 0) <> 0 <-> is_map_create regs = true)
      by (by destruct (is_map_create regs)).
    destruct (negb _ && negb _).
    + rewrite bind_eq. destruct (pin_bpfcov_maps _ _ _ _ _ _); [|done..].
      by intros [= <- _].
    + by intros [= <- _].
  - by destruct (errno =? ESRCH).
Qed.

(** C3, the code at the failing input. [is_map] is not reset from one turn
    to the next: set by the creation of a map in the first turn, it is still
    set in the second, whose system call is not the creation of a map, and
    there it makes the tracer pin a map that the program did not create. *)
Theorem is_map_never_reset :
  is_map_create (sample_regs SYS_bpf BPF_OBJ_GET (2 ^ 64 - 38)) = false /\
  value_of (run_loop true sample_strerror (sample_args (Some cmd_run)) 1234 0
              [sample_create_profc] (sample_world [])) = Some 1 /\
  pin_after (run_loop true sample_strerror (sample_args (Some cmd_run)) 1234 0
               [sample_create_profc] (sample_world []))
    "/sys/fs/bpf/cov/prog/profd" = None /\
  value_of (run_loop true sample_strerror (sample_args (Some cmd_run)) 1234 0
              [sample_create_profc; sample_open_other] (sample_world [])) = Some 1 /\
  pin_after (run_loop true sample_strerror (sample_args (Some cmd_run)) 1234 0
               [sample_create_profc; sample_open_other] (sample_world []))
    "/sys/fs/bpf/cov/prog/profd" = Some (sample_map "other.profd" sample_data).
Proof. repeat split; vm_compute; reflexivity. Qed.


(** * The rest of [cli.c] *)

(** ** The helpers on strings *)

Lemma strlen_length (s : string) : CStr.strlen s = Z.of_nat (String.length s).
Proof. induction s as [|c s IH]; cbn [CStr.strlen String.length]; lia. Qed.

Lemma append_cons (c : ascii) (s t : string) : String c s +:+ t = String c (s +:+ t).
Proof. reflexivity. Qed.

Lemma append_empty_r (s : string) : s +:+ EmptyString = s.
Proof. induction s as [|c s IH]; [done|]. by rewrite append_cons, IH. Qed.

Lemma append_assoc (s t u : string) : (s +:+ t) +:+ u = s +:+ (t +:+ u).
Proof. induction s as [|c s IH]; [done|]. by rewrite !append_cons, IH. Qed.

Lemma length_snoc (s : string) (x : ascii) :
  String.length (s +:+ String x EmptyString) = S (String.length s).
Proof. induction s as [|c s IH]; [done|]. rewrite append_cons. cbn. by rewrite IH. Qed.

(** A string that is not empty has a last character. *)
Lemma snoc_cases (s : string) :
  s = EmptyString \/ exists s' x, s = s' +:+ String x EmptyString.
Proof.
  induction s as [|c s IH]; [by left|]. right.
  destruct IH as [->|(s' & x & ->)].
  - by exists EmptyString, c.
  - by exists (String c s'), x.
Qed.

Lemma snoc_inj (s t : string) (x y : ascii) :
  s +:+ String x EmptyString = t +:+ String y EmptyString -> s = t /\ x = y.
Proof.
  revert t. induction s as [|c s IH]; intros [|d t]; rewrite ?append_cons; cbn.
  - by intros [= ->].
  - intros [= -> H]. by destruct t.
  - intros [= -> H]. by destruct s.
  - intros [= -> H]. apply IH in H as [-> ->]. done.
Qed.

Lemma char_at_snoc (s : string) (x : ascii) :
  char_at (s +:+ String x EmptyString) (String.length s) = x.
Proof. unfold char_at. induction s as [|c s IH]; [done|]. rewrite append_cons. exact IH. Qed.

Lemma substring_snoc (s : string) (x : ascii) :
  String.substring 0 (String.length s) (s +:+ String x EmptyString) = s.
Proof.
  induction s as [|c s IH]; [done|]. rewrite append_cons. cbn. by rewrite IH.
Qed.

Lemma repeated_snoc (c : ascii) (n : nat) :
  repeated c n +:+ String c EmptyString = repeated c (S n).
Proof. induction n as [|n IH]; [done|]. cbn [repeated]. by rewrite append_cons, IH. Qed.

(** The loop of [strip_trailing_char], entered on the last character. *)
Lemma strip_trailing_loop_spec (c : ascii) (last : nat) (str : string) :
  String.length str = S last ->
  exists n, str = strip_trailing_loop str c last +:+ repeated c n /\
            strip_trailing_loop str c last <> EmptyString /\
            (ends_with (strip_trailing_loop str c last) c ->
             strip_trailing_loop str c last = String c EmptyString).
Proof.
  revert str. induction last as [|last IH]; intros str Hlen.
  - exists O. cbn [strip_trailing_loop repeated]. rewrite append_empty_r.
    split; [done|]. split; [by destruct str|].
    intros [s' Hs']. rewrite Hs', length_snoc in Hlen.
    destruct s'; [|done]. rewrite Hs'. reflexivity.
  - destruct (snoc_cases str) as [->|(s & x & ->)]; [done|].
    rewrite length_snoc in Hlen. injection Hlen as Hlen.
    cbn [strip_trailing_loop]. rewrite <- Hlen. rewrite char_at_snoc, substring_snoc.
    destruct (Ascii.eqb_spec x c) as [->|Hne].
    + destruct (IH s Hlen) as (n & Hs & Hne & Hend).
      exists (S n). split; [|done].
      rewrite <- repeated_snoc, <- append_assoc. by rewrite <- Hs.
    + exists O. cbn [repeated]. rewrite append_empty_r. split; [done|].
      split; [by destruct s|]. intros [s' Hs']. by apply snoc_inj in Hs' as [_ ->].
Qed.

(** [strip_trailing_char] removes characters [c] from the end of the
    string and nothing else, it stops when the last character is another
    one, and it never removes the first character: a string of nothing but
    [c] is left with one of them, and the empty string stays empty. *)
Theorem strip_trailing_char_spec (str : string) (c : ascii) :
  CStr.strlen str <= 2 ^ 31 ->
  exists n, str = strip_trailing_char str c +:+ repeated c n /\
            (str <> EmptyString -> strip_trailing_char str c <> EmptyString) /\
            (ends_with (strip_trailing_char str c) c ->
             strip_trailing_char str c = String c EmptyString).
Proof.
  intros Hlen. unfold strip_trailing_char. rewrite strlen_length in *.
  destruct str as [|x str].
  - exists O. cbn. split; [done|]. split; [done|]. intros [s' Hs']. by destruct s'.
  - cbn [String.length] in *.
    replace (Bytes.to_int (Z.of_nat (S (String.length str)) - 1))
      with (Z.of_nat (String.length str)).
    2:{ unfold Bytes.to_int, Bytes.to_signed.
        rewrite Z.mod_small by lia.
        destruct (Z.ltb_spec (Z.of_nat (S (String.length str)) - 1) (2 ^ (32 - 1))); lia. }
    rewrite Nat2Z.id.
    destruct (strip_trailing_loop_spec c (String.length str) (String x str) eq_refl)
      as (n & Hs & Hne & Hend).
    exists n. done.
Qed.

Lemma strip_trailing_char_spec_witness :
  strip_trailing_char "/sys/fs/bpf///" "/" = "/sys/fs/bpf" /\
  strip_trailing_char "///" "/" = "/" /\
  exists n, "///" = strip_trailing_char "///" "/" +:+ repeated "/" n.
Proof.
  split; [reflexivity|]. split; [reflexivity|].
  destruct (strip_trailing_char_spec "///" "/") as (n & Hn & _); [by vm_compute|].
  by exists n.
Defined.

(** [replace_with] keeps the length of the string, changes the
    occurrences of [what] into [with] and nothing else, leaves no [what]
    behind when the two characters differ, and leaves a string without
    [what] as it is. *)
Theorem replace_with_spec (str : string) (what with_ : ascii) :
  String.length (replace_with str what with_) = String.length str /\
  (forall i, String.get i (replace_with str what with_) =
             option_map (fun ch => if Ascii.eqb ch what then with_ else ch)
                        (String.get i str)) /\
  (what <> with_ -> occurs what (replace_with str what with_) = false) /\
  (occurs what str = false -> replace_with str what with_ = str).
Proof.
  induction str as [|ch str (IHlen & IHget & IHnone & IHsame)].
  { repeat split; try done; by intros []. }
  cbn [replace_with String.length occurs]. repeat split.
  - by rewrite IHlen.
  - intros [|i]; [done|]. cbn [String.get]. apply IHget.
  - intros Hne. rewrite (IHnone Hne), orb_false_r.
    destruct (Ascii.eqb_spec ch what) as [->|Hch]; by apply Ascii.eqb_neq.
  - intros [Hch Hstr]%orb_false_elim. by rewrite Hch, (IHsame Hstr).
Qed.

(** ** The suffix of a map name *)

Lemma take_token_dot (a rest : string) :
  occurs "." a = false ->
  CStr.take_token "." (a +:+ "." +:+ rest) = (a, rest) /\
  CStr.take_token "." a = (a, EmptyString).
Proof.
  induction a as [|c a IH]; [done|]. cbn [occurs].
  intros [Hc Ha]%orb_false_elim. rewrite append_cons. cbn [CStr.take_token CStr.is_delim].
  rewrite Hc. cbn [orb]. destruct (IH Ha) as [-> ->]. done.
Qed.

Lemma strtok_dot (a rest : string) :
  a <> EmptyString -> occurs "." a = false ->
  CStr.strtok (a +:+ "." +:+ rest) "." = (Some a, rest) /\
  CStr.strtok a "." = (Some a, EmptyString).
Proof.
  intros Hne Ha. destruct (take_token_dot a rest Ha) as [H1 H2].
  destruct a as [|c a]; [done|]. unfold CStr.strtok.
  cbn [occurs] in Ha. apply orb_false_elim in Ha as [Hc _].
  rewrite append_cons. cbn [CStr.skip_delims CStr.is_delim]. rewrite Hc. cbn [orb].
  rewrite append_cons in H1. by rewrite H1, H2.
Qed.

(** The suffix that [run] looks up is the second token of the name, the
    dot being the separator: of a name of three tokens it is the one in
    the middle, not the last; a dot at the head of the name is skipped; and
    a name of one token has no suffix. *)
Theorem name_suffix_second_token (a b rest : string) :
  a <> EmptyString -> occurs "." a = false ->
  b <> EmptyString -> occurs "." b = false ->
  name_suffix (a +:+ "." +:+ b) = Some b /\
  name_suffix (a +:+ "." +:+ b +:+ "." +:+ rest) = Some b /\
  name_suffix ("." +:+ a +:+ "." +:+ b) = Some b /\
  name_suffix a = None /\
  name_suffix ("." +:+ a) = None.
Proof.
  intros Hna Ha Hnb Hb. unfold name_suffix.
  destruct (strtok_dot a b Hna Ha) as [H1 H2].
  destruct (strtok_dot a (b +:+ "." +:+ rest) Hna Ha) as [H3 _].
  destruct (strtok_dot b rest Hnb Hb) as [H4 H5].
  assert (Hskip : forall s, CStr.strtok ("." +:+ s) "." = CStr.strtok s ".") by done.
  rewrite !Hskip, H1, H2, H3, H4, H5. done.
Qed.

Lemma name_suffix_second_token_witness :
  name_suffix "my.prog.profc" = Some "prog" /\
  get_pin_path (sample_args None) (name_suffix "my.prog.profc") "" = Some (0, "").
Proof.
  destruct (name_suffix_second_token "my" "prog" "profc") as (_ & H & _); [done..|].
  split; [exact H|reflexivity].
Defined.

(** ** The options of [root_parse] *)

(** The option [--bpffs]: an empty path ends the tool through
    [argp_error]; any other path is kept without the slashes at its end
    (all of it but them, never empty, ending with a slash only when it is
    the root), and nothing else changes. *)
Theorem root_parse_bpffs_spec (arg : string) (args : argp_input) (w : world) :
  CStr.strlen arg <= 2 ^ 31 ->
  (arg = EmptyString ->
   root_parse_bpffs (Some arg) args w =
   Exited argp_err_exit_status
     (set_stderr (fun l => l ++ ["option '--bpffs' requires a path"]) w)) /\
  (arg <> EmptyString ->
   exists path n,
     root_parse_bpffs (Some arg) args w = Ok (with_bpffs (Some path) args) w /\
     arg = path +:+ repeated "/" n /\ path <> EmptyString /\
     (ends_with path "/" -> path = "/")).
Proof.
  intros Hlen. split.
  - intros ->. reflexivity.
  - intros Hne. destruct (strip_trailing_char_spec arg "/" Hlen) as (n & Harg & Hkeep & Hend).
    exists (strip_trailing_char arg "/"), n. unfold root_parse_bpffs.
    replace (0 <? CStr.strlen arg) with true; [by auto|].
    symmetry. apply Z.ltb_lt. destruct arg as [|c arg]; [done|].
    cbn [CStr.strlen]. pose proof (strlen_nonneg arg). lia.
Qed.

Lemma root_parse_bpffs_spec_witness :
  exists path n,
    root_parse_bpffs (Some "/mnt/bpf//") root_args_init (sample_world []) =
    Ok (with_bpffs (Some path) root_args_init) (sample_world []) /\
    "/mnt/bpf//" = path +:+ repeated "/" n /\ path <> EmptyString /\
    (ends_with path "/" -> path = "/").
Proof.
  destruct (root_parse_bpffs_spec "/mnt/bpf//" root_args_init (sample_world []))
    as [_ H]; [by vm_compute|]. by apply H.
Defined.

Lemma strtol_digit (d : Z) (rest : string) :
  0 <= d <= 9 ->
  (forall c r, rest = String c r -> digit_of c = None) ->
  strtol (String (digit_char d) rest) = (d, 1%nat).
Proof.
  intros Hd Hrest.
  assert (Hread : read_digits rest d = (d, O)).
  { destruct rest as [|c r]; [done|]. cbn [read_digits]. by rewrite (Hrest c r eq_refl). }
  assert (Hcases : d = 0 \/ d = 1 \/ d = 2 \/ d = 3 \/ d = 4 \/ d = 5 \/ d = 6 \/
                   d = 7 \/ d = 8 \/ d = 9) by lia.
  unfold strtol.
  destruct Hcases as [->|[->|[->|[->|[->|[->|[->|[->|[->| ->]]]]]]]]];
    match goal with
    | |- context [digit_char ?d] =>
        let c := eval vm_compute in (digit_char d) in change (digit_char d) with c
    end;
    cbn [skip_spaces];
    match goal with
    | |- context [isspace ?c] => change (isspace c) with false
    end;
    cbn iota beta; cbn [read_digits];
    match goal with
    | |- context [digit_of ?c] =>
        let v := eval vm_compute in (digit_of c) in change (digit_of c) with v
    end;
    cbn iota beta; rewrite Z.mul_0_r, Z.add_0_l, Hread; reflexivity.
Qed.

(** The option [--verbose] with a level. When the parser returns, the
    level it has set lies between 0 and 3 and nothing else has changed;
    what follows the digits is not looked at, so that a digit followed by
    anything but a digit sets the level of the digit, when it is at most 3;
    and a level that does not start with a number ends the tool. *)
Theorem root_parse_verbosity_level (arg : string) (args : argp_input) (w : world) :
  (forall args' w',
     root_parse_verbosity (Some arg) args w = Ok args' w' ->
     w' = w /\ 0 <= in_verbosity args' <= 3 /\
     args' = with_verbosity (in_verbosity args') args) /\
  (forall d rest,
     0 <= d <= 9 -> (forall c r, rest = String c r -> digit_of c = None) ->
     root_parse_verbosity (Some (String (digit_char d) rest)) args w =
     if d <=? 3 then Ok (with_verbosity d args) w
     else Exited argp_err_exit_status
            (set_stderr (fun l => l ++ ["option '--verbose' requires a level value in [0,3]"])
                        w)) /\
  (snd (strtol arg) = O ->
   root_parse_verbosity (Some arg) args w =
   Exited argp_err_exit_status
     (set_stderr (fun l => l ++ ["option '--verbose' requires a numeric level"]) w)).
Proof.
  split; [|split].
  - intros args' w'. unfold root_parse_verbosity.
    destruct (strtol arg) as [num end_]. rewrite bind_eq.
    destruct (bool_decide (end_ = O)); [done|]. cbn [when ret]. rewrite bind_eq.
    destruct (Z.ltb_spec num 0); [done|]. destruct (Z.ltb_spec 3 num); [done|].
    cbn [orb when ret]. intros [= <- <-]. cbn [in_verbosity with_verbosity].
    assert (Hnum : Bytes.to_int num = num).
    { unfold Bytes.to_int, Bytes.to_signed. rewrite Z.mod_small by lia.
      destruct (Z.ltb_spec num (2 ^ (32 - 1))); lia. }
    rewrite Hnum. done.
  - intros d rest Hd Hrest. unfold root_parse_verbosity.
    rewrite (strtol_digit d rest Hd Hrest). rewrite bind_eq. cbn [bool_decide when ret].
    rewrite bool_decide_eq_false_2 by done. cbn [when ret]. rewrite bind_eq.
    destruct (Z.ltb_spec d 0); [lia|]. cbn [orb].
    destruct (Z.leb_spec d 3), (Z.ltb_spec 3 d); try lia; cbn [when ret].
    + assert (Hnum : Bytes.to_int d = d).
      { unfold Bytes.to_int, Bytes.to_signed. rewrite Z.mod_small by lia.
        destruct (Z.ltb_spec d (2 ^ (32 - 1))); lia. }
      by rewrite Hnum.
    + reflexivity.
  - unfold root_parse_verbosity. destruct (strtol arg) as [num end_]. cbn [snd].
    intros ->. reflexivity.
Qed.

Lemma root_parse_verbosity_level_witness :
  root_parse_verbosity (Some "2abc") root_args_init (sample_world []) =
  Ok (with_verbosity 2 root_args_init) (sample_world []) /\
  root_parse_verbosity (Some "7") root_args_init (sample_world []) =
  Exited argp_err_exit_status
    (set_stderr (fun l => l ++ ["option '--verbose' requires a level value in [0,3]"])
                (sample_world [])).
Proof.
  destruct (root_parse_verbosity_level "2abc" root_args_init (sample_world []))
    as (_ & H & _).
  split.
  - apply (H 2 "abc"); [lia|]. by intros c r [= <- _].
  - apply (H 7 EmptyString); [lia|]. by intros c r.
Defined.

(** The option [--verbose] without a level adds one to the level, and no
    bound is checked: given [n] times it raises the level by [n], beyond 3
    as well. *)
Theorem root_parse_verbosity_counts (n : nat) (args : argp_input) (w : world) :
  in_verbosity args + Z.of_nat n <= INT_MAX ->
  times n (root_parse_verbosity None) args w =
  Ok (with_verbosity (in_verbosity args + Z.of_nat n) args) w.
Proof.
  revert args. induction n as [|n IH]; intros args Hmax.
  - cbn [times]. rewrite Z.add_0_r. by destruct args.
  - cbn [times]. rewrite bind_eq. unfold root_parse_verbosity at 1.
    destruct (Z.eqb_spec (in_verbosity args) INT_MAX); [lia|]. cbn [ret].
    rewrite IH by (cbn [in_verbosity with_verbosity]; lia).
    cbn [in_verbosity with_verbosity]. f_equal. unfold with_verbosity. cbn.
    f_equal. lia.
Qed.

Lemma root_parse_verbosity_counts_witness :
  times 5 (root_parse_verbosity None) root_args_init (sample_world []) =
  Ok (with_verbosity 5 root_args_init) (sample_world []).
Proof.
  apply (root_parse_verbosity_counts 5 root_args_init (sample_world [])).
  by vm_compute.
Defined.

(** ** The arguments of [root_parse] *)

Lemma set_program_at_ok (a : argp_input) (i : Z) (arg : option string)
    (arr : list (option string)) (w : world) :
  in_program a = Some arr -> (Z.to_nat i < length arr)%nat ->
  set_program_at a i arg w = Ok (with_program (Some (<[Z.to_nat i := arg]> arr)) a) w.
Proof.
  intros Ha Hi. unfold set_program_at. rewrite Ha.
  by rewrite bool_decide_eq_true_2 by done.
Qed.

(** The first arguments of the command line are told apart by their first
    three characters: an argument that begins with [run] selects [run],
    one that begins with [gen] selects [gen], whatever follows these
    characters, and such an argument is not kept as a program. Any other
    argument is stored in [program] at the index [arg_num], where it is
    read back, and the command is not touched. *)
Theorem root_parse_arg_by_prefix (run_cmd gen_cmd : argp_state -> M argp_state)
    (arg : string) (state : argp_state) (w : world) :
  (forall rest, arg = "run" +:+ rest ->
     root_parse_arg run_cmd gen_cmd arg state w =
     run_cmd (with_input (with_command (Some cmd_run) (input state)) state) w) /\
  (forall rest, arg = "gen" +:+ rest ->
     root_parse_arg run_cmd gen_cmd arg state w =
     gen_cmd (with_input (with_command (Some cmd_gen) (input state)) state) w) /\
  (forall arr,
     (forall rest, arg <> "run" +:+ rest) -> (forall rest, arg <> "gen" +:+ rest) ->
     in_program (input state) = Some arr ->
     (Z.to_nat (arg_num state) < length arr)%nat ->
     exists args',
       root_parse_arg run_cmd gen_cmd arg state w = Ok (with_input args' state) w /\
       program_at args' (arg_num state) w = Ok (Some arg) w /\
       in_command args' = in_command (input state) /\
       forall j, Z.to_nat j <> Z.to_nat (arg_num state) ->
                 program_at args' j w = program_at (input state) j w).
Proof.
  split; [|split].
  - intros rest ->. unfold root_parse_arg.
    pose proof (strncmp_prefix_zero "run" rest) as H0.
    change (String.length "run") with 3%nat in H0. by rewrite H0.
  - intros rest ->. unfold root_parse_arg.
    pose proof (strncmp_prefix_zero "gen" rest) as H0.
    change (String.length "gen") with 3%nat in H0. by rewrite H0.
  - intros arr Hrun Hgen Harr Hi. unfold root_parse_arg.
    destruct (Z.eqb_spec (CStr.strncmp arg "run" 3) 0) as [H0|_].
    { apply (strncmp_zero_prefix "run") in H0 as [rest ->]; [by destruct (Hrun rest)|].
      vm_compute. intros H. repeat (apply elem_of_cons in H as [H|H]; [done|]).
      by apply elem_of_nil in H. }
    destruct (Z.eqb_spec (CStr.strncmp arg "gen" 3) 0) as [H0|_].
    { apply (strncmp_zero_prefix "gen") in H0 as [rest ->]; [by destruct (Hgen rest)|].
      vm_compute. intros H. repeat (apply elem_of_cons in H as [H|H]; [done|]).
      by apply elem_of_nil in H. }
    rewrite bind_eq, (set_program_at_ok _ _ _ arr) by done. cbn [ret].
    eexists. split; [reflexivity|]. unfold program_at. cbn [in_program with_program].
    split; [by rewrite list_lookup_insert_eq by done|]. split; [done|].
    intros j Hj. rewrite Harr. by rewrite list_lookup_insert_ne by done.
Qed.

Lemma root_parse_arg_by_prefix_witness :
  (forall run_cmd gen_cmd w,
     root_parse_arg run_cmd gen_cmd "runner"
       {| input := root_args_init; arg_num := 0 |} w =
     run_cmd {| input := with_command (Some cmd_run) root_args_init; arg_num := 0 |} w) /\
  (forall run_cmd gen_cmd w,
     root_parse_arg run_cmd gen_cmd "generated.o"
       {| input := root_args_init; arg_num := 0 |} w =
     gen_cmd {| input := with_command (Some cmd_gen) root_args_init; arg_num := 0 |} w).
Proof.
  split; intros run_cmd gen_cmd w.
  - destruct (root_parse_arg_by_prefix run_cmd gen_cmd "runner"
                {| input := root_args_init; arg_num := 0 |} w) as (H & _).
    by apply (H "ner").
  - destruct (root_parse_arg_by_prefix run_cmd gen_cmd "generated.o"
                {| input := root_args_init; arg_num := 0 |} w) as (_ & H & _).
    by apply (H "erated.o").
Defined.

(** ** The case [ARGP_KEY_FINI] of [root_parse] *)

Lemma bind_when_argp_error {B} (c : bool) (text : string) (k : unit -> M B)
    (w : world) :
  bind (when c (argp_error text)) k w =
  if c then Exited argp_err_exit_status (set_stderr (fun l => l ++ [text]) w)
  else k tt w.
Proof. by destruct c. Qed.

Lemma length_bytes_of_string (s : string) :
  length (bytes_of_string s) = String.length s.
Proof.
  unfold bytes_of_string. rewrite length_map.
  induction s as [|c s IH]; [done|]. cbn. by rewrite IH.
Qed.

Lemma string_of_bytes_of_string (s : string) :
  string_of_bytes (bytes_of_string s) = s.
Proof.
  unfold string_of_bytes, bytes_of_string.
  induction s as [|c s IH]; [done|]. cbn. by rewrite ascii_of_byte_of_ascii, IH.
Qed.

Lemma byte_of_ascii_nul (c : ascii) : byte_of_ascii c = x00 -> c = CStr.NUL.
Proof.
  intros H. apply (f_equal ascii_of_byte) in H.
  by rewrite ascii_of_byte_of_ascii in H.
Qed.

Lemma before_nul_bytes (s : string) (rest : list byte) :
  occurs CStr.NUL s = false ->
  before_nul (bytes_of_string s ++ x00 :: rest) = Some (bytes_of_string s).
Proof.
  unfold bytes_of_string. induction s as [|c s IH]; [done|].
  cbn [occurs]. intros [Hc Hs]%orb_false_elim. cbn.
  rewrite bool_decide_eq_false_2.
  - unfold bytes_of_string in IH. by rewrite (IH Hs).
  - intros H%byte_of_ascii_nul. subst c. done.
Qed.

Lemma occurs_append (c : ascii) (s t : string) :
  occurs c (s +:+ t) = occurs c s || occurs c t.
Proof.
  induction s as [|x s IH]; [done|]. rewrite append_cons. cbn [occurs].
  by rewrite IH, orb_assoc.
Qed.

Lemma occurs_replace_with (c what with_ : ascii) (s : string) :
  c <> with_ -> occurs c s = false -> occurs c (replace_with s what with_) = false.
Proof.
  intros Hc. induction s as [|x s IH]; [done|]. cbn [occurs replace_with].
  intros [Hx Hs]%orb_false_elim. rewrite (IH Hs), orb_false_r.
  destruct (Ascii.eqb x what); [|done]. apply Ascii.eqb_neq. congruence.
Qed.

Lemma occurs_basename_from (c : ascii) (base path : string) :
  occurs c base = false -> occurs c path = false ->
  occurs c (basename_from base path) = false.
Proof.
  revert base. induction path as [|x path IH]; intros base Hb; [done|].
  cbn [occurs basename_from]. intros [Hx Hp]%orb_false_elim.
  destruct (Ascii.eqb x "/"); by apply IH.
Qed.

(** What [strdup], [replace_with] and the reading of the result come to,
    for a C string. *)
Lemma strdup_replace (s : string) (what with_ : ascii) {B} (k : string -> M B)
    (w : world) :
  occurs CStr.NUL s = false -> with_ <> CStr.NUL ->
  (let* p := strdup s in
   let* _ := replace_with_at p what with_ in
   let* sane := string_at p in
   k sane) w =
  if hd true (w_malloc w)
  then k (replace_with s what with_) (with_block (replace_with s what with_) w)
  else Undef.
Proof.
  intros Hs Hwith. unfold strdup. rewrite !bind_eq, malloc_eq.
  destruct (hd true (w_malloc w)); [|reflexivity].
  set (w1 := set_heap _ _).
  assert (Hlen : Z.to_nat (CStr.strlen s + 1) = S (String.length s)).
  { rewrite strlen_length. lia. }
  assert (Hb1 : block w1 (Some (length (w_heap w))) =
                Some (replicate (Z.to_nat (CStr.strlen s + 1)) (w_junk w))).
  { unfold block, w1. wsimpl. by rewrite list_lookup_middle. }
  rewrite bind_eq, (store_ok _ 0 _ _ w1 Hb1).
  2:{ rewrite length_app, length_bytes_of_string, length_replicate, Hlen. cbn. lia. }
  cbn [ret]. set (w2 := set_heap _ w1).
  assert (Hb2 : block w2 (Some (length (w_heap w))) = Some (bytes_of_string s ++ [x00])).
  { unfold block, w2, w1. wsimpl. rewrite list_lookup_insert_eq.
    - simpl. f_equal.
      rewrite drop_ge, app_nil_r; [done|].
      rewrite length_app, length_bytes_of_string, length_replicate, Hlen. cbn. lia.
    - rewrite length_app. cbn. lia. }
  unfold replace_with_at. rewrite bind_eq. rewrite bind_eq. unfold string_at at 1. rewrite Hb2.
  rewrite (before_nul_bytes s [] Hs), string_of_bytes_of_string.
  rewrite (store_ok _ 0 _ _ w2 Hb2).
  2:{ rewrite length_app, !length_bytes_of_string.
      destruct (replace_with_spec s what with_) as [-> _]. cbn. lia. }
  set (w3 := set_heap _ w2).
  assert (Hb3 : block w3 (Some (length (w_heap w))) =
                Some (bytes_of_string (replace_with s what with_) ++ [x00])).
  { unfold block, w3, w2, w1. wsimpl. rewrite list_lookup_insert_eq.
    - rewrite length_bytes_of_string. destruct (replace_with_spec s what with_) as [-> _].
      simpl. f_equal. f_equal.
      rewrite <- (length_bytes_of_string s). by rewrite drop_app_length.
    - rewrite length_insert, length_app. cbn. lia. }
  cbv beta iota. rewrite bind_eq. unfold string_at. rewrite Hb3.
  rewrite before_nul_bytes, string_of_bytes_of_string.
  2:{ apply occurs_replace_with; [congruence|done]. }
  f_equal. unfold with_block, w3, w2, w1. apply world_eq; wsimpl; try done.
  rewrite !list_insert_insert_eq. rewrite insert_app_r_alt by lia.
  rewrite Nat.sub_diag. simpl. do 3 f_equal.
  rewrite length_bytes_of_string. destruct (replace_with_spec s what with_) as [-> _].
  rewrite <- (length_bytes_of_string s). by rewrite drop_app_length.
Qed.

Section FiniRoots.

Variable DEBUG : bool.
Variable fs : mounts.
Variables (args : argp_input) (w : world).
Variables (bpffs_path program0 : string) (arr : list (option string)).

Hypothesis Hbpffs : in_bpffs args = Some bpffs_path.
Hypothesis Hprogram : in_program args = Some arr.
Hypothesis Hprogram0 : arr !! 0%nat = Some (Some program0).
Hypothesis Hcb : c_string bpffs_path.
Hypothesis Hcp : c_string program0.

Lemma c_string_prog_root : c_string (prog_root_of bpffs_path program0).
Proof.
  unfold c_string, prog_root_of, cov_root_of in *. rewrite !occurs_append, Hcb.
  change (occurs CStr.NUL "/") with false. change (occurs CStr.NUL "cov") with false.
  cbn [orb]. by apply occurs_basename_from.
Qed.

(** The case, up to the pinning paths, as one test after the other. *)
Lemma root_parse_fini_roots_eq :
  root_parse_fini_roots DEBUG fs args w =
  let is_run := bool_decide (in_command args = Some cmd_run) in
  let cov := cov_root_of bpffs_path in
  let sane := replace_with (prog_root_of bpffs_path program0) "." "_" in
  if negb (is_bpffs fs bpffs_path) then
    Exited argp_err_exit_status
      (set_stderr (fun l => l ++ ["the BPF filesystem is not mounted at " +:+ bpffs_path]) w)
  else if PATH_MAX <=? CStr.strlen cov then
    Exited argp_err_exit_status
      (set_stderr (fun l => l ++ ["coverage root path too long"]) w)
  else if is_run && mkdir_fails fs cov then
    Exited argp_err_exit_status
      (set_stderr (fun l => l ++ ["could not create '" +:+ cov +:+ "'"]) w)
  else if PATH_MAX <=? CStr.strlen (prog_root_of bpffs_path program0) then
    Exited argp_err_exit_status
      (set_stderr (fun l => l ++ ["program root path too long"]) w)
  else if hd true (w_malloc w) then
    if is_run && mkdir_fails fs sane then
      Exited argp_err_exit_status
        (set_stderr (fun l => l ++ ["could not create '" +:+ sane +:+ "'"])
                    (with_block sane w))
    else
      Ok (with_paths (Some cov) (Some sane) (in_pin args) args)
         (set_stdout (fun l => l ++ log_lines DEBUG 2 (root_args_of args)
                         ("root directory for map pins at '" +:+ sane +:+ "'" +:+ CStr.NL))
                     (with_block sane w))
  else Undef.
Proof.
  cbv zeta. unfold root_parse_fini_roots. rewrite Hbpffs.
  rewrite bind_when_argp_error. destruct (negb (is_bpffs fs bpffs_path)); [done|].
  rewrite bind_when_argp_error. fold (cov_root_of bpffs_path).
  destruct (PATH_MAX <=? CStr.strlen (cov_root_of bpffs_path)); [done|].
  rewrite bind_when_argp_error, <- andb_assoc. fold (mkdir_fails fs (cov_root_of bpffs_path)).
  destruct (_ && mkdir_fails fs (cov_root_of bpffs_path)); [done|].
  rewrite bind_eq. unfold program_at. rewrite Hprogram. change (Z.to_nat 0) with 0%nat. rewrite Hprogram0.
  cbn [ret]. rewrite bind_when_argp_error. fold (prog_root_of bpffs_path program0).
  destruct (PATH_MAX <=? CStr.strlen (prog_root_of bpffs_path program0)); [done|].
  rewrite strdup_replace; [|apply c_string_prog_root|done].
  destruct (hd true (w_malloc w)); [|done].
  rewrite bind_when_argp_error, <- andb_assoc.
  fold (mkdir_fails fs (replace_with (prog_root_of bpffs_path program0) "." "_")).
  destruct (_ && mkdir_fails fs _); [done|].
  by rewrite bind_eq, log_info_eq.
Qed.

End FiniRoots.

(** The directory of the pins of a program is the path
    [<bpffs>/cov/<basename of the program>] with every dot of it, those of
    the bpffs path included, turned into an underscore. The case is passed
    when the bpffs is mounted there, the path fits in [PATH_MAX], the copy
    of the path can be allocated and, for [run], the two directories exist
    or can be made; and whenever the case is passed the path that it
    leaves in the arguments has this form, holds no dot, and is shorter
    than [PATH_MAX]. *)
Theorem root_parse_fini_sanitizes (DEBUG : bool) (fs : mounts) (args : argp_input)
    (w : world) (bpffs_path program0 : string) (arr : list (option string)) :
  in_bpffs args = Some bpffs_path ->
  in_program args = Some arr ->
  arr !! 0%nat = Some (Some program0) ->
  c_string bpffs_path -> c_string program0 ->
  let sane := replace_with (prog_root_of bpffs_path program0) "." "_" in
  (is_bpffs fs bpffs_path = true ->
   CStr.strlen (prog_root_of bpffs_path program0) < PATH_MAX ->
   hd true (w_malloc w) = true ->
   (in_command args = Some cmd_run ->
    mkdir_fails fs (cov_root_of bpffs_path) = false /\ mkdir_fails fs sane = false) ->
   exists w',
     root_parse_fini_roots DEBUG fs args w =
     Ok (with_paths (Some (cov_root_of bpffs_path)) (Some sane) (in_pin args) args) w' /\
     w_pins w' = w_pins w /\ w_stderr w' = w_stderr w) /\
  (forall args' w',
     root_parse_fini_roots DEBUG fs args w = Ok args' w' ->
     in_cov_root args' = Some (cov_root_of bpffs_path) /\
     in_prog_root args' = Some sane /\
     occurs "." sane = false /\
     CStr.strlen sane < PATH_MAX /\
     is_bpffs fs bpffs_path = true).
Proof.
  intros Hbpffs Hprogram Hprogram0 Hcb Hcp. cbv zeta.
  rewrite (root_parse_fini_roots_eq DEBUG fs args w bpffs_path program0 arr) by done.
  cbv zeta. split.
  - intros Hfs Hfit Hmalloc Hdirs. rewrite Hfs, Hmalloc. cbn [negb].
    assert (Hcov : CStr.strlen (cov_root_of bpffs_path) < PATH_MAX).
    { unfold prog_root_of in Hfit. rewrite !strlen_append in Hfit.
      pose proof (strlen_nonneg (basename program0)). cbn [CStr.strlen] in Hfit. lia. }
    destruct (Z.leb_spec PATH_MAX (CStr.strlen (cov_root_of bpffs_path))); [lia|].
    destruct (Z.leb_spec PATH_MAX (CStr.strlen (prog_root_of bpffs_path program0))); [lia|].
    destruct (bool_decide_reflect (in_command args = Some cmd_run)) as [Hrun|Hrun].
    + destruct (Hdirs Hrun) as [-> ->]. cbn [andb]. eexists. split; [reflexivity|]. by wsimpl.
    + cbn [andb]. eexists. split; [reflexivity|]. by wsimpl.
  - intros args' w'.
    destruct (is_bpffs fs bpffs_path); [|done]. cbn [negb].
    destruct (PATH_MAX <=? CStr.strlen (cov_root_of bpffs_path)); [done|].
    destruct (_ && mkdir_fails fs (cov_root_of bpffs_path)); [done|].
    destruct (Z.leb_spec PATH_MAX (CStr.strlen (prog_root_of bpffs_path program0)));
      [done|].
    destruct (hd true (w_malloc w)); [|done].
    destruct (_ && mkdir_fails fs _); [done|].
    intros [= <- <-]. cbn [in_cov_root in_prog_root with_paths].
    destruct (replace_with_spec (prog_root_of bpffs_path program0) "." "_")
      as (Hlen & _ & Hnone & _).
    repeat split; [by apply Hnone|].
    rewrite strlen_length, Hlen, <- strlen_length. done.
Qed.

Lemma root_parse_fini_sanitizes_witness :
  exists w',
    root_parse_fini_roots true sample_mounts
      (sample_input "/mnt/my.bpf" (Some cmd_run) "./build/probe.bpf.o") (sample_world []) =
    Ok (with_paths (Some "/mnt/my.bpf/cov") (Some "/mnt/my_bpf/cov/probe_bpf_o")
          (replicate NUM_PINNED_MAPS None)
          (sample_input "/mnt/my.bpf" (Some cmd_run) "./build/probe.bpf.o")) w' /\
    w_pins w' = w_pins (sample_world []) /\ w_stderr w' = w_stderr (sample_world []).
Proof.
  destruct (root_parse_fini_sanitizes true sample_mounts
              (sample_input "/mnt/my.bpf" (Some cmd_run) "./build/probe.bpf.o")
              (sample_world []) "/mnt/my.bpf" "./build/probe.bpf.o"
              (<[0%nat := Some "./build/probe.bpf.o"]> (replicate (Z.to_nat PATH_MAX) None)))
    as [H _]; [reflexivity..|].
  apply H; [reflexivity|by vm_compute|reflexivity|].
  intros _. split; reflexivity.
Defined.

(** The copy that [strdup] makes of the path is not checked: if the
    allocation fails where everything before it went well, [replace_with]
    is handed a NULL pointer. *)
Theorem root_parse_fini_strdup_unchecked (DEBUG : bool) (fs : mounts)
    (args : argp_input) (w : world) (bpffs_path program0 : string)
    (arr : list (option string)) :
  in_bpffs args = Some bpffs_path ->
  in_program args = Some arr ->
  arr !! 0%nat = Some (Some program0) ->
  c_string bpffs_path -> c_string program0 ->
  is_bpffs fs bpffs_path = true ->
  CStr.strlen (prog_root_of bpffs_path program0) < PATH_MAX ->
  (in_command args = Some cmd_run -> mkdir_fails fs (cov_root_of bpffs_path) = false) ->
  hd true (w_malloc w) = false ->
  root_parse_fini_roots DEBUG fs args w = Undef.
Proof.
  intros Hbpffs Hprogram Hprogram0 Hcb Hcp Hfs Hfit Hdir Hmalloc.
  rewrite (root_parse_fini_roots_eq DEBUG fs args w bpffs_path program0 arr) by done.
  cbv zeta. rewrite Hfs, Hmalloc. cbn [negb].
  assert (Hcov : CStr.strlen (cov_root_of bpffs_path) < PATH_MAX).
  { unfold prog_root_of in Hfit. rewrite !strlen_append in Hfit.
    pose proof (strlen_nonneg (basename program0)). cbn [CStr.strlen] in Hfit. lia. }
  destruct (Z.leb_spec PATH_MAX (CStr.strlen (cov_root_of bpffs_path))); [lia|].
  destruct (Z.leb_spec PATH_MAX (CStr.strlen (prog_root_of bpffs_path program0))); [lia|].
  destruct (bool_decide_reflect (in_command args = Some cmd_run)) as [Hrun|Hrun].
  - by rewrite (Hdir Hrun).
  - done.
Qed.

Lemma root_parse_fini_strdup_unchecked_witness :
  root_parse_fini_roots true sample_mounts
    (sample_input "/sys/fs/bpf" (Some cmd_gen) "prog")
    (set_malloc (fun _ => [false]) (sample_world [])) = Undef.
Proof.
  apply (root_parse_fini_strdup_unchecked true sample_mounts
           (sample_input "/sys/fs/bpf" (Some cmd_gen) "prog")
           (set_malloc (fun _ => [false]) (sample_world [])) "/sys/fs/bpf" "prog"
           (<[0%nat := Some "prog"]> (replicate (Z.to_nat PATH_MAX) None)));
    first [reflexivity | by vm_compute | done].
Defined.

Lemma root_parse_fini_inv (DEBUG : bool) (a a' : root_args) (w w' : world) :
  root_parse_fini DEBUG a w = Ok a' w' ->
  a' = with_pins a /\ CStr.strlen (prog_root a) + 7 < PATH_MAX.
Proof.
  unfold root_parse_fini. cbv zeta.
  repeat (rewrite bind_when_argp_error;
          match goal with
          | |- context [ PATH_MAX <=? CStr.strlen ?s ] =>
              destruct (Z.leb_spec PATH_MAX (CStr.strlen s)); [done|]
          end).
  rewrite bind_eq. destruct (check_pins _ _ _ _ _ _) as [[] w1| |]; [|done..].
  intros [= <- <-]. split; [reflexivity|].
  repeat match goal with
         | H : CStr.strlen _ < PATH_MAX |- _ =>
             rewrite !strlen_append in H; cbn [CStr.strlen] in H
         end.
  lia.
Qed.

(** Whenever the case [ARGP_KEY_FINI] is passed, the four pinning paths
    that [run] and [gen] get are the sanitized directory of the program
    followed by [/profc], [/profd], [/profn] and [/covmap]; none of them
    holds a dot and each is shorter than [PATH_MAX]; the command, the
    verbosity and the program are those of the command line. *)
Theorem root_parse_fini_case_pins (DEBUG : bool) (fs : mounts) (args : argp_input)
    (w w' : world) (args' : root_args) (bpffs_path program0 : string)
    (arr : list (option string)) :
  in_bpffs args = Some bpffs_path ->
  in_program args = Some arr ->
  arr !! 0%nat = Some (Some program0) ->
  c_string bpffs_path -> c_string program0 ->
  root_parse_fini_case DEBUG fs args w = Ok args' w' ->
  pin args' = pin_paths (replace_with (prog_root_of bpffs_path program0) "." "_") /\
  Forall (fun path => occurs "." path = false /\ CStr.strlen path < PATH_MAX) (pin args') /\
  command args' = in_command args /\
  verbosity args' = in_verbosity args /\
  program args' = until_null arr.
Proof.
  intros Hbpffs Hprogram Hprogram0 Hcb Hcp. unfold root_parse_fini_case.
  rewrite bind_eq.
  destruct (root_parse_fini_roots DEBUG fs args w) as [roots w1| |] eqn:Hroots; [|done..].
  destruct (root_parse_fini_sanitizes DEBUG fs args w bpffs_path program0 arr
              Hbpffs Hprogram Hprogram0 Hcb Hcp) as [_ Hinv].
  destruct (Hinv roots w1 Hroots) as (Hcov & Hprog & Hdots & Hlen & Hfs).
  intros [-> Hfit]%root_parse_fini_inv.
  assert (Hroot : prog_root (root_args_of roots) =
                  replace_with (prog_root_of bpffs_path program0) "." "_").
  { unfold root_args_of. cbn [prog_root]. by rewrite Hprog. }
  rewrite Hroot in Hfit.
  assert (Hrest : in_command roots = in_command args /\
                  in_verbosity roots = in_verbosity args /\
                  in_program roots = in_program args).
  { rewrite (root_parse_fini_roots_eq DEBUG fs args w bpffs_path program0 arr) in Hroots
      by done.
    cbv zeta in Hroots.
    repeat match type of Hroots with
           | (if ?c then _ else _) = _ => destruct c; [try done|try done]
           end.
    by injection Hroots as <- _. }
  destruct Hrest as (Hc & Hv & Hp).
  unfold with_pins, set_pin. cbn [pin command verbosity program]. rewrite Hroot.
  split; [reflexivity|]. split.
  - unfold pin_paths. repeat apply Forall_cons_2; try apply Forall_nil_2;
      (split; [rewrite !occurs_append, Hdots; reflexivity
              |rewrite !strlen_append; cbn [CStr.strlen]; lia]).
  - unfold root_args_of. cbn [command verbosity program]. by rewrite Hc, Hv, Hp, Hprogram.
Qed.

Lemma root_parse_fini_case_pins_witness :
  exists args' w',
    root_parse_fini_case true sample_mounts
      (sample_input "/sys/fs/bpf" (Some cmd_run) "./build/probe.bpf.o") (sample_world []) =
    Ok args' w' /\
    pin args' = ["/sys/fs/bpf/cov/probe_bpf_o/profc"; "/sys/fs/bpf/cov/probe_bpf_o/profd";
                 "/sys/fs/bpf/cov/probe_bpf_o/profn"; "/sys/fs/bpf/cov/probe_bpf_o/covmap"] /\
    program args' = ["./build/probe.bpf.o"].
Proof.
  eexists _, _. split; [vm_compute; reflexivity|].
  match goal with
  | |- pin ?a = _ /\ _ =>
      destruct (root_parse_fini_case_pins true sample_mounts
                  (sample_input "/sys/fs/bpf" (Some cmd_run) "./build/probe.bpf.o")
                  (sample_world []) _ a "/sys/fs/bpf" "./build/probe.bpf.o"
                  (<[0%nat := Some "./build/probe.bpf.o"]>
                     (replicate (Z.to_nat PATH_MAX) None))
                  eq_refl eq_refl eq_refl eq_refl eq_refl ltac:(vm_compute; reflexivity))
        as (Hpins & _ & _ & _ & Hprog)
  end.
  split; [exact Hpins|exact Hprog].
Defined.

(** ** The parsers of the commands *)

Section CommandParsers.

Variable DEBUG : bool.
Variables (arg : option string) (state : argp_state) (w : world).
Variables (arr : list (option string)).

Hypothesis Hprogram : in_program (input state) = Some arr.

(** The world once a parser has logged the key it is given. *)
Local Abbreviation logged parser key :=
  (set_stdout (fun l => l ++ log_lines DEBUG 3 (root_args_of (input state))
                 ("parsing <" +:+ parser +:+ "> " +:+ argp_key key +:+ " = '"
                  +:+ shown arg +:+ "'" +:+ CStr.NL)) w).

Lemma parse_end_program_missing :
  arr !! 0%nat = Some None ->
  forall w0, parse_end_program (input state) w0 =
             Exited argp_err_exit_status
               (set_stderr (fun l => l ++ ["missing program argument"]) w0).
Proof.
  intros H0 w0. unfold parse_end_program, program_at. rewrite Hprogram.
  change (Z.to_nat 0) with 0%nat. by rewrite H0.
Qed.

Lemma parse_end_program_absent (program0 : string) :
  arr !! 0%nat = Some (Some program0) ->
  forall w0, w_files w0 !! program0 = None -> w_pins w0 !! program0 = None ->
  parse_end_program (input state) w0 =
  Exited argp_err_exit_status
    (set_stderr (fun l => l ++ ["program '" +:+ program0 +:+ "' does not actually exist"])
                w0).
Proof.
  intros H0 w0 Hf Hp. unfold parse_end_program, program_at. rewrite Hprogram.
  change (Z.to_nat 0) with 0%nat. rewrite H0. rewrite bind_ret, bind_eq.
  unfold access_any, access. rewrite Hf, Hp. reflexivity.
Qed.

Lemma parse_end_program_present (program0 : string) :
  arr !! 0%nat = Some (Some program0) ->
  forall w0, is_Some (w_files w0 !! program0) ->
  parse_end_program (input state) w0 = Ok program0 w0.
Proof.
  intros H0 w0 [bs Hf]. unfold parse_end_program, program_at. rewrite Hprogram.
  change (Z.to_nat 0) with 0%nat. rewrite H0. rewrite bind_ret, bind_eq.
  unfold access_any. rewrite Hf. reflexivity.
Qed.

Lemma gen_parse_end_eq :
  gen_parse DEBUG ARGP_KEY_END arg state w =
  (let* program0 := parse_end_program (input state) in
   match in_output (input state) with
   | Some _ => ret (0, state)
   | None =>
       let output_path := program0 +:+ "." +:+ "profraw" in
       let* _ := when (PATH_MAX <=? CStr.strlen output_path)
                   (argp_error "output path too long") in
       ret (0, with_input (with_output (Some output_path) (input state)) state)
   end) (logged "gen" ARGP_KEY_END).
Proof. unfold gen_parse. by rewrite bind_eq, log_debu_eq. Qed.

Lemma run_parse_end_eq :
  run_parse DEBUG ARGP_KEY_END arg state w =
  (let* _ := parse_end_program (input state) in ret (0, state))
    (logged "run" ARGP_KEY_END).
Proof. unfold run_parse. by rewrite bind_eq, log_debu_eq. Qed.

End CommandParsers.

(** At the end of the arguments of [run] and of [gen], a command line
    that names no program, or a program that does not exist, ends the tool
    through [argp_error]; a program that exists lets [run_parse] return 0
    with the arguments as they are. *)
Theorem commands_require_program (DEBUG : bool) (arg : option string)
    (state : argp_state) (w : world) (arr : list (option string)) :
  in_program (input state) = Some arr ->
  (arr !! 0%nat = Some None ->
   exists w1 w2,
     run_parse DEBUG ARGP_KEY_END arg state w = Exited argp_err_exit_status w1 /\
     gen_parse DEBUG ARGP_KEY_END arg state w = Exited argp_err_exit_status w2 /\
     w_stderr w1 = w_stderr w ++ ["missing program argument"] /\
     w_stderr w2 = w_stderr w ++ ["missing program argument"]) /\
  (forall program0,
     arr !! 0%nat = Some (Some program0) ->
     w_files w !! program0 = None -> w_pins w !! program0 = None ->
     exists w1 w2,
       run_parse DEBUG ARGP_KEY_END arg state w = Exited argp_err_exit_status w1 /\
       gen_parse DEBUG ARGP_KEY_END arg state w = Exited argp_err_exit_status w2 /\
       w_stderr w1 =
       w_stderr w ++ ["program '" +:+ program0 +:+ "' does not actually exist"] /\
       w_stderr w2 =
       w_stderr w ++ ["program '" +:+ program0 +:+ "' does not actually exist"]) /\
  (forall program0,
     arr !! 0%nat = Some (Some program0) -> is_Some (w_files w !! program0) ->
     exists w1, run_parse DEBUG ARGP_KEY_END arg state w = Ok (0, state) w1 /\
                w_stderr w1 = w_stderr w /\ w_files w1 = w_files w).
Proof.
  intros Hprogram. split; [|split].
  - intros H0. rewrite run_parse_end_eq, gen_parse_end_eq, !bind_eq.
    rewrite !(parse_end_program_missing state arr Hprogram H0).
    eexists _, _. by repeat split.
  - intros program0 H0 Hf Hp. rewrite run_parse_end_eq, gen_parse_end_eq, !bind_eq.
    rewrite !(parse_end_program_absent state arr Hprogram program0 H0) by done.
    eexists _, _. by repeat split.
  - intros program0 H0 Hf. rewrite run_parse_end_eq, bind_eq.
    rewrite (parse_end_program_present state arr Hprogram program0 H0) by done.
    eexists. by repeat split.
Qed.

Lemma commands_require_program_witness :
  exists w1,
    run_parse true ARGP_KEY_END None
      {| input := sample_input "/sys/fs/bpf" (Some cmd_run) "prog"; arg_num := 1 |}
      (sample_world []) = Exited argp_err_exit_status w1 /\
    w_stderr w1 = ["program 'prog' does not actually exist"].
Proof.
  destruct (commands_require_program true None
              {| input := sample_input "/sys/fs/bpf" (Some cmd_run) "prog"; arg_num := 1 |}
              (sample_world [])
              (<[0%nat := Some "prog"]> (replicate (Z.to_nat PATH_MAX) None)) eq_refl)
    as (_ & H & _).
  destruct (H "prog" eq_refl eq_refl eq_refl) as (w1 & w2 & H1 & _ & Herr & _).
  exists w1. split; [exact H1|exact Herr].
Defined.

(** The output of [gen]. The option [--output] takes any path but the
    empty one, which ends the tool. At the end of the arguments an output
    that was given is kept; without one the output is the program followed
    by [.profraw], unless that path does not fit in [PATH_MAX], which ends
    the tool. *)
Theorem gen_parse_output (DEBUG : bool) (arg : option string) (state : argp_state)
    (w : world) (arr : list (option string)) (program0 : string) :
  in_program (input state) = Some arr ->
  arr !! 0%nat = Some (Some program0) ->
  is_Some (w_files w !! program0) ->
  (forall path, path <> EmptyString ->
     exists w1,
       gen_parse DEBUG GEN_OUTPUT_OPT_KEY (Some path) state w =
       Ok (0, with_input (with_output (Some path) (input state)) state) w1) /\
  (exists w1,
     gen_parse DEBUG GEN_OUTPUT_OPT_KEY (Some EmptyString) state w =
     Exited argp_err_exit_status w1 /\
     w_stderr w1 = w_stderr w ++ ["option '--output' requires a path"]) /\
  (forall path, in_output (input state) = Some path ->
     exists w1, gen_parse DEBUG ARGP_KEY_END arg state w = Ok (0, state) w1) /\
  (in_output (input state) = None ->
   exists w1,
     gen_parse DEBUG ARGP_KEY_END arg state w =
     (if PATH_MAX <=? CStr.strlen program0 + 8
      then Exited argp_err_exit_status w1
      else Ok (0, with_input (with_output (Some (program0 +:+ ".profraw")) (input state))
                    state) w1) /\
     w_stderr w1 =
     w_stderr w ++ (if PATH_MAX <=? CStr.strlen program0 + 8
                    then ["output path too long"] else [])).
Proof.
  intros Hprogram H0 Hf. split; [|split; [|split]].
  - intros path Hne. unfold gen_parse. rewrite bind_eq, log_debu_eq.
    change (GEN_OUTPUT_OPT_KEY =? GEN_OUTPUT_OPT_KEY) with true. cbv beta iota.
    replace (0 <? CStr.strlen path) with true; [by eexists|].
    symmetry. apply Z.ltb_lt. destruct path as [|c path]; [done|].
    cbn [CStr.strlen]. pose proof (strlen_nonneg path). lia.
  - unfold gen_parse. rewrite bind_eq, log_debu_eq.
    change (GEN_OUTPUT_OPT_KEY =? GEN_OUTPUT_OPT_KEY) with true. cbv beta iota.
    change (0 <? CStr.strlen EmptyString) with false. cbv beta iota.
    rewrite argp_error_eq. eexists. split; [reflexivity|]. by wsimpl.
  - intros path Hout. rewrite gen_parse_end_eq, bind_eq.
    rewrite (parse_end_program_present state arr Hprogram program0 H0) by done.
    rewrite Hout. by eexists.
  - intros Hout. rewrite gen_parse_end_eq, bind_eq.
    rewrite (parse_end_program_present state arr Hprogram program0 H0) by done.
    rewrite Hout. cbv zeta. rewrite bind_when_argp_error.
    replace (CStr.strlen (program0 +:+ "." +:+ "profraw")) with (CStr.strlen program0 + 8)
      by (rewrite !strlen_append; cbn [CStr.strlen]; lia).
    destruct (PATH_MAX <=? CStr.strlen program0 + 8).
    + eexists. split; [reflexivity|]. by wsimpl.
    + eexists. split; [reflexivity|]. wsimpl. by rewrite app_nil_r.
Qed.

Lemma gen_parse_output_witness :
  exists w1,
    gen_parse true ARGP_KEY_END None
      {| input := sample_input "/sys/fs/bpf" (Some cmd_gen) "prog"; arg_num := 1 |}
      (set_files (fun fs => <["prog" := []]> fs) (sample_world [])) =
    Ok (0, {| input := with_output (Some "prog.profraw")
                         (sample_input "/sys/fs/bpf" (Some cmd_gen) "prog");
              arg_num := 1 |}) w1.
Proof.
  destruct (gen_parse_output true None
              {| input := sample_input "/sys/fs/bpf" (Some cmd_gen) "prog"; arg_num := 1 |}
              (set_files (fun fs => <["prog" := []]> fs) (sample_world []))
              (<[0%nat := Some "prog"]> (replicate (Z.to_nat PATH_MAX) None)) "prog"
              eq_refl eq_refl) as (_ & _ & _ & H).
  { by eexists. }
  destruct (H eq_refl) as (w1 & H1 & _). exists w1. exact H1.
Defined.

(** * [run] and [gen] as a whole *)

(** ** Contracts *)

Lemma ensures_ret {A} (R : world -> world -> Prop) `{!Reflexive R}
    (Q : A -> Prop) (E : Z -> Prop) (a : A) :
  Q a -> ensures R Q E (ret a).
Proof. intros Ha w. by split. Qed.

Lemma ensures_exit {A} (R : world -> world -> Prop) `{!Reflexive R}
    (Q : A -> Prop) (E : Z -> Prop) (st : Z) :
  E st -> ensures R Q E (exit (A := A) st).
Proof. intros Hst w. by split. Qed.

Lemma ensures_undefined {A} (R : world -> world -> Prop) (Q : A -> Prop)
    (E : Z -> Prop) :
  ensures R Q E (undefined (A := A)).
Proof. by intros w. Qed.

Lemma ensures_bind {A B} (R : world -> world -> Prop) `{!Transitive R}
    (Q : A -> Prop) (Q' : B -> Prop) (E : Z -> Prop) (m : M A) (k : A -> M B) :
  ensures R Q E m -> (forall a, Q a -> ensures R Q' E (k a)) ->
  ensures R Q' E (bind m k).
Proof.
  intros Hm Hk w. rewrite bind_eq. specialize (Hm w).
  destruct (m w) as [a w1|st w1|]; [|done..].
  destruct Hm as [Hw Ha]. specialize (Hk a Ha w1).
  destruct (k a w1) as [b w2|st w2|]; [| |done];
    (split; [by etrans; [exact Hw|apply Hk]|apply Hk]).
Qed.

Lemma ensures_when (R : world -> world -> Prop) `{!Reflexive R}
    (Q : unit -> Prop) (E : Z -> Prop) (c : bool) (m : M unit) :
  Q tt -> ensures R Q E m -> ensures R Q E (when c m).
Proof. intros Hq Hm. destruct c; [done|by apply ensures_ret]. Qed.

Lemma ensures_weaken {A} (R : world -> world -> Prop) (Q Q' : A -> Prop)
    (E E' : Z -> Prop) (m : M A) :
  ensures R Q E m -> (forall a, Q a -> Q' a) -> (forall st, E st -> E' st) ->
  ensures R Q' E' m.
Proof.
  intros Hm HQ HE w. specialize (Hm w).
  destruct (m w) as [a w1|st w1|]; [| |done]; destruct Hm; split; auto.
Qed.

(** ** What [run] does and does not do *)

#[local] Instance run_frame_refl (DEBUG : bool) (args : root_args) :
  Reflexive (run_frame DEBUG args).
Proof. intros w. unfold run_frame. repeat split; auto. Qed.

#[local] Instance run_frame_trans (DEBUG : bool) (args : root_args) :
  Transitive (run_frame DEBUG args).
Proof.
  intros w1 w2 w3 (P1 & F1 & H1 & M1 & W1 & D1 & O1 & E1 & S1 & T1)
                 (P2 & F2 & H2 & M2 & W2 & D2 & O2 & E2 & S2 & T2).
  unfold run_frame. repeat split; try (etrans; eassumption); auto.
  - intros path. destruct (P2 path) as [->|[Hnone Hi]]; [apply P1|].
    destruct (P1 path) as [Heq|[Hnone1 _]]; right; split; try done.
    by rewrite <- Heq.
  - intros Hd. by rewrite S2, S1.
Qed.

Lemma fd_install_keeps (o x : kobj) (tbl : list (option kobj)) (i : nat) :
  tbl !! i = Some (Some x) -> fd_install o tbl !! i = Some (Some x).
Proof.
  revert i. induction tbl as [|[y|] tbl IH]; intros [|i]; cbn; try done. apply IH.
Qed.

Lemma fd_obj_install_keeps (o x : kobj) (w : world) (fd : Z) :
  fd_obj w fd = Some x -> fd_obj (set_fds (fd_install o) w) fd = Some x.
Proof.
  unfold fd_obj. wsimpl. destruct (fd <? 0); [done|].
  destruct (w_fds w !! Z.to_nat fd) as [[y|]|] eqn:Hfd; try done.
  intros [= ->]. by rewrite (fd_install_keeps o x _ _ Hfd).
Qed.

Lemma log_lines_release (level : Z) (args : root_args) (text : string) :
  log_lines false level args text = [].
Proof. reflexivity. Qed.

Section RunFrame.

Variable DEBUG : bool.
Variable strerror : Z -> string.
Variable args : root_args.

Lemma run_frame_stdout (l : list string) (w : world) :
  run_frame DEBUG args w (set_stdout (fun x => x ++ l) w).
Proof. unfold run_frame. wsimpl. repeat split; auto. by exists l. Qed.

Lemma run_frame_stderr (level : Z) (text : string) (w : world) :
  run_frame DEBUG args w
    (set_stderr (fun x => x ++ log_lines DEBUG level args text) w).
Proof.
  unfold run_frame. wsimpl. repeat split; auto; [by eexists|].
  intros ->. by rewrite log_lines_release, app_nil_r.
Qed.

Lemma run_frame_trace (l : list call) (w : world) :
  run_frame DEBUG args w (set_trace (fun x => x ++ l) w).
Proof. unfold run_frame. wsimpl. repeat split; auto. by exists l. Qed.

Lemma run_frame_fd (o : kobj) (w : world) :
  run_frame DEBUG args w (set_fds (fd_install o) w).
Proof.
  unfold run_frame. wsimpl. repeat split; auto.
  intros fd x. apply fd_obj_install_keeps.
Qed.

Lemma run_frame_pin (i : nat) (m : kmap) (w : world) :
  (i < NUM_PINNED_MAPS)%nat -> w_pins w !! pin_at args i = None ->
  run_frame DEBUG args w (set_pins (fun ps => <[pin_at args i := m]> ps) w).
Proof.
  intros Hi Hfree. unfold run_frame. wsimpl. repeat split; auto.
  intros path. destruct (decide (path = pin_at args i)) as [->|Hne].
  - right. split; [done|]. by exists i.
  - left. by rewrite lookup_insert_ne.
Qed.

Context (Q : unit -> Prop) (E : Z -> Prop).

Lemma run_ensures_log_info (text : string) :
  Q tt -> ensures (run_frame DEBUG args) Q E (log_info DEBUG args text).
Proof. intros Hq w. rewrite log_info_eq. split; [apply run_frame_stdout|done]. Qed.

Lemma run_ensures_log_warn (text : string) :
  Q tt -> ensures (run_frame DEBUG args) Q E (log_warn DEBUG args text).
Proof. intros Hq w. rewrite log_warn_eq. split; [apply run_frame_stdout|done]. Qed.

Lemma run_ensures_log_debu (text : string) :
  Q tt -> ensures (run_frame DEBUG args) Q E (log_debu DEBUG args text).
Proof. intros Hq w. rewrite log_debu_eq. split; [apply run_frame_stdout|done]. Qed.

Lemma run_ensures_print_log (text : string) :
  Q tt -> ensures (run_frame DEBUG args) Q E (print_log 3 None args text).
Proof. intros Hq w. rewrite print_log_plain_eq. split; [apply run_frame_stdout|done]. Qed.

Lemma run_ensures_log_fata {A} (Q' : A -> Prop) (text : string) :
  E EXIT_FAILURE -> ensures (run_frame DEBUG args) Q' E (log_fata DEBUG args text).
Proof. intros He w. rewrite log_fata_eq. split; [apply run_frame_stderr|done]. Qed.

End RunFrame.

Lemma get_pin_path_cases (args : root_args) (suffix : option string)
    (pin_path path : string) (matched : Z) :
  get_pin_path args suffix pin_path = Some (matched, path) ->
  (matched = 0 /\ path = pin_path) \/
  (matched = 1 /\ exists i, (i < NUM_PINNED_MAPS)%nat /\ path = pin_at args i).
Proof.
  unfold get_pin_path, NUM_PINNED_MAPS. destruct suffix as [s|]; [|done].
  repeat case_match; intros [= <- <-]; first [by left | right; split; [done|]].
  - exists 0%nat. split; [lia|done].
  - exists 1%nat. split; [lia|done].
  - exists 2%nat. split; [lia|done].
  - exists 3%nat. split; [lia|done].
Qed.

Section RunEnsures.

Variable DEBUG : bool.
Variable strerror : Z -> string.
Variable args : root_args.

Local Abbreviation R := (run_frame DEBUG args).

Lemma run_ensures_bpf_obj_pin (E : Z -> Prop) (fd : Z) (i : nat) :
  (i < NUM_PINNED_MAPS)%nat ->
  ensures R (fun _ => True) E (bpf_obj_pin fd (pin_at args i)).
Proof.
  intros Hi w. destruct (bpf_obj_pin_cases fd (pin_at args i) w) as [->|(m & Hpin)].
  { split; [apply run_frame_trace|done]. }
  rewrite Hpin. split; [|done].
  assert (Hfree : w_pins w !! pin_at args i = None).
  { unfold bpf_obj_pin in Hpin. wsimpl in Hpin.
    destruct (fd_obj _ fd) as [[m'| | |]|]; try done.
    destruct (w_pins w !! pin_at args i); [done|reflexivity]. }
  etrans; [apply (run_frame_trace DEBUG args [call_bpf_obj_pin fd (pin_at args i)])|].
  by apply run_frame_pin.
Qed.

Lemma run_ensures_pidfd_open (E : Z -> Prop) (pid : Z) (it : iteration) :
  ensures R (fun _ => True) E (pidfd_open pid it).
Proof.
  intros w. unfold pidfd_open, new_fd. destruct (it_pidfd_open it).
  - split; [|done]. etrans; [apply (run_frame_trace DEBUG args [call_pidfd_open pid])|].
    apply run_frame_fd.
  - split; [apply run_frame_trace|done].
Qed.

Lemma run_ensures_pidfd_getfd (E : Z -> Prop) (pidfd targetfd : Z) (it : iteration) :
  ensures R (fun _ => True) E (pidfd_getfd pidfd targetfd it).
Proof.
  intros w. unfold pidfd_getfd, new_fd.
  destruct (fd_obj _ pidfd) as [[m|path|pid|]|];
    try (split; [apply run_frame_trace|done]).
  destruct (it_fdtable it !! _); [|split; [apply run_frame_trace|done]].
  split; [|done].
  etrans; [apply (run_frame_trace DEBUG args [call_pidfd_getfd pidfd targetfd])|].
  apply run_frame_fd.
Qed.

Lemma run_ensures_pin_by_name (curfd : Z) :
  ensures R (fun _ => True) (fun st => st = EXIT_FAILURE) (pin_by_name DEBUG args curfd).
Proof.
  unfold pin_by_name.
  eapply (ensures_bind R (fun _ => True)).
  { intros w. unfold bpf_obj_get_info_by_fd.
    destruct (fd_obj w curfd) as [[m| | |]|]; by split. }
  intros [err info] _. destruct (_ && _); [|by apply (ensures_ret R)].
  eapply (ensures_bind R (fun _ => True)); [by apply run_ensures_log_info|]. intros _ _.
  destruct (get_pin_path _ _ _) as [[matched path]|] eqn:Hpath;
    [|apply ensures_undefined].
  eapply (ensures_bind R (fun _ => True)).
  - apply get_pin_path_cases in Hpath as [[-> ->]|(-> & i & Hi & ->)].
    + by apply (ensures_ret R).
    + cbn [Z.eqb negb].
      eapply (ensures_bind R (fun _ => True)); [by apply run_ensures_log_warn|]. intros _ _.
      by apply run_ensures_bpf_obj_pin.
  - intros err' _. apply (ensures_when R); [done|]. by apply run_ensures_log_fata.
Qed.

Lemma run_ensures_pin_bpfcov_maps (pid result : Z) (it : iteration) :
  ensures R (fun _ => True) (fun st => st = EXIT_FAILURE)
    (pin_bpfcov_maps DEBUG args pid result it).
Proof.
  unfold pin_bpfcov_maps.
  eapply (ensures_bind R (fun _ => True)); [apply run_ensures_pidfd_open|]. intros pidfd _.
  destruct (pidfd <? 0); [by apply (ensures_ret R)|].
  eapply (ensures_bind R (fun _ => True)); [apply run_ensures_pidfd_getfd|]. intros curfd _.
  destruct (curfd <? 0); [by apply (ensures_ret R)|].
  apply run_ensures_pin_by_name.
Qed.

Lemma run_ensures_iteration (pid is_map : Z) (it : iteration) :
  ensures R (fun _ => True) (run_status [it])
    (run_iteration DEBUG strerror args pid is_map it).
Proof.
  assert (Hfail : run_status [it] EXIT_FAILURE) by (by left).
  unfold run_iteration.
  eapply (ensures_bind R (fun _ => True));
    [apply (ensures_when R); [done|by apply run_ensures_log_fata]|]. intros _ _.
  eapply (ensures_bind R (fun _ => True));
    [apply (ensures_when R); [done|by apply run_ensures_log_fata]|]. intros _ _.
  destruct (it_regs_entry it) as [regs|e] eqn:Hentry;
    [|by apply run_ensures_log_fata].
  cbv zeta.
  eapply (ensures_bind R (fun _ => True)); [by apply run_ensures_log_debu|]. intros _ _.
  eapply (ensures_bind R (fun _ => True));
    [apply (ensures_when R); [done|by apply run_ensures_log_fata]|]. intros _ _.
  eapply (ensures_bind R (fun _ => True));
    [apply (ensures_when R); [done|by apply run_ensures_log_fata]|]. intros _ _.
  destruct (it_regs_exit it) as [regs'|errno] eqn:Hexit.
  - eapply (ensures_bind R (fun _ => True)); [by apply run_ensures_print_log|]. intros _ _.
    destruct (_ && _); [|by apply (ensures_ret R)].
    eapply (ensures_bind R (fun _ => True)); [|intros; by apply (ensures_ret R)].
    eapply ensures_weaken; [apply run_ensures_pin_bpfcov_maps|done|].
    intros st ->. exact Hfail.
  - eapply (ensures_bind R (fun _ => True)); [by apply run_ensures_print_log|]. intros _ _.
    destruct (Z.eqb_spec errno ESRCH) as [->|_]; [|by apply run_ensures_log_fata].
    apply (ensures_exit R). right. exists it, regs.
    split; [apply list_elem_of_singleton; reflexivity|done].
Qed.

Lemma run_status_cons (it : iteration) (evs : list iteration) (st : Z) :
  run_status [it] st \/ run_status evs st -> run_status (it :: evs) st.
Proof.
  intros [[->|(it' & regs & Hin & H)]|[->|(it' & regs & Hin & H)]]; try by left.
  - right. exists it', regs. split; [|done].
    apply list_elem_of_singleton in Hin as ->. by left.
  - right. exists it', regs. split; [by right|done].
Qed.

Lemma run_ensures_loop (pid is_map : Z) (evs : list iteration) :
  ensures R (fun _ => True) (run_status evs) (run_loop DEBUG strerror args pid is_map evs).
Proof.
  revert is_map. induction evs as [|it evs IH]; intros is_map; cbn [run_loop].
  - by apply (ensures_ret R).
  - eapply (ensures_bind R (fun _ => True)).
    + eapply ensures_weaken; [apply run_ensures_iteration|done|].
      intros st Hst. apply run_status_cons. by left.
    + intros flag _. eapply ensures_weaken; [apply IH|done|].
      intros st Hst. apply run_status_cons. by right.
Qed.

Lemma run_ensures (tr : tracee) :
  ensures R (fun _ => True) (run_status (tr_events tr)) (run DEBUG strerror args tr).
Proof.
  unfold run.
  eapply (ensures_bind R (fun _ => True)); [by apply run_ensures_log_info|]. intros _ _.
  destruct (tr_fork tr =? -1).
  - apply run_ensures_log_fata. by left.
  - apply run_ensures_loop.
Qed.

End RunEnsures.

(** ** What [gen] does and does not do *)

#[local] Instance gen_frame_refl (DEBUG : bool) (out : string) :
  Reflexive (gen_frame DEBUG out).
Proof. intros w. unfold gen_frame. repeat split; auto. Qed.

#[local] Instance gen_frame_trans (DEBUG : bool) (out : string) :
  Transitive (gen_frame DEBUG out).
Proof.
  intros w1 w2 w3 (P1 & W1 & T1 & F1 & O1 & E1 & S1) (P2 & W2 & T2 & F2 & O2 & E2 & S2).
  unfold gen_frame. repeat split; try (etrans; eassumption).
  - intros path Hne. by rewrite F2, F1.
  - destruct (S1 H), (S2 H). congruence.
  - destruct (S1 H), (S2 H). congruence.
Qed.

(** A world that differs in the descriptors, the heap and the allocator
    only. *)
Lemma gen_frame_same (DEBUG : bool) (out : string) (w w' : world) :
  w_pins w' = w_pins w -> w_writable w' = w_writable w -> w_trace w' = w_trace w ->
  w_files w' = w_files w -> w_stdout w' = w_stdout w -> w_stderr w' = w_stderr w ->
  gen_frame DEBUG out w w'.
Proof.
  intros P W T F O E. unfold gen_frame. rewrite P, W, T, F, O, E. repeat split; auto.
Qed.

Lemma gen_frame_stdout (DEBUG : bool) (out : string) (l : list string) (w : world) :
  (DEBUG = false -> l = []) ->
  gen_frame DEBUG out w (set_stdout (fun x => x ++ l) w).
Proof.
  intros Hl. unfold gen_frame. wsimpl. repeat split; auto;
    first [ by eexists | by rewrite Hl, app_nil_r ].
Qed.

Lemma gen_frame_stderr (DEBUG : bool) (out : string) (l : list string) (w : world) :
  (DEBUG = false -> l = []) ->
  gen_frame DEBUG out w (set_stderr (fun x => x ++ l) w).
Proof.
  intros Hl. unfold gen_frame. wsimpl. repeat split; auto;
    first [ by eexists | by rewrite Hl, app_nil_r ].
Qed.

Create HintDb genframe discriminated.

Section GenEnsures.

Variable DEBUG : bool.
Variable args : root_args.

Local Abbreviation Rg := (gen_frame DEBUG (output args)).
Local Abbreviation fatal := (fun st : Z => st = EXIT_FAILURE).

Lemma gen_ensures_ret : ensures Rg (fun r => r = 0) fatal (ret 0).
Proof. by apply (ensures_ret Rg). Qed.

Lemma gen_ensures_when (c : bool) (m : M unit) :
  ensures Rg (fun _ => True) fatal m -> ensures Rg (fun _ => True) fatal (when c m).
Proof. by apply (ensures_when Rg). Qed.

Lemma gen_ensures_log_info (text : string) :
  ensures Rg (fun _ => True) fatal (log_info DEBUG args text).
Proof.
  intros w. rewrite log_info_eq. split; [|done]. apply gen_frame_stdout.
  by intros ->.
Qed.

Lemma gen_ensures_log_fata {A} (Q : A -> Prop) (text : string) :
  ensures Rg Q fatal (log_fata DEBUG args text).
Proof.
  intros w. rewrite log_fata_eq. split; [|done]. apply gen_frame_stderr.
  by intros ->.
Qed.

Lemma gen_ensures_bpf_obj_get (path : string) :
  ensures Rg (fun _ => True) fatal (bpf_obj_get path).
Proof.
  intros w. unfold bpf_obj_get, new_fd.
  destruct (w_pins w !! path); (split; [by apply gen_frame_same|done]).
Qed.

Lemma gen_ensures_get_map_info (fd : Z) :
  ensures Rg (fun _ => True) fatal (get_map_info fd).
Proof.
  intros w. unfold get_map_info, bpf_obj_get_info_by_fd.
  destruct (fd_obj w fd) as [[m| | |]|]; by split.
Qed.

Lemma gen_ensures_fopen_wb :
  ensures Rg (fun o => forall fp, o = Some fp -> f_path fp = output args) fatal
    (fopen_wb (output args)).
Proof.
  intros w. unfold fopen_wb. destruct (w_writable w (output args)); [|by split].
  rewrite bind_eq. unfold new_fd. cbn [ret]. split; [|by intros fp [= <-]].
  unfold gen_frame. wsimpl. repeat split; auto.
  intros path Hne. by rewrite lookup_insert_ne.
Qed.

Lemma gen_ensures_fwrite (bs : list byte) (fp : FILE) :
  f_path fp = output args -> ensures Rg (fun _ => True) fatal (fwrite bs fp).
Proof.
  intros Hfp w. unfold fwrite. split; [|done]. unfold gen_frame. wsimpl.
  repeat split; auto. intros path Hne. rewrite lookup_insert_ne; [done|congruence].
Qed.

Lemma gen_ensures_load (p : ptr) (off n : nat) :
  ensures Rg (fun _ => True) fatal (load p off n).
Proof.
  intros w. destruct (load p off n w) as [bs w'|st w'|] eqn:Hrun; [| |done].
  - apply load_inv in Hrun as [-> _]. by split.
  - by apply never_exits_load in Hrun.
Qed.

Lemma gen_ensures_fwrite_block (p : ptr) (size : Z) (fp : FILE) :
  f_path fp = output args -> ensures Rg (fun _ => True) fatal (fwrite_block p size fp).
Proof.
  intros Hfp. unfold fwrite_block. destruct (size =? 0); [by apply (ensures_ret Rg)|].
  eapply (ensures_bind Rg (fun _ => True)); [apply gen_ensures_load|].
  intros bs _. by apply gen_ensures_fwrite.
Qed.

Lemma gen_ensures_malloc (n : Z) : ensures Rg (fun _ => True) fatal (malloc n).
Proof.
  intros w. rewrite malloc_eq.
  destruct (hd true (w_malloc w)); (split; [by apply gen_frame_same|done]).
Qed.

Lemma gen_ensures_free (p : ptr) : ensures Rg (fun _ => True) fatal (free p).
Proof.
  intros w. unfold free. destruct p as [b|]; [|by split].
  destruct (block w (Some b)); [|done]. split; [by apply gen_frame_same|done].
Qed.

Lemma gen_ensures_close (fd : Z) : ensures Rg (fun _ => True) fatal (close fd).
Proof. intros w. rewrite close_eq. split; [by apply gen_frame_same|done]. Qed.

Lemma gen_ensures_fclose (fp : FILE) : ensures Rg (fun _ => True) fatal (fclose fp).
Proof. apply gen_ensures_close. Qed.

Lemma gen_ensures_get_global_data (fd : Z) (info : bpf_map_info) (data : ptr) :
  ensures Rg (fun _ => True) fatal (get_global_data fd info data).
Proof.
  intros w. destruct (get_global_data fd info data w) as [err w'|st w'|] eqn:Hrun.
  - apply get_global_data_frame in Hrun as (t & h & o & ->).
    split; [by apply gen_frame_same|done].
  - by apply never_exits_get_global_data in Hrun.
  - done.
Qed.

Hint Resolve gen_ensures_ret gen_ensures_when gen_ensures_log_info gen_ensures_log_fata
  gen_ensures_bpf_obj_get gen_ensures_get_map_info gen_ensures_fwrite
  gen_ensures_load gen_ensures_fwrite_block gen_ensures_malloc gen_ensures_free
  gen_ensures_close gen_ensures_fclose gen_ensures_get_global_data : genframe.

Lemma gen_ensures : ensures Rg (fun r => r = 0) fatal (gen DEBUG args).
Proof.
  unfold gen.
  repeat first
    [ match goal with
      | |- ensures _ _ _ (let '(_, _) := ?r in _) => destruct r
      | |- ensures _ _ _ (bind (fopen_wb _) _) => fail 1
      end
    | eapply (ensures_bind Rg (fun _ => True));
      [ solve [auto with genframe] | intros ? _ ] ].
  eapply (ensures_bind Rg); [apply gen_ensures_fopen_wb|].
  intros [outfp|] Hfp; [|apply gen_ensures_log_fata].
  specialize (Hfp outfp eq_refl). cbv zeta.
  repeat first
    [ eapply (ensures_bind Rg (fun _ => True));
      [ solve [auto with genframe] | intros ? _ ]
    | solve [auto with genframe] ].
Qed.

End GenEnsures.

(** ** [run]: what a run of the tracer leaves behind *)

(** Whatever the traced program does, [run] removes no pin and replaces
    none; the pins it adds lie at paths of the four roles that were free;
    and it writes no file. *)
Theorem run_only_adds_pins (DEBUG : bool) (strerror : Z -> string) (args : root_args)
    (tr : tracee) (w w' : world) :
  world_of (run DEBUG strerror args tr w) = Some w' ->
  (forall path m, w_pins w !! path = Some m -> w_pins w' !! path = Some m) /\
  (forall path, w_pins w' !! path <> w_pins w !! path ->
     w_pins w !! path = None /\
     exists i, (i < NUM_PINNED_MAPS)%nat /\ path = pin_at args i) /\
  w_files w' = w_files w.
Proof.
  intros Hrun. pose proof (run_ensures DEBUG strerror args tr w) as H.
  assert (Hframe : run_frame DEBUG args w w').
  { destruct (run DEBUG strerror args tr w) as [v w1|st w1|]; [| |done];
      injection Hrun as <-; apply H. }
  destruct Hframe as (Hpins & Hfiles & _). split; [|split; [|done]].
  - intros path m Hm. destruct (Hpins path) as [->|[Hnone _]]; congruence.
  - intros path Hne. by destruct (Hpins path) as [Heq|H1].
Qed.

Lemma run_only_adds_pins_witness :
  exists w',
    world_of (run true sample_strerror (sample_args (Some cmd_run))
                {| tr_fork := 1234; tr_errno := 0;
                   tr_events := [sample_create_profc; sample_open_other] |}
                (sample_world [])) = Some w' /\
    w_files w' = w_files (sample_world []).
Proof.
  eexists. split; [vm_compute; reflexivity|].
  match goal with
  | |- w_files ?w' = _ =>
      destruct (run_only_adds_pins true sample_strerror (sample_args (Some cmd_run))
                  {| tr_fork := 1234; tr_errno := 0;
                     tr_events := [sample_create_profc; sample_open_other] |}
                  (sample_world []) w' ltac:(vm_compute; reflexivity)) as (_ & _ & H)
  end.
  exact H.
Defined.

(** [run] closes no descriptor and frees nothing: a descriptor that is
    open when it starts is open, on the same object, in every world that it
    leaves, and the heap is as it was. *)
Theorem run_never_closes (DEBUG : bool) (strerror : Z -> string) (args : root_args)
    (tr : tracee) (w w' : world) :
  world_of (run DEBUG strerror args tr w) = Some w' ->
  (forall fd o, fd_obj w fd = Some o -> fd_obj w' fd = Some o) /\
  w_heap w' = w_heap w.
Proof.
  intros Hrun. pose proof (run_ensures DEBUG strerror args tr w) as H.
  assert (Hframe : run_frame DEBUG args w w').
  { destruct (run DEBUG strerror args tr w) as [v w1|st w1|]; [| |done];
      injection Hrun as <-; apply H. }
  by destruct Hframe as (_ & _ & Hheap & _ & _ & Hfds & _).
Qed.

Lemma run_never_closes_witness :
  exists w',
    world_of (run true sample_strerror (sample_args (Some cmd_run))
                {| tr_fork := 1234; tr_errno := 0; tr_events := [sample_create_profc] |}
                (set_fds (fun _ => [Some KOther]) (sample_world []))) = Some w' /\
    fd_obj w' 0 = Some KOther.
Proof.
  eexists. split; [vm_compute; reflexivity|].
  match goal with
  | |- fd_obj ?w' 0 = _ =>
      destruct (run_never_closes true sample_strerror (sample_args (Some cmd_run))
                  {| tr_fork := 1234; tr_errno := 0; tr_events := [sample_create_profc] |}
                  (set_fds (fun _ => [Some KOther]) (sample_world [])) w'
                  ltac:(vm_compute; reflexivity)) as [H _]
  end.
  by apply H.
Defined.

(** The statuses of [run]. When [run] ends the tool, the status is
    [EXIT_FAILURE], or it is the first argument of a system call that the
    traced program entered and whose exit stop could not be probed because
    the process was gone. *)
Theorem run_exit_statuses (DEBUG : bool) (strerror : Z -> string) (args : root_args)
    (tr : tracee) (w w' : world) (st : Z) :
  run DEBUG strerror args tr w = Exited st w' ->
  st = EXIT_FAILURE \/
  exists it regs, it ∈ tr_events tr /\ it_regs_entry it = inl regs /\
                  it_regs_exit it = inr ESRCH /\ st = Bytes.to_int (rdi regs).
Proof.
  intros Hrun. pose proof (run_ensures DEBUG strerror args tr w) as H.
  rewrite Hrun in H. apply H.
Qed.

Lemma run_exit_statuses_witness :
  exists w',
    run true sample_strerror (sample_args (Some cmd_run))
      {| tr_fork := 1234; tr_errno := 0;
         tr_events := [sample_create_profc; sample_exit_group 7] |}
      (sample_world []) = Exited 7 w' /\
    (7 = EXIT_FAILURE \/
     exists it regs, it ∈ [sample_create_profc; sample_exit_group 7] /\
                     it_regs_entry it = inl regs /\
                     it_regs_exit it = inr ESRCH /\ 7 = Bytes.to_int (rdi regs)).
Proof.
  eexists. split; [vm_compute; reflexivity|].
  eapply (run_exit_statuses true sample_strerror (sample_args (Some cmd_run))
            {| tr_fork := 1234; tr_errno := 0;
               tr_events := [sample_create_profc; sample_exit_group 7] |}
            (sample_world [])).
  vm_compute. reflexivity.
Defined.

Lemma first_free_free (tbl : list (option kobj)) : mjoin (tbl !! first_free tbl) = None.
Proof. induction tbl as [|[x|] tbl IH]; cbn; done. Qed.

Lemma fd_install_other (o : kobj) (tbl : list (option kobj)) (i : nat) :
  i <> first_free tbl -> mjoin (fd_install o tbl !! i) = mjoin (tbl !! i).
Proof.
  revert i. induction tbl as [|[x|] tbl IH]; intros [|i] Hi; cbn in *; try done.
  apply IH. congruence.
Qed.

(** Each duplication of a descriptor of the traced process leaves two
    descriptors open in the tracer for good: the one on the process and
    the duplicate. Both were free before, and whatever becomes of the map
    behind the duplicate, pinned or not, no one closes them. *)
Theorem exfiltration_leaves_descriptors_open (DEBUG : bool) (args : root_args)
    (pid result : Z) (it : iteration) (o : kobj) (w w' : world) :
  it_pidfd_open it = true ->
  it_fdtable it !! Bytes.to_int result = Some o ->
  world_of (pin_bpfcov_maps DEBUG args pid result it w) = Some w' ->
  exists pidfd curfd,
    pidfd <> curfd /\
    fd_obj w pidfd = None /\ fd_obj w curfd = None /\
    fd_obj w' pidfd = Some (KPidfd pid) /\ fd_obj w' curfd = Some o.
Proof.
  intros Hopen Hfd. rewrite pin_bpfcov_maps_eq, Hopen, Hfd. cbv zeta.
  set (t1 := fd_install (KPidfd pid) (w_fds w)).
  set (w2 := set_fds (fd_install o) _).
  intros Hrun. pose proof (run_ensures_pin_by_name DEBUG args (Z.of_nat (first_free t1)) w2) as H.
  assert (Hframe : run_frame DEBUG args w2 w').
  { destruct (pin_by_name _ _ _ _) as [v w3|st w3|]; [| |done];
      injection Hrun as <-; apply H. }
  destruct Hframe as (_ & _ & _ & _ & _ & Hkeep & _).
  assert (Hfresh : first_free t1 <> first_free (w_fds w)).
  { intros Heq. pose proof (first_free_free t1) as Hnone. rewrite Heq in Hnone.
    unfold t1 in Hnone. by rewrite fd_install_lookup in Hnone. }
  exists (Z.of_nat (first_free (w_fds w))), (Z.of_nat (first_free t1)).
  assert (Hobj : forall (x : world) (n : nat), fd_obj x (Z.of_nat n) = mjoin (w_fds x !! n)).
  { intros x n. unfold fd_obj. destruct (Z.ltb_spec (Z.of_nat n) 0); [lia|].
    by rewrite Nat2Z.id. }
  split; [lia|]. split; [rewrite Hobj; apply first_free_free|]. split.
  - rewrite Hobj, <- (fd_install_other (KPidfd pid)) by done. apply first_free_free.
  - split; apply Hkeep; rewrite Hobj; unfold w2; wsimpl; fold t1.
    + rewrite fd_install_other by done. apply fd_install_lookup.
    + apply fd_install_lookup.
Qed.

Lemma exfiltration_leaves_descriptors_open_witness :
  exists w' pidfd curfd,
    world_of (pin_bpfcov_maps true (sample_args (Some cmd_run)) 1234 3
                sample_create_profc (sample_world [])) = Some w' /\
    pidfd <> curfd /\
    fd_obj w' pidfd = Some (KPidfd 1234) /\
    fd_obj w' curfd = Some (KMap (sample_map "prog.profc" sample_counters)).
Proof.
  eexists.
  match goal with
  | |- exists pidfd curfd, world_of _ = Some ?w' /\ _ =>
      destruct (exfiltration_leaves_descriptors_open true (sample_args (Some cmd_run))
                  1234 3 sample_create_profc
                  (KMap (sample_map "prog.profc" sample_counters)) (sample_world []) w'
                  eq_refl eq_refl ltac:(vm_compute; reflexivity))
        as (pidfd & curfd & Hne & _ & _ & H1 & H2)
  end.
  exists pidfd, curfd. done.
Defined.

(** ** A build without [DEBUG] *)

(** A release build says nothing on stderr: whatever [run] and [gen] meet,
    their fatal errors included, stderr is as it was when they return and
    when they exit, and [gen] leaves stdout alone as well. *)
Theorem release_build_is_silent (strerror : Z -> string) (args : root_args)
    (tr : tracee) (w w' : world) :
  (world_of (run false strerror args tr w) = Some w' -> w_stderr w' = w_stderr w) /\
  (world_of (gen false args w) = Some w' ->
   w_stderr w' = w_stderr w /\ w_stdout w' = w_stdout w).
Proof.
  split; intros Hrun.
  - pose proof (run_ensures false strerror args tr w) as H.
    assert (Hframe : run_frame false args w w').
    { destruct (run false strerror args tr w) as [v w1|st w1|]; [| |done];
        injection Hrun as <-; apply H. }
    destruct Hframe as (_ & _ & _ & _ & _ & _ & _ & _ & Hsilent & _). by apply Hsilent.
  - pose proof (gen_ensures false args w) as H.
    assert (Hframe : gen_frame false (output args) w w').
    { destruct (gen false args w) as [v w1|st w1|]; [| |done];
        injection Hrun as <-; apply H. }
    destruct Hframe as (_ & _ & _ & _ & _ & _ & Hsilent). by destruct (Hsilent eq_refl).
Qed.

Lemma release_build_is_silent_witness :
  exists w',
    gen false (sample_args (Some cmd_gen)) (sample_world []) = Exited EXIT_FAILURE w' /\
    w_stderr w' = [] /\ w_stdout w' = [].
Proof.
  eexists. split; [vm_compute; reflexivity|].
  match goal with
  | |- w_stderr ?w' = _ /\ _ =>
      destruct (release_build_is_silent sample_strerror (sample_args (Some cmd_gen))
                  {| tr_fork := 0; tr_errno := 0; tr_events := [] |}
                  (sample_world []) w') as [_ H]
  end.
  apply H. vm_compute. reflexivity.
Defined.

(** ** [gen]: what a generation leaves behind *)

(** [gen] returns 0 or ends the tool with [EXIT_FAILURE]; either way the
    pins are as they were, no call of the tracer is made, and no file but
    the output has changed. *)
Theorem gen_touches_output_only (DEBUG : bool) (args : root_args) (w : world) :
  match gen DEBUG args w with
  | Ok r w' | Exited r w' =>
      (r = 0 \/ r = EXIT_FAILURE) /\
      w_pins w' = w_pins w /\ w_trace w' = w_trace w /\
      forall path, path <> output args -> w_files w' !! path = w_files w !! path
  | Undef => True
  end.
Proof.
  pose proof (gen_ensures DEBUG args w) as H.
  destruct (gen DEBUG args w) as [v w1|st w1|]; [| |done];
    destruct H as [(Hp & _ & Ht & Hf & _) Hr]; (split; [|done]).
  - by left.
  - by right.
Qed.

Section GenFails.

Variable DEBUG : bool.
Variables (args : root_args) (w : world).

Ltac open_present H :=
  let m := fresh "m" in
  let Hm := fresh "Hm" in
  destruct H as [m Hm];
  [lia..|]; rewrite (open_info_some _ m) by exact Hm; cbv beta iota;
  change (negb (0 =? 0)) with false; rewrite bind_when_false.

Ltac open_missing H :=
  rewrite open_info_none by exact H; cbv beta iota;
  change (negb (-1 =? 0)) with true; rewrite bind_when_true, bind_eq, log_fata_eq;
  eexists; split; [reflexivity|]; by wsimpl.

Lemma gen_missing_pin (p : nat) :
  (p < NUM_PINNED_MAPS)%nat ->
  (forall q, (q < p)%nat -> is_Some (w_pins w !! pin_at args q)) ->
  w_pins w !! pin_at args p = None ->
  exists w',
    gen DEBUG args w = Exited EXIT_FAILURE w' /\
    w_files w' = w_files w /\
    w_stderr w' =
    w_stderr w ++ log_lines DEBUG 0 args
                    ("could not get info about pinned map '" +:+ pin_at args p
                     +:+ "'" +:+ CStr.NL).
Proof.
  unfold NUM_PINNED_MAPS. intros Hp Hbefore Hnone.
  unfold gen. rewrite bind_eq, log_info_eq. cbv beta iota.
  destruct p as [|[|[|[|p]]]]; [| | | |lia].
  - open_missing Hnone.
  - open_present (Hbefore 0%nat). open_missing Hnone.
  - open_present (Hbefore 0%nat). open_present (Hbefore 1%nat). open_missing Hnone.
  - open_present (Hbefore 0%nat). open_present (Hbefore 1%nat).
    open_present (Hbefore 2%nat). open_missing Hnone.
Qed.

Lemma gen_output_refused :
  (forall q, (q < NUM_PINNED_MAPS)%nat -> is_Some (w_pins w !! pin_at args q)) ->
  w_writable w (output args) = false ->
  exists w',
    gen DEBUG args w = Exited EXIT_FAILURE w' /\
    w_files w' = w_files w /\
    w_stderr w' =
    w_stderr w ++ log_lines DEBUG 0 args
                    ("could not open the output file '" +:+ output args
                     +:+ "'" +:+ CStr.NL).
Proof.
  unfold NUM_PINNED_MAPS. intros Hpins Hout.
  unfold gen. rewrite bind_eq, log_info_eq. cbv beta iota.
  open_present (Hpins 0%nat). open_present (Hpins 1%nat).
  open_present (Hpins 2%nat). open_present (Hpins 3%nat).
  rewrite bind_eq. unfold fopen_wb. wsimpl. rewrite Hout. cbv beta iota.
  rewrite log_fata_eq. eexists. split; [reflexivity|]. by wsimpl.
Qed.

End GenFails.

(** [gen] opens the output last. When one of the four maps is not
    pinned, the tool ends with [EXIT_FAILURE] and the error names the first
    of them that is missing; when the four are pinned and the output cannot
    be opened for writing, it ends with [EXIT_FAILURE] and the error names
    the output. In either case no file has been created, truncated or
    written. *)
Theorem gen_fails_before_writing (DEBUG : bool) (args : root_args) (w : world) :
  (forall p,
     (p < NUM_PINNED_MAPS)%nat ->
     (forall q, (q < p)%nat -> is_Some (w_pins w !! pin_at args q)) ->
     w_pins w !! pin_at args p = None ->
     exists w',
       gen DEBUG args w = Exited EXIT_FAILURE w' /\
       w_files w' = w_files w /\
       w_stderr w' =
       w_stderr w ++ log_lines DEBUG 0 args
                       ("could not get info about pinned map '" +:+ pin_at args p
                        +:+ "'" +:+ CStr.NL)) /\
  ((forall q, (q < NUM_PINNED_MAPS)%nat -> is_Some (w_pins w !! pin_at args q)) ->
   w_writable w (output args) = false ->
   exists w',
     gen DEBUG args w = Exited EXIT_FAILURE w' /\
     w_files w' = w_files w /\
     w_stderr w' =
     w_stderr w ++ log_lines DEBUG 0 args
                     ("could not open the output file '" +:+ output args
                      +:+ "'" +:+ CStr.NL)).
Proof. split; [apply gen_missing_pin|apply gen_output_refused]. Qed.

Lemma gen_fails_before_writing_witness :
  exists w',
    gen true (sample_args (Some cmd_gen))
      (sample_world [("/sys/fs/bpf/cov/prog/profc", sample_map "prog.profc" sample_counters)]) =
    Exited EXIT_FAILURE w' /\
    w_files w' = ∅ /\
    w_stderr w' =
    ["bpfcov: erro: ";
     "could not get info about pinned map '/sys/fs/bpf/cov/prog/profd'" +:+ CStr.NL].
Proof.
  destruct (gen_fails_before_writing true (sample_args (Some cmd_gen))
              (sample_world [("/sys/fs/bpf/cov/prog/profc",
                              sample_map "prog.profc" sample_counters)])) as [H _].
  destruct (H 1%nat) as (w' & Hrun & Hfiles & Herr).
  - unfold NUM_PINNED_MAPS. lia.
  - intros q Hq. assert (q = 0%nat) as -> by lia. by eexists.
  - reflexivity.
  - exists w'. split; [exact Hrun|]. split; [exact Hfiles|exact Herr].
Defined.

(** [get_global_data] does not look at [data]: on a NULL [data] it goes
    as far as the [memcpy]. *)
Lemma get_global_data_null (fd : Z) (m : kmap) (w : world)
    (key val : list byte) (rest : list (list byte * option (list byte))) :
  fd_obj w fd = Some (KMap m) ->
  hd true (w_malloc w) = true ->
  hd true (tl (w_malloc w)) = true ->
  max_entries (km_info m) <= 1 ->
  km_entries m = (key, Some val) :: rest ->
  length key = Z.to_nat (key_size (km_info m)) ->
  length val = Z.to_nat (value_size (km_info m)) ->
  get_global_data fd (km_info m) NULL w = Undef.
Proof.
  intros Hfd Hm1 Hm2 Hmax Hes Hkey Hval.
  unfold get_global_data.
  rewrite bind_eq, malloc_eq, Hm1. rewrite bind_eq, malloc_eq. wsimpl. rewrite Hm2.
  rewrite length_app. cbn [length].
  set (n0 := length (w_heap w)) in *.
  rewrite bind_eq. unfold get_global_data_body.
  cbn [bool_decide decide_rel orb].
  rewrite !bool_decide_eq_false_2 by done. cbn [orb].
  replace (1 <? max_entries (km_info m)) with false by (symmetry; by apply Z.ltb_ge).
  (* bpf_map_get_next_key *)
  rewrite bind_eq. unfold bpf_map_get_next_key at 1.
  rewrite !fd_obj_set_heap. change (fd_obj (set_malloc _ _) fd) with (fd_obj w fd).
  rewrite Hfd, Hes. rewrite bind_eq.
  rewrite (store_ok n0 0 key (replicate (Z.to_nat (key_size (km_info m))) (w_junk w))).
  2:{ unfold block. wsimpl. rewrite <- app_assoc. cbn [app].
      by rewrite list_lookup_middle. }
  2:{ rewrite length_replicate. lia. }
  cbn [ret Z.eqb negb]. rewrite drop_ge by (rewrite length_replicate; lia).
  cbn [take]. rewrite app_nil_r. cbn [app].
  (* bpf_map_lookup_elem *)
  rewrite bind_eq. unfold bpf_map_lookup_elem at 1.
  rewrite !fd_obj_set_heap. change (fd_obj (set_malloc _ _) fd) with (fd_obj w fd).
  rewrite Hfd. rewrite bind_eq.
  rewrite (load_ok _ 0 _ key).
  2:{ unfold block. wsimpl. rewrite list_lookup_insert_eq; [done|].
      rewrite !length_app. cbn [length]. lia. }
  2:{ lia. }
  rewrite drop_0, take_ge by lia. rewrite Hes. cbn [find_entry].
  rewrite bool_decide_eq_true_2 by done. rewrite bind_eq.
  rewrite (store_ok (n0 + 1) 0 val (replicate (Z.to_nat (value_size (km_info m))) (w_junk w))).
  2:{ unfold block. wsimpl. rewrite list_lookup_insert_ne by lia.
      by rewrite (list_lookup_middle _ [] _ (n0 + 1)) by (rewrite length_app; cbn; lia). }
  2:{ rewrite length_replicate. lia. }
  cbn [ret Z.eqb negb]. rewrite drop_ge by (rewrite length_replicate; lia).
  cbn [take]. rewrite app_nil_r. cbn [app].
  (* memcpy *)
  rewrite bind_eq. unfold memcpy. rewrite bind_eq.
  rewrite (load_ok _ 0 _ val).
  2:{ unfold block. wsimpl. rewrite list_lookup_insert_eq; [done|].
      rewrite length_insert, !length_app. cbn [length]. lia. }
  2:{ lia. }
  reflexivity.
Qed.

Section GenUndefined.

Variable DEBUG : bool.
Variables (args : root_args) (w : world).
Variables (mc md mn mh : kmap) (kh vh : list byte).

Hypothesis Hpc : w_pins w !! pin_at args 0 = Some mc.
Hypothesis Hpd : w_pins w !! pin_at args 1 = Some md.
Hypothesis Hpn : w_pins w !! pin_at args 2 = Some mn.
Hypothesis Hph : w_pins w !! pin_at args 3 = Some mh.
Hypothesis Hh : holds_sole_value mh kh vh.
Hypothesis Hout : w_writable w (output args) = true.

Ltac gen_opens_output :=
  unfold gen;
  rewrite bind_eq, log_info_eq; cbv beta iota;
  rewrite (open_info_some _ mc) by exact Hpc; cbv beta iota;
  change (negb (0 =? 0)) with false; rewrite bind_when_false;
  rewrite (open_info_some _ md) by exact Hpd; cbv beta iota;
  change (negb (0 =? 0)) with false; rewrite bind_when_false;
  rewrite (open_info_some _ mn) by exact Hpn; cbv beta iota;
  change (negb (0 =? 0)) with false; rewrite bind_when_false;
  rewrite (open_info_some _ mh) by exact Hph; cbv beta iota;
  change (negb (0 =? 0)) with false; rewrite bind_when_false;
  rewrite bind_eq, fopen_wb_ok by exact Hout; cbv beta iota;
  rewrite bind_eq, log_info_eq; cbv beta iota;
  do_fwrite.

Lemma gen_header_buffer_null :
  hd true (w_malloc w) = false ->
  hd true (tl (w_malloc w)) = true ->
  hd true (tl (tl (w_malloc w))) = true ->
  gen DEBUG args w = Undef.
Proof.
  intros M0 M1 M2. destruct Hh as (Hes & Hmax & Hkey & Hval).
  gen_opens_output.
  rewrite bind_eq, malloc_eq. wsimpl. rewrite M0.
  rewrite bind_eq. unfold bpf_obj_get at 1. wsimpl. rewrite Hph. unfold new_fd.
  rewrite bind_eq.
  erewrite (get_global_data_null _ mh _ kh vh); [reflexivity| |done|done|lia|done..].
  apply fd_obj_fresh. reflexivity.
Qed.

Lemma gen_header_short :
  (length vh < 16)%nat ->
  Forall (fun ok => ok = true) (take 3 (w_malloc w)) ->
  gen DEBUG args w = Undef.
Proof.
  intros Hshort Hmalloc.
  assert (M0 : hd true (w_malloc w) = true /\ hd true (tl (w_malloc w)) = true /\
               hd true (tl (tl (w_malloc w))) = true).
  { destruct (w_malloc w) as [|a [|b [|c l]]]; cbn in Hmalloc |- *;
      repeat match goal with
             | H : Forall _ (_ :: _) |- _ => apply Forall_cons in H as [-> H]
             end; done. }
  destruct M0 as (M0 & M1 & M2).
  gen_opens_output.
  rewrite (alloc_fetch_ok _ mh kh vh) by (wsimpl; assumption).
  change (negb (0 =? 0)) with false. rewrite bind_when_false. wsimpl.
  rewrite bind_eq. unfold load, block. wsimpl. rewrite list_lookup_middle by done.
  cbn [mjoin option_join]. simpl option_join.
  by rewrite bool_decide_eq_false_2 by lia.
Qed.

End GenUndefined.

(** The buffer that [gen] allocates for the value of the header map is
    not checked. When the allocation fails and [get_global_data] then
    finds the value, the value is copied to a NULL pointer; so a failed
    [malloc] is not an error that [gen] reports, but undefined
    behaviour. *)
Theorem gen_header_malloc_unchecked (DEBUG : bool) (args : root_args) (w : world)
    (mc md mn mh : kmap) (kh vh : list byte) :
  w_pins w !! pin_at args 0 = Some mc ->
  w_pins w !! pin_at args 1 = Some md ->
  w_pins w !! pin_at args 2 = Some mn ->
  w_pins w !! pin_at args 3 = Some mh ->
  holds_sole_value mh kh vh ->
  w_writable w (output args) = true ->
  hd true (w_malloc w) = false ->
  hd true (tl (w_malloc w)) = true ->
  hd true (tl (tl (w_malloc w))) = true ->
  gen DEBUG args w = Undef.
Proof. intros. by eapply gen_header_buffer_null. Qed.

Lemma gen_header_malloc_unchecked_witness :
  gen true (sample_args (Some cmd_gen))
    (set_malloc (fun _ => [false]) (sample_world sample_pins)) = Undef.
Proof.
  apply (gen_header_malloc_unchecked true (sample_args (Some cmd_gen))
           (set_malloc (fun _ => [false]) (sample_world sample_pins))
           (sample_map "prog.profc" sample_counters) (sample_map "prog.profd" sample_data)
           (sample_map "prog.profn" sample_names) (sample_map "prog.covmap" sample_header)
           (Bytes.le_encode 4 0) sample_header);
    first [ reflexivity | repeat split; reflexivity ].
Defined.

(** The version is read at the bytes 12 to 15 of the value of the header
    map whatever the size of the value: for a value of less than 16 bytes
    [gen] reads beyond the buffer that it has allocated for it. *)
Theorem gen_header_too_short (DEBUG : bool) (args : root_args) (w : world)
    (mc md mn mh : kmap) (kh vh : list byte) :
  w_pins w !! pin_at args 0 = Some mc ->
  w_pins w !! pin_at args 1 = Some md ->
  w_pins w !! pin_at args 2 = Some mn ->
  w_pins w !! pin_at args 3 = Some mh ->
  holds_sole_value mh kh vh ->
  w_writable w (output args) = true ->
  (length vh < 16)%nat ->
  Forall (fun ok => ok = true) (take 3 (w_malloc w)) ->
  gen DEBUG args w = Undef.
Proof. intros. by eapply gen_header_short. Qed.

Lemma gen_header_too_short_witness :
  gen true (sample_args (Some cmd_gen))
    (sample_world
       [("/sys/fs/bpf/cov/prog/profc", sample_map "prog.profc" sample_counters);
        ("/sys/fs/bpf/cov/prog/profd", sample_map "prog.profd" sample_data);
        ("/sys/fs/bpf/cov/prog/profn", sample_map "prog.profn" sample_names);
        ("/sys/fs/bpf/cov/prog/covmap", sample_map "prog.covmap" sample_counters)]) = Undef.
Proof.
  apply (gen_header_too_short true (sample_args (Some cmd_gen)) _
           (sample_map "prog.profc" sample_counters) (sample_map "prog.profd" sample_data)
           (sample_map "prog.profn" sample_names) (sample_map "prog.covmap" sample_counters)
           (Bytes.le_encode 4 0) sample_counters);
    first [ reflexivity | repeat split; reflexivity
          | by vm_compute; lia | vm_compute; repeat constructor ].
Defined.

(** ** [gen]: reading the output back *)

Lemma Z_of_byte_of_Z (z : Z) : Bytes.Z_of_byte (Bytes.byte_of_Z z) = z mod 256.
Proof.
  unfold Bytes.Z_of_byte, Bytes.byte_of_Z.
  pose proof (Z.mod_pos_bound z 256 ltac:(lia)) as Hz.
  destruct (Byte.of_N (Z.to_N (z mod 256))) as [b|] eqn:Hb.
  - apply Byte.to_of_N in Hb. rewrite Hb. lia.
  - apply Byte.of_N_None_iff in Hb. lia.
Qed.

Lemma le_decode_encode (n : nat) (z : Z) :
  Bytes.le_decode (Bytes.le_encode n z) = z mod 256 ^ Z.of_nat n.
Proof.
  revert z. induction n as [|n IH]; intros z.
  - cbn. by rewrite Z.mod_1_r.
  - cbn [Bytes.le_encode Bytes.le_decode]. rewrite IH, Z_of_byte_of_Z.
    rewrite Nat2Z.inj_succ, Z.pow_succ_r by lia.
    rewrite Z.rem_mul_r by lia. reflexivity.
Qed.

Lemma field_of_segments (segs : list (list byte)) (rest seg : list byte) (k : nat) :
  Forall (fun s => length s = 8%nat) segs ->
  segs !! k = Some seg ->
  field_bytes k (concat segs ++ rest) = seg.
Proof.
  unfold field_bytes. revert k. induction segs as [|s segs IH]; intros k Hlen Hk; [done|].
  apply Forall_cons in Hlen as [Hs Hlen]. cbn [concat]. rewrite <- app_assoc.
  destruct k as [|k].
  - injection Hk as <-. rewrite Nat.mul_0_r, drop_0. by rewrite take_app_length'.
  - replace (8 * S k)%nat with (8 + 8 * k)%nat by lia.
    rewrite drop_app_add' by done. by apply IH.
Qed.

(** The output of [gen] reads back. When [gen] has what it needs (the
    four maps pinned, the sole values of the data, counters and header
    maps, memory, an output that can be opened), the file is 80 bytes of
    header followed by the value of the data map and by that of the
    counters map; the header starts with the magic number, and its fields
    decode, as unsigned little-endian integers, to the version stored in
    the header map plus one, the number of function records, 0, the number
    of counters, 0, then (after the field of the names) 0, 0 and 1. *)
Theorem gen_output_reads_back (DEBUG : bool) (args : root_args) (w : world)
    (mc md mn mh : kmap) (kc kd kh vc vd vh : list byte) :
  w_pins w !! pin_at args 0 = Some mc ->
  w_pins w !! pin_at args 1 = Some md ->
  w_pins w !! pin_at args 2 = Some mn ->
  w_pins w !! pin_at args 3 = Some mh ->
  holds_sole_value mc kc vc ->
  holds_sole_value md kd vd ->
  holds_sole_value mh kh vh ->
  (16 <= length vh)%nat ->
  w_writable w (output args) = true ->
  malloc_succeeds w ->
  exists w' out,
    gen DEBUG args w = Ok 0 w' /\
    w_files w' !! output args = Some out /\
    length out = (80 + length vd + length vc)%nat /\
    field_bytes 0 out = magic /\
    field 1 out = stored_version vh + 1 /\
    field 2 out = (value_size (km_info md) / 48) mod 2 ^ 64 /\
    field 3 out = 0 /\
    field 4 out = (value_size (km_info mc) / 8) mod 2 ^ 64 /\
    field 5 out = 0 /\
    field 7 out = 0 /\ field 8 out = 0 /\ field 9 out = 1 /\
    drop 80 out = vd ++ vc.
Proof.
  intros Hpc Hpd Hpn Hph Hc Hd Hh Hver Hout Hmalloc.
  destruct (gen_writes_profraw DEBUG args w mc md mn mh kc kd kh vc vd vh)
    as (w' & Hgen & Hfile); try assumption.
  eexists w', _. split; [exact Hgen|]. split; [exact Hfile|].
  set (names := Bytes.le_encode 4 (value_size (km_info mn)) ++
                Bytes.le_encode 4 (max_entries (km_info mn))).
  set (segs := [magic; Bytes.le_encode 8 (stored_version vh + 1);
                Bytes.le_encode 8 (value_size (km_info md) / 48); Bytes.le_encode 8 0;
                Bytes.le_encode 8 (value_size (km_info mc) / 8); Bytes.le_encode 8 0;
                names; Bytes.le_encode 8 0; Bytes.le_encode 8 0; Bytes.le_encode 8 1]).
  assert (Hout' : profraw (stored_version vh + 1) (value_size (km_info md) / 48)
                    (value_size (km_info mc) / 8) names vd vc =
                  concat segs ++ (vd ++ vc)).
  { unfold profraw, segs. cbn [concat]. rewrite app_nil_r. by rewrite <- !app_assoc. }
  assert (Hsegs : Forall (fun s => length s = 8%nat) segs).
  { unfold segs, names. repeat apply Forall_cons_2; try apply Forall_nil_2;
      rewrite ?length_app, ?le_encode_length; reflexivity. }
  assert (Hlen : length (concat segs) = 80%nat).
  { unfold segs, names. cbn [concat]. rewrite !length_app, !le_encode_length. reflexivity. }
  rewrite Hout'. unfold field.
  split; [rewrite !length_app; lia|].
  rewrite (field_of_segments segs (vd ++ vc) magic 0 Hsegs eq_refl).
  rewrite (field_of_segments segs (vd ++ vc) (Bytes.le_encode 8 (stored_version vh + 1))
             1 Hsegs eq_refl).
  rewrite (field_of_segments segs (vd ++ vc) (Bytes.le_encode 8 (value_size (km_info md) / 48))
             2 Hsegs eq_refl).
  rewrite (field_of_segments segs (vd ++ vc) (Bytes.le_encode 8 0) 3 Hsegs eq_refl).
  rewrite (field_of_segments segs (vd ++ vc) (Bytes.le_encode 8 (value_size (km_info mc) / 8))
             4 Hsegs eq_refl).
  rewrite (field_of_segments segs (vd ++ vc) (Bytes.le_encode 8 0) 5 Hsegs eq_refl).
  rewrite (field_of_segments segs (vd ++ vc) (Bytes.le_encode 8 0) 7 Hsegs eq_refl).
  rewrite (field_of_segments segs (vd ++ vc) (Bytes.le_encode 8 0) 8 Hsegs eq_refl).
  rewrite (field_of_segments segs (vd ++ vc) (Bytes.le_encode 8 1) 9 Hsegs eq_refl).
  rewrite !le_decode_encode.
  pose proof (stored_version_bound vh) as Hv.
  repeat split.
  apply Z.mod_small. change (256 ^ Z.of_nat 8) with (2 ^ 64). lia.
Qed.

Lemma gen_output_reads_back_witness :
  exists w' out,
    gen true (sample_args (Some cmd_gen)) (sample_world sample_pins) = Ok 0 w' /\
    w_files w' !! "prog.profraw" = Some out /\
    length out = (80 + 48 + 8)%nat /\ field 1 out = 4 /\ field 2 out = 1 /\
    field 4 out = 1.
Proof.
  destruct (gen_output_reads_back true (sample_args (Some cmd_gen))
              (sample_world sample_pins)
              (sample_map "prog.profc" sample_counters) (sample_map "prog.profd" sample_data)
              (sample_map "prog.profn" sample_names) (sample_map "prog.covmap" sample_header)
              (Bytes.le_encode 4 0) (Bytes.le_encode 4 0) (Bytes.le_encode 4 0)
              sample_counters sample_data sample_header)
    as (w' & out & Hgen & Hfile & Hlen & _ & H1 & H2 & _ & H4 & _);
    first [ reflexivity | repeat split; reflexivity | apply le_n | constructor | idtac ].
  exists w', out. repeat split; assumption.
Defined.
